(** * scripts/refactor_telegram.py: extraction, classification, routing

    A shallow embedding of [TelegramRefactorHelper] and [main].

    Python [str] values are sequences of Unicode code points; they are
    modelled as [list N].  Literals of the script are written as Rocq strings
    (UTF-8 bytes) and decoded by [py].  The [re] patterns of the script are
    given as abstract syntax, matched by a backtracking matcher that tries
    the alternatives in the order of Python's [re] module. *)

From Stdlib Require Import ZArith NArith Ascii String DecimalString List Lia Bool
  Sorted.
From stdpp Require Import base decidable option list gmap.

#[local] Set Warnings "-clear-no-such-hyp".

Local Open Scope N_scope.

(** ** Python strings *)

Module PyStr.

Abbreviation char := N (only parsing).
Abbreviation pystr := (list N) (only parsing).

(** UTF-8 decoding of the bytes of a literal: [need] continuation bytes are
    still expected for the code point accumulated in [acc]. *)
Fixpoint utf8_go (need : nat) (acc : N) (bs : list N) : list N :=
  match bs with
  | [] => []
  | b :: r =>
    match need with
    | O =>
      if b <? 128 then b :: utf8_go 0 0 r
      else if b <? 224 then utf8_go 1 (b - 192) r
      else if b <? 240 then utf8_go 2 (b - 224) r
      else utf8_go 3 (b - 240) r
    | S O => (acc * 64 + (b - 128)) :: utf8_go 0 0 r
    | S n => utf8_go n (acc * 64 + (b - 128)) r
    end
  end.

Definition py (s : string) : list N :=
  utf8_go 0 0 (map N_of_ascii (list_ascii_of_string s)).

Definition chr (a : ascii) : N := N_of_ascii a.

Definition nl : N := 10.
Definition tab : N := 9.

Definition in_range (lo hi c : N) : bool := (lo <=? c) && (c <=? hi).

(** [str.isspace] on one character, which is also the class [\s] of a
    [str] pattern. *)
Definition is_space (c : N) : bool :=
  in_range 9 13 c || in_range 28 32 c || (c =? 133) || (c =? 160)
  || (c =? 5760) || in_range 8192 8202 c || (c =? 8232) || (c =? 8233)
  || (c =? 8239) || (c =? 8287) || (c =? 12288).

Definition is_upper (c : N) : bool := in_range 65 90 c.
Definition is_lower (c : N) : bool := in_range 97 122 c.
Definition is_digit (c : N) : bool := in_range 48 57 c.

(** [str.lower()].  Exact on ASCII; the names it is applied to are matched
    by [[a-zA-Z_][a-zA-Z0-9_]*] (see [extract_names_identifier]). *)
Definition lower_char (c : N) : N := if is_upper c then c + 32 else c.
Definition lower (s : list N) : list N := map lower_char s.

(** [s.startswith(p)], returning the rest. *)
Fixpoint strip_prefix (p s : list N) : option (list N) :=
  match p, s with
  | [], _ => Some s
  | a :: p', b :: s' => if a =? b then strip_prefix p' s' else None
  | _ :: _, [] => None
  end.

Definition startswith (p s : list N) : bool :=
  match strip_prefix p s with Some _ => true | None => false end.

(** [w in s] for strings. *)
Fixpoint contains (w s : list N) : bool :=
  startswith w s ||
  match s with
  | [] => false
  | _ :: s' => contains w s'
  end.

(** [any(word in s for word in words)] *)
Definition any_in (words : list (list N)) (s : list N) : bool :=
  existsb (fun w => contains w s) words.

(** [s.strip()] *)
Fixpoint lstrip (s : list N) : list N :=
  match s with
  | c :: s' => if is_space c then lstrip s' else s
  | [] => []
  end.
Definition rstrip (s : list N) : list N := rev (lstrip (rev s)).
Definition strip (s : list N) : list N := rstrip (lstrip s).

(** [s[i:j]] for [0 <= i], [0 <= j] *)
Definition slice (s : list N) (i j : nat) : list N := take (j - i) (drop i s).

(** [s.split(sep)[0]] for a one-character separator *)
Fixpoint split_head (sep : N) (s : list N) : list N :=
  match s with
  | [] => []
  | c :: s' => if c =? sep then [] else c :: split_head sep s'
  end.

(** [str(n)] for a natural number *)
Definition str_of_nat (n : nat) : list N :=
  map N_of_ascii (list_ascii_of_string (NilZero.string_of_uint (Nat.to_uint n))).

End PyStr.
Export PyStr.

(** ** The fragment of [re] used by the script *)

Module Re.

(** Abstract syntax of the patterns.  Every starred or plussed item of the
    script's patterns is a one-character class ([\s+], [\s*], [.*],
    [[^)]*], [[a-zA-Z0-9_]*], [[^{]*]), so [Star] and [Plus] take a class. *)
Inductive regex : Type :=
| Eps : regex
| Lit (c : N) : regex                 (* a literal character *)
| Cls (p : N -> bool) : regex         (* a set, [.] or [\s] *)
| Seq (r1 r2 : regex) : regex
| Alt (r1 r2 : regex) : regex         (* r1|r2 *)
| Opt (r : regex) : regex             (* r?  (greedy) *)
| Star (p : N -> bool) : regex        (* c*  (greedy) *)
| Plus (p : N -> bool) : regex        (* c+  (greedy) *)
| Grp (n : nat) (r : regex) : regex.  (* capturing group number n *)

(** Spans [(start, end)] of the groups that took part in the match. *)
Definition groups := list (nat * (nat * nat)).

Fixpoint group_span (n : nat) (g : groups) : option (nat * nat) :=
  match g with
  | [] => None
  | (k, sp) :: g' => if Nat.eqb k n then Some sp else group_span n g'
  end.

Section Matcher.
Context {A : Type}.

(** Greedy repetition of a class: take as many characters as possible,
    give one back each time the rest of the pattern fails. *)
Fixpoint star_bt (p : N -> bool) (i : nat) (s : list N)
    (k : nat -> list N -> option A) : option A :=
  match s with
  | c :: s' =>
    if p c then
      match star_bt p (S i) s' k with
      | Some a => Some a
      | None => k i s
      end
    else k i s
  | [] => k i s
  end.

(** [bt r i s g k]: match [r] at the head of [s], which is the text from
    index [i] on, then continue with [k]; alternatives are tried in
    order and the first overall success is returned. *)
Fixpoint bt (r : regex) (i : nat) (s : list N) (g : groups)
    (k : nat -> list N -> groups -> option A) : option A :=
  match r with
  | Eps => k i s g
  | Lit c =>
    match s with
    | x :: s' => if x =? c then k (S i) s' g else None
    | [] => None
    end
  | Cls p =>
    match s with
    | x :: s' => if p x then k (S i) s' g else None
    | [] => None
    end
  | Seq r1 r2 => bt r1 i s g (fun i' s' g' => bt r2 i' s' g' k)
  | Alt r1 r2 =>
    match bt r1 i s g k with
    | Some a => Some a
    | None => bt r2 i s g k
    end
  | Opt r1 =>
    match bt r1 i s g k with
    | Some a => Some a
    | None => k i s g
    end
  | Star p => star_bt p i s (fun i' s' => k i' s' g)
  | Plus p =>
    match s with
    | x :: s' => if p x then star_bt p (S i) s' (fun i' s' => k i' s' g) else None
    | [] => None
    end
  | Grp n r1 => bt r1 i s g (fun i' s' g' => k i' s' ((n, (i, i')) :: g'))
  end.
End Matcher.

(** A match object: [m.start()], [m.end()] and the group spans. *)
Record match_obj := { m_start : nat; m_end : nat; m_groups : groups }.

(** The match of [r] that starts exactly at index [i], where [s] is the
    text from [i] on. *)
Definition match_at (r : regex) (i : nat) (s : list N) : option match_obj :=
  bt r i s [] (fun e _ g => Some {| m_start := i; m_end := e; m_groups := g |}).

(** [re.match(pattern, s)] as a truth value *)
Definition re_match (r : regex) (s : list N) : bool :=
  match match_at r 0 s with Some _ => true | None => false end.

(** [m.group(n)], [None] when the group took no part *)
Definition group (content : list N) (m : match_obj) (n : nat) : option (list N) :=
  match group_span n (m_groups m) with
  | Some (a, b) => Some (slice content a b)
  | None => None
  end.

(** [re.finditer(pattern, content)]: the leftmost match from each search
    position, the search resuming at the end of the previous match.
    [skip] characters of [s] lie inside the previous match.  A match of
    length zero would resume one character further; the pattern this is
    used with starts with the literal [func] and has none. *)
Fixpoint finditer_from (r : regex) (i : nat) (skip : nat) (s : list N) : list match_obj :=
  match s with
  | [] => []
  | _ :: s' =>
    match skip with
    | S n => finditer_from r (S i) n s'
    | O =>
      match match_at r i s with
      | Some m => m :: finditer_from r (S i) (m_end m - i - 1) s'
      | None => finditer_from r (S i) 0 s'
      end
    end
  end.

Definition finditer (r : regex) (content : list N) : list match_obj :=
  finditer_from r 0 0 content.

(** Pattern combinators *)
Fixpoint lits (s : list N) : regex :=
  match s with
  | [] => Eps
  | [c] => Lit c
  | c :: s' => Seq (Lit c) (lits s')
  end.
Definition str (s : string) : regex := lits (py s).

Fixpoint seqs (rs : list regex) : regex :=
  match rs with
  | [] => Eps
  | [r] => r
  | r :: rs' => Seq r (seqs rs')
  end.

Fixpoint alts (rs : list regex) : regex :=
  match rs with
  | [] => Eps
  | [r] => r
  | r :: rs' => Alt r (alts rs')
  end.

(** [.] (no DOTALL flag): anything but a newline *)
Definition dot (c : N) : bool := negb (c =? nl).
(** [[^x]] *)
Definition not_chr (a : ascii) (c : N) : bool := negb (c =? chr a).
(** [[a-zA-Z_]] and [[a-zA-Z0-9_]] *)
Definition ident_start (c : N) : bool := is_lower c || is_upper c || (c =? chr "_").
Definition ident_char (c : N) : bool :=
  is_lower c || is_upper c || is_digit c || (c =? chr "_").

End Re.
Export Re.

(** ** Insertion-ordered dictionaries

    A Python [dict] keeps its keys in insertion order, and assigning to a key
    that is present replaces the value in place. *)

Module Dict.
Section Dict.
Context {V : Type}.

Definition dict := list (list N * V).

Fixpoint get (k : list N) (d : dict) : option V :=
  match d with
  | [] => None
  | (k', v) :: d' => if decide (k' = k) then Some v else get k d'
  end.

(** [d[k] = v] *)
Fixpoint set (k : list N) (v : V) (d : dict) : dict :=
  match d with
  | [] => [(k, v)]
  | (k', v') :: d' =>
    if decide (k' = k) then (k, v) :: d' else (k', v') :: set k v d'
  end.

(** The dictionary without the key [k] *)
Fixpoint del (k : list N) (d : dict) : dict :=
  match d with
  | [] => []
  | (k', v) :: d' =>
    if decide (k' = k) then del k d' else (k', v) :: del k d'
  end.

Definition keys (d : dict) : list (list N) := map fst d.
Definition values (d : dict) : list V := map snd d.
End Dict.
Arguments dict : clear implicits.
End Dict.

(** ** TelegramRefactorHelper: the parts without input or output *)

Module Helper.

(** An entry of [self.functions] *)
Record func_info := FuncInfo {
  receiver : list N;
  body : list N;
  category : list N
}.

(** [function_pattern], piece by piece. *)
Definition function_pattern : regex :=
  seqs [ str "func";                                    (* func *)
         Plus is_space;                                 (* \s+ *)
         Opt (Grp 1 (seqs [Lit (chr "(");               (* ( \( *)
                           Star (not_chr ")");          (*   [^)]* *)
                           Lit (chr ")")]));            (*   \) )? *)
         Star is_space;                                 (* \s* *)
         Grp 2 (Seq (Cls ident_start)                   (* ( [a-zA-Z_] *)
                    (Star ident_char));                 (*   [a-zA-Z0-9_]* ) *)
         Star is_space;                                 (* \s* *)
         Lit (chr "(");                                 (* \( *)
         Star (not_chr ")");                            (* [^)]* *)
         Lit (chr ")");                                 (* \) *)
         Opt (Grp 3 (Star (not_chr "{")));              (* ( [^{]* )? *)
         Lit (chr "{") ].                               (* { *)

(** The [categories] table of [_categorize_function], in its order. *)
Definition categories : list (list N * list regex) :=
  [ (py "command",
      [ seqs [str "handle"; Star dot; str "Command"];
        Seq (str "handle")
            (Grp 1 (alts [str "Start"; str "Help"; str "Download"; str "List";
                          str "Cancel"; str "Tasks"; str "AddTask";
                          str "QuickTask"; str "DelTask"; str "RunTask"])) ]);
    (py "callback",
      [ seqs [str "handle"; Star dot; str "Callback"];
        seqs [str "handle"; Star dot; str "WithEdit"];
        str "handleCallbackQuery" ]);
    (py "render",
      [ Seq (str "render") (Star dot);
        seqs [str "get"; Star dot; str "Keyboard"];
        seqs [str "get"; Star dot; str "Menu"] ]);
    (py "util",
      [ Seq (str "format") (Star dot); Seq (str "escape") (Star dot);
        Seq (str "split") (Star dot); Seq (str "encode") (Star dot);
        Seq (str "decode") (Star dot) ]);
    (py "message",
      [ Seq (str "send") (Star dot); Seq (str "edit") (Star dot);
        Seq (str "answer") (Star dot) ]);
    (py "file",
      [ Seq (str "handleFile") (Star dot); Seq (str "handleBrowse") (Star dot);
        Seq (str "handleDownloadFile") (Star dot) ]);
    (py "task",
      [ Seq (str "handleTask") (Star dot); Seq (str "handleQuick") (Star dot);
        Seq (str "handleAdd") (Star dot); Seq (str "handleDel") (Star dot);
        Seq (str "handleRun") (Star dot) ]);
    (py "system",
      [ Seq (str "handleSystem") (Star dot); Seq (str "handleHealth") (Star dot);
        Seq (str "handleAlist") (Star dot) ]);
    (py "manual",
      [ Seq (str "handleManual") (Star dot); Seq (str "parseTime") (Star dot);
        Seq (str "callManual") (Star dot) ]) ].

(** The two nested loops of [_categorize_function] over a table: the first
    category one of whose patterns matches, ['other'] when the table is
    exhausted. *)
Fixpoint categorize_in (cats : list (list N * list regex)) (name : list N) : list N :=
  match cats with
  | [] => py "other"
  | (category, patterns) :: rest =>
    if existsb (fun pattern => re_match pattern name) patterns
    then category
    else categorize_in rest name
  end.

Definition _categorize_function (name : list N) : list N :=
  categorize_in categories name.

(** The brace scan of [_extract_functions]: [s] is [content] from index
    [pos] on.  Returns [pos] and [brace_count] as they are when the
    [while] loop is left. *)
Fixpoint brace_scan (s : list N) (pos : nat) (brace_count : Z) : nat * Z :=
  match s with
  | [] => (pos, brace_count)
  | c :: s' =>
    if c =? chr "{" then brace_scan s' (S pos) (brace_count + 1)%Z
    else if c =? chr "}" then
      if (brace_count - 1 =? 0)%Z then (pos, (brace_count - 1)%Z)
      else brace_scan s' (S pos) (brace_count - 1)%Z
    else brace_scan s' (S pos) brace_count
  end.

(** The body of the [for match in matches] loop, in two parts: the key
    and the entry it stores when the scan ended with [brace_count == 0],
    and the assignment to [self.functions]. *)
Definition extract_entry (content : list N) (m : match_obj)
    : option (list N * func_info) :=
  let receiver := default [] (group content m 1) in
  let name := default [] (group content m 2) in
  let start_pos := m_start m in
  let '(pos, brace_count) := brace_scan (drop (m_end m - 1) content) (m_end m - 1) 0 in
  if (brace_count =? 0)%Z then
    let function_body := slice content start_pos (pos + 1) in
    Some (name, {| receiver := strip receiver;
                   body := function_body;
                   category := _categorize_function name |})
  else None.

Definition extract_step (content : list N) (functions : Dict.dict func_info)
    (m : match_obj) : Dict.dict func_info :=
  match extract_entry content m with
  | Some (name, entry) => Dict.set name entry functions
  | None => functions
  end.

(** [_extract_functions]: the loop runs on [self.functions], which is
    empty when [analyze_source_file], the only caller, runs after
    [__init__]. *)
Definition extract_into (functions : Dict.dict func_info) (content : list N)
    : Dict.dict func_info :=
  fold_left (extract_step content) (finditer function_pattern content) functions.

Definition _extract_functions (content : list N) : Dict.dict func_info :=
  extract_into [] content.

(** The destination chosen by the [if]/[elif] chain of [_get_file_mapping]
    for one function, when there is one. *)
Definition route (func_name category : list N) : option (list N) :=
  let l := lower func_name in
  if decide (category = py "command") then
    if contains (py "download") l then Some (py "commands/download.go")
    else if any_in [py "file"; py "browse"; py "list"] l then Some (py "commands/file.go")
    else if any_in [py "task"; py "quick"; py "add"; py "del"; py "run"] l
      then Some (py "commands/task.go")
    else if any_in [py "system"; py "health"; py "alist"] l then Some (py "commands/system.go")
    else if any_in [py "start"; py "help"] l then Some (py "commands/help.go")
    else Some (py "commands/base.go")
  else if decide (category = py "callback") then
    if contains (py "menu") l then Some (py "callbacks/menu.go")
    else if contains (py "file") l then Some (py "callbacks/file_ops.go")
    else if contains (py "download") l then Some (py "callbacks/download_ops.go")
    else if contains (py "preview") l || contains (py "manual") l
      then Some (py "callbacks/preview.go")
    else Some (py "callbacks/base.go")
  else if decide (category = py "util") then
    if any_in [py "format"; py "escape"; py "split"] l then Some (py "utils/formatter.go")
    else if any_in [py "send"; py "edit"; py "answer"] l then Some (py "utils/message_sender.go")
    else if any_in [py "encode"; py "decode"; py "path"] l then Some (py "utils/encoder.go")
    else if any_in [py "parse"; py "valid"] l then Some (py "utils/validator.go")
    else None
  else None.

(** The initial [mapping] of [_get_file_mapping]. *)
Definition empty_mapping : Dict.dict (list (list N)) :=
  map (fun p => (py p, []))
    [ "commands/base.go"; "commands/download.go"; "commands/file.go";
      "commands/task.go"; "commands/system.go"; "commands/help.go";
      "callbacks/base.go"; "callbacks/menu.go"; "callbacks/file_ops.go";
      "callbacks/download_ops.go"; "callbacks/preview.go";
      "utils/formatter.go"; "utils/message_sender.go"; "utils/validator.go";
      "utils/encoder.go" ]%string.

(** [mapping[path].append(func_name)]; every [path] of [route] is a key of
    [empty_mapping] (see [route_key]), so no [KeyError] arises. *)
Fixpoint mapping_append (path func_name : list N) (mapping : Dict.dict (list (list N)))
    : Dict.dict (list (list N)) :=
  match mapping with
  | [] => []
  | (p, names) :: rest =>
    if decide (p = path) then (p, names ++ [func_name]) :: rest
    else (p, names) :: mapping_append path func_name rest
  end.

Definition mapping_step (mapping : Dict.dict (list (list N)))
    (item : list N * func_info) : Dict.dict (list (list N)) :=
  let '(func_name, func_info) := item in
  match route func_name (category func_info) with
  | Some path => mapping_append path func_name mapping
  | None => mapping
  end.

Definition _get_file_mapping (functions : Dict.dict func_info)
    : Dict.dict (list (list N)) :=
  fold_left mapping_step functions empty_mapping.

(** The text [_generate_file] writes: the header, then one block per name
    that is a key of [self.functions]. *)
Definition file_header (source_file package_name : list N) : list N :=
  py "package " ++ package_name ++ [nl; nl]
  ++ py "// 此文件由重构脚本自动生成" ++ [nl]
  ++ py "// 源文件: " ++ source_file ++ [nl; nl]
  ++ py "import (" ++ [nl; tab]
  ++ py "// TODO: 添加必要的导入" ++ [nl]
  ++ py ")" ++ [nl; nl].

Definition file_block (func_name : list N) (func_info : func_info) : list N :=
  (py "// " ++ func_name ++ py " - 从原文件迁移" ++ [nl])
  ++ (body func_info ++ [nl; nl]).

Definition file_content (source_file : list N) (functions : Dict.dict func_info)
    (relative_path : list N) (function_names : list (list N)) : list N :=
  let package_name := split_head (chr "/") relative_path in
  fold_left
    (fun content func_name =>
       match Dict.get func_name functions with
       | Some func_info => content ++ file_block func_name func_info
       | None => content
       end)
    function_names (file_header source_file package_name).

(** The counting loop of [generate_summary_report] and the lines of the
    per-category table. *)
Definition count_categories (functions : Dict.dict func_info) : Dict.dict nat :=
  fold_left
    (fun categories func_info =>
       Dict.set (category func_info)
                (default 0%nat (Dict.get (category func_info) categories) + 1)%nat
                categories)
    (Dict.values functions) [].

End Helper.
Export Helper.

(** ** Files, standard output and exceptions *)

Module IO.

(** The part of the machine the script touches.  A path is the string the
    script hands to the system: the argument as it is for the source file,
    [str(path)] for a [Path] (see [path_join]).  [files] maps the path of a
    regular file to the text [open(path).read()] returns, [dirs] holds the
    paths of the directories, and [stdout] lists the arguments of the
    [print] calls, oldest first. *)
Record world := World {
  files : gmap (list N) (list N);
  dirs : gset (list N);
  stdout : list (list N)
}.

(** [OSError(errno, strerror, filename)] *)
Inductive exn := OSError (errno : nat) (strerror : list N) (filename : list N).

(** [repr(s)] for a [str]: single quotes, or double quotes when [s] has a
    single quote and no double quote; the backslash, the quote in use, tab,
    newline, carriage return and the other control characters of ASCII
    are escaped.  A character above 127 is kept as it is, which is what
    Python does for the ones its tables call printable. *)
Definition hex_digit (n : N) : N := if n <? 10 then 48 + n else 87 + n.

Definition repr_char (quote c : N) : list N :=
  if c =? 92 then [92; 92]                          (* backslash *)
  else if c =? quote then [92; quote]
  else if c =? 9 then [92; chr "t"]
  else if c =? 10 then [92; chr "n"]
  else if c =? 13 then [92; chr "r"]
  else if (c <? 32) || (c =? 127)
    then [92; chr "x"; hex_digit (c / 16); hex_digit (c mod 16)]
  else [c].

Definition py_repr (s : list N) : list N :=
  let quote :=
    if existsb (fun c => c =? 39) s && negb (existsb (fun c => c =? 34) s)
    then 34 else 39 in         (* the double quote, else the single one *)
  [quote] ++ concat (map (repr_char quote) s) ++ [quote].

(** [str(e)]: the file name is formatted with [repr]. *)
Definition exn_str (e : exn) : list N :=
  let 'OSError errno strerror filename := e in
  py "[Errno " ++ str_of_nat errno ++ py "] " ++ strerror
  ++ py ": " ++ py_repr filename.

(** How a computation ends: normally, by an exception, or by
    [sys.exit(code)], which [except Exception] does not catch. *)
Inductive outcome (A : Type) :=
| Ret (a : A)
| Raise (e : exn)
| Exit (code : Z).
Arguments Ret {A} a.
Arguments Raise {A} e.
Arguments Exit {A} code.

Definition M (A : Type) : Type := world -> outcome A * world.

#[global] Instance M_ret : MRet M := fun A a w => (Ret a, w).
#[global] Instance M_bind : MBind M := fun A B f m w =>
  match m w with
  | (Ret a, w') => f a w'
  | (Raise e, w') => (Raise e, w')
  | (Exit c, w') => (Exit c, w')
  end.

Definition raise {A} (e : exn) : M A := fun w => (Raise e, w).
Definition sys_exit {A} (code : Z) : M A := fun w => (Exit code, w).

(** [try: m  except Exception as e: h e] *)
Definition try_except {A} (m : M A) (h : exn -> M A) : M A := fun w =>
  match m w with
  | (Raise e, w') => h e w'
  | r => r
  end.

Definition print (line : list N) : M unit := fun w =>
  (Ret tt, {| files := files w; dirs := dirs w; stdout := stdout w ++ [line] |}).

(** [s.split(sep)] *)
Fixpoint split_on (sep : N) (s : list N) : list (list N) :=
  match s with
  | [] => [[]]
  | c :: s' =>
    if c =? sep then [] :: split_on sep s'
    else match split_on sep s' with
         | part :: parts => (c :: part) :: parts
         | [] => [[c]]
         end
  end.

Fixpoint leading_slashes (s : list N) : nat :=
  match s with
  | c :: s' => if c =? chr "/" then S (leading_slashes s') else O
  | [] => O
  end.

(** [Path(s)] on a POSIX system: the root is [/] for a path that starts
    with slashes, [//] when they are exactly two; the parts are the pieces
    between slashes, without the empty ones and the ones that are [.]
    ([..] stays). *)
Definition path_root (s : list N) : list N :=
  match leading_slashes s with
  | O => []
  | 2%nat => [chr "/"; chr "/"]
  | _ => [chr "/"]
  end.

Definition path_parts (s : list N) : list (list N) :=
  filter (fun part => part ≠ [] ∧ part ≠ [chr "."]) (split_on (chr "/") s).

Fixpoint join_slash (parts : list (list N)) : list N :=
  match parts with
  | [] => []
  | [part] => part
  | part :: parts' => part ++ chr "/" :: join_slash parts'
  end.

(** What [str(Path(d) / name)] puts before [name]: nothing when [Path(d)]
    is the current directory, the root when there are no parts, the path
    and a slash otherwise. *)
Definition path_prefix (d : list N) : list N :=
  match path_parts d with
  | [] => path_root d
  | parts => path_root d ++ join_slash parts ++ [chr "/"]
  end.

(** [str(Path(d) / name)] for a relative [name] in normal form, as the
    names the script joins are: [Path("out/") / "core"] is [out/core],
    [Path(".") / "core"] and [Path("") / "core"] are [core]. *)
Definition path_join (d name : list N) : list N := path_prefix d ++ name.

(** The directories above [path]: the text before each slash of [path],
    when it is more than slashes. *)
Definition ancestors (path : list N) : list (list N) :=
  omap (fun i =>
          if bool_decide (path !! i = Some (chr "/"))
             && negb (forallb (fun c => c =? chr "/") (take i path))
          then Some (take i path) else None)
       (seq 0 (length path)).

Definition exists_in (w : world) (path : list N) : bool :=
  bool_decide (is_Some (files w !! path)) || bool_decide (path ∈ dirs w).

(** [os.path.exists(path)], [Path.exists()] *)
Definition path_exists (path : list N) : M bool := fun w => (Ret (exists_in w path), w).

(** [open(path, 'r').read()] *)
Definition read_text (path : list N) : M (list N) := fun w =>
  match files w !! path with
  | Some text => (Ret text, w)
  | None =>
    if bool_decide (path ∈ dirs w)
    then (Raise (OSError 21 (py "Is a directory") path), w)
    else (Raise (OSError 2 (py "No such file or directory") path), w)
  end.

(** [open(path, 'w').write(text)]: creates or overwrites the file.  The
    script writes into directories it has made just before, so the failure
    for a missing directory is not modelled. *)
Definition write_text (path text : list N) : M unit := fun w =>
  if bool_decide (path ∈ dirs w)
  then (Raise (OSError 21 (py "Is a directory") path), w)
  else (Ret tt, {| files := <[path := text]> (files w); dirs := dirs w; stdout := stdout w |}).

(** [path.mkdir(parents=True, exist_ok=True)]: fails when a directory above
    [path] is a regular file, or [path] itself is; makes the directories
    above [path] that are missing, then [path]; a directory that is there
    is no error. *)
Definition mkdir (path : list N) : M unit := fun w =>
  if existsb (fun a => bool_decide (is_Some (files w !! a))) (ancestors path)
  then (Raise (OSError 20 (py "Not a directory") path), w)
  else if bool_decide (is_Some (files w !! path))
  then (Raise (OSError 17 (py "File exists") path), w)
  else (Ret tt, {| files := files w;
                   dirs := list_to_set (path :: ancestors path) ∪ dirs w;
                   stdout := stdout w |}).

(** [for x in l: f x] *)
Fixpoint for_each {A} (l : list A) (f : A -> M unit) : M unit :=
  match l with
  | [] => mret tt
  | x :: l' => f x ;; for_each l' f
  end.

(** Order of [str] values: by code points, a proper prefix first. *)
Fixpoint str_leb (a b : list N) : bool :=
  match a, b with
  | [], _ => true
  | _ :: _, [] => false
  | x :: a', y :: b' =>
    if x <? y then true else if y <? x then false else str_leb a' b'
  end.

(** [sorted(l)] where the items are ordered by a string key (a stable
    insertion sort). *)
Section Sorted.
Context {A : Type} (key : A -> list N).
Fixpoint insert_sorted (x : A) (l : list A) : list A :=
  match l with
  | [] => [x]
  | y :: l' => if str_leb (key x) (key y) then x :: y :: l' else y :: insert_sorted x l'
  end.
Fixpoint sorted_on (l : list A) : list A :=
  match l with
  | [] => []
  | x :: l' => insert_sorted x (sorted_on l')
  end.
End Sorted.

Definition endswith (suffix s : list N) : bool := startswith (rev suffix) (rev s).

(** The names of [sorted(dir_path.glob("*.go"))]: the entries directly in
    the directory whose name ends in [.go]. *)
Definition glob_go (w : world) (dir_path : list N) : list (list N) :=
  let entries := (map fst (map_to_list (files w))) ++ elements (dirs w) in
  let names := omap (strip_prefix (dir_path ++ [chr "/"])) entries in
  sorted_on id
    (filter (fun name => contains [chr "/"] name = false ∧ endswith (py ".go") name = true)
            names).

End IO.
Export IO.

(** ** The methods that read and write, and [main] *)

Module Script.
Import Helper.

Section WithWordClass.

(** The class [\w] of a [str] pattern: the underscore and what Python's
    Unicode tables call alphanumeric.  Only [_extract_constants] uses it. *)
Variable word_char : N -> bool.

(** The fields of [self] (the field [types] is never assigned). *)
Record helper := Helper {
  source_file : list N;
  target_dir : list N;
  functions : Dict.dict func_info;
  constants : Dict.dict (list N)
}.

(** [__init__] *)
Definition init (source_file target_dir : list N) : helper :=
  {| source_file := source_file; target_dir := target_dir;
     functions := []; constants := [] |}.

(** [const_pattern], piece by piece. *)
Definition const_pattern : regex :=
  seqs [ str "const";                                 (* const *)
         Plus is_space;                               (* \s+ *)
         Grp 1 (Plus word_char);                      (* (\w+) *)
         Star is_space;                               (* \s* *)
         Lit (chr "=");                               (* = *)
         Star is_space;                               (* \s* *)
         Grp 2 (Plus (fun c => negb (c =? chr "/") && negb (c =? nl))) ].
                                                      (* ([^/\n]+) *)

(** [_extract_constants] *)
Definition _extract_constants (constants : Dict.dict (list N)) (content : list N)
    : Dict.dict (list N) :=
  fold_left
    (fun constants m =>
       let name := default [] (group content m 1) in
       let value := default [] (group content m 2) in
       Dict.set name (strip value) constants)
    (finditer const_pattern content) constants.

(** [analyze_source_file]; [_extract_types] only finds matches and
    passes over them. *)
Definition analyze_source_file (self : helper) : M helper :=
  print (py "📖 分析源文件: " ++ source_file self) ;;
  content ← read_text (source_file self) ;
  let functions := extract_into (functions self) content in
  let constants := _extract_constants (constants self) content in
  print (py "✅ 分析完成: 找到 " ++ str_of_nat (length functions) ++ py " 个函数") ;;
  mret {| source_file := source_file self; target_dir := target_dir self;
          functions := functions; constants := constants |}.

(** [_generate_file] *)
Definition _generate_file (self : helper) (relative_path : list N)
    (function_names : list (list N)) : M unit :=
  match function_names with
  | [] => mret tt
  | _ :: _ =>
    let file_path := path_join (target_dir self) relative_path in
    print (py "   📄 生成文件: " ++ file_path) ;;
    write_text file_path
      (file_content (source_file self) (functions self) relative_path function_names)
  end.

Definition directories : list (list N) :=
  map py [ "interfaces"; "core"; "commands"; "callbacks";
           "renderers"; "utils"; "config"; "types" ]%string.

(** [generate_file_structure] *)
Definition generate_file_structure (self : helper) : M unit :=
  print (py "🏗️  生成新的文件结构...") ;;
  for_each directories (fun dir_name =>
    let dir_path := path_join (target_dir self) dir_name in
    mkdir dir_path ;;
    print (py "   📁 创建目录: " ++ dir_path)) ;;
  let file_mapping := _get_file_mapping (functions self) in
  for_each file_mapping (fun '(file_path, functions) =>
    _generate_file self file_path functions).

(** The per-category lines of the report. *)
Definition category_lines (functions : Dict.dict func_info) : list N :=
  fold_left
    (fun content '(category, count) =>
       content ++ py "- " ++ category ++ py ": " ++ str_of_nat count
               ++ py " 个函数" ++ [nl])
    (sorted_on fst (count_categories functions)) [].

(** The directory tree of the report, read from the file system. *)
Definition tree_lines (w : world) (target_dir : list N) : list N :=
  fold_left
    (fun content dir_name =>
       let content := content ++ py "├── " ++ dir_name ++ py "/" ++ [nl] in
       let dir_path := path_join target_dir dir_name in
       if exists_in w dir_path then
         fold_left
           (fun content name => content ++ py "│   ├── " ++ name ++ [nl])
           (glob_go w dir_path) content
       else content)
    directories [].

Definition report_tail : list N :=
  py "## 下一步行动" ++ [nl]
  ++ [nl]
  ++ py "1. ✅ 已完成结构化提取" ++ [nl]
  ++ py "2. 🔄 需要手动调整导入依赖" ++ [nl]
  ++ py "3. 🔄 需要实现接口定义" ++ [nl]
  ++ py "4. 🔄 需要编写单元测试" ++ [nl]
  ++ py "5. 🔄 需要集成测试验证" ++ [nl]
  ++ [nl]
  ++ py "## 注意事项" ++ [nl]
  ++ [nl]
  ++ py "- 生成的文件需要手动调整导入语句" ++ [nl]
  ++ py "- 函数间的依赖关系需要重新整理" ++ [nl]
  ++ py "- 建议逐步迁移，保持原文件作为备份" ++ [nl].

(** The text of the report, with the file system as it is when the
    report is built. *)
Definition report_content (self : helper) (w : world) : list N :=
  let content :=
    py "# Telegram Handler 重构摘要" ++ [nl; nl]
    ++ py "## 原始文件分析" ++ [nl]
    ++ py "- 源文件: `" ++ source_file self ++ py "`" ++ [nl]
    ++ py "- 函数总数: " ++ str_of_nat (length (functions self)) ++ [nl]
    ++ py "- 常量总数: " ++ str_of_nat (length (constants self)) ++ [nl; nl]
    ++ py "## 函数分类统计" ++ [nl] in
  let content := content ++ category_lines (functions self) in
  let content := content ++ [nl] ++ py "## 重构后文件结构" ++ [nl; nl] in
  let content := content ++ py "```" ++ [nl] in
  let content := content ++ py "telegram/" ++ [nl] in
  let content := content ++ tree_lines w (target_dir self) in
  let content := content ++ py "```" ++ [nl; nl] in
  content ++ report_tail.

(** [generate_summary_report] *)
Definition generate_summary_report (self : helper) : M unit :=
  let report_path := path_join (target_dir self) (py "REFACTORING_SUMMARY.md") in
  print (py "📊 生成重构报告: " ++ report_path) ;;
  ((fun w => write_text report_path (report_content self w) w) : M unit).

(** The [try] block of [main]. *)
Definition pipeline (self : helper) : M unit :=
  self ← analyze_source_file self ;
  print [] ;;
  generate_file_structure self ;;
  print [] ;;
  generate_summary_report self ;;
  print [] ;;
  print (py "✅ 重构助手执行完成!") ;;
  print [] ;;
  print (py "📋 下一步:") ;;
  print (py "1. 检查生成的文件并调整导入语句") ;;
  print (py "2. 实现接口定义") ;;
  print (py "3. 编写单元测试") ;;
  print (py "4. 逐步替换原有实现") ;;
  print (py "5. 运行集成测试验证功能").

(** [main], with [argv] for [sys.argv]. *)
Definition main (argv : list (list N)) : M unit :=
  if negb (length argv =? 3)%nat then
    print (py "用法: python3 refactor_telegram.py <源文件路径> <目标目录>") ;;
    print (py "示例: python3 refactor_telegram.py internal/api/handlers/telegram.go internal/api/handlers/telegram/") ;;
    sys_exit 1
  else
    let source_file := default [] (argv !! 1%nat) in
    let target_dir := default [] (argv !! 2%nat) in
    found ← path_exists source_file ;
    if negb found then
      print (py "❌ 源文件不存在: " ++ source_file) ;;
      sys_exit 1
    else
      print (py "🚀 开始Telegram Handler重构...") ;;
      print (py "📁 源文件: " ++ source_file) ;;
      print (py "📁 目标目录: " ++ target_dir) ;;
      print [] ;;
      let helper := init source_file target_dir in
      try_except (pipeline helper)
        (fun e =>
           print (py "❌ 执行过程中发生错误: " ++ exn_str e) ;;
           sys_exit 1).

(** The exit status of the process that runs [main] under
    [if __name__ == "__main__"]: 0 when [main] returns, the argument of
    [sys.exit], 1 for an exception nobody caught. *)
Definition exit_code (r : outcome unit) : Z :=
  match r with
  | Ret _ => 0
  | Raise _ => 1
  | Exit code => code
  end.

Definition run (argv : list (list N)) (w : world) : Z * world :=
  let '(r, w') := main argv w in (exit_code r, w').

End WithWordClass.

End Script.
Export Script.

(** ** Notions the statements use *)

(** The words a pattern denotes, without regard to the order in which
    [bt] tries them. *)
Fixpoint lang (r : regex) (w : list N) : Prop :=
  match r with
  | Eps => w = []
  | Lit c => w = [c]
  | Cls p => ∃ c, w = [c] ∧ p c = true
  | Seq r1 r2 => ∃ w1 w2, w = w1 ++ w2 ∧ lang r1 w1 ∧ lang r2 w2
  | Alt r1 r2 => lang r1 w ∨ lang r2 w
  | Opt r1 => w = [] ∨ lang r1 w
  | Star p => forallb p w = true
  | Plus p => w ≠ [] ∧ forallb p w = true
  | Grp _ r1 => lang r1 w
  end.

(** Text in which every opening brace has its closing brace. *)
Inductive balanced : list N -> Prop :=
| balanced_nil : balanced []
| balanced_other c s :
    c ≠ chr "{" -> c ≠ chr "}" -> balanced s -> balanced (c :: s)
| balanced_block s t :
    balanced s -> balanced t -> balanced (chr "{" :: s ++ chr "}" :: t).

(** [re.match(p, name)] looks for a word of [p] at the start of [name]; the
    rest of [name] is free. *)
Definition prefix_matches (p : regex) (name : list N) : Prop :=
  ∃ w rest, name = w ++ rest ∧ lang p w.

(** No pattern of the rule matches. *)
Definition rule_silent (name : list N) (rule : list N * list regex) : Prop :=
  Forall (fun p => ¬ prefix_matches p name) (snd rule).

(** The closed set of category labels. *)
Definition category_set : list (list N) :=
  map py [ "command"; "callback"; "render"; "util"; "message"; "file";
           "task"; "system"; "manual"; "other" ]%string.

(** The names the routing sends to [path], in the order of the store. *)
Definition routed_to (path : list N) (functions : Dict.dict func_info)
    : list (list N) :=
  omap (fun '(func_name, func_info) =>
          if decide (route func_name (category func_info) = Some path)
          then Some func_name else None)
       functions.

(** The categories for which [_get_file_mapping] has a branch. *)
Definition routed_categories : list (list N) :=
  [py "command"; py "callback"; py "util"].

(** What [_generate_file] adds for one name of its list. *)
Definition block_of (functions : Dict.dict func_info) (func_name : list N) : list N :=
  match Dict.get func_name functions with
  | Some func_info => file_block func_name func_info
  | None => []
  end.

Definition util_prefixes : list (list N) :=
  [py "format"; py "escape"; py "split"; py "encode"; py "decode"].

Definition same_fs (w w' : world) : Prop :=
  files w' = files w ∧ dirs w' = dirs w.

(** The files after the loop of [generate_file_structure] over [mapping],
    when nothing fails. *)
Definition gen_files (self : helper) (mapping : Dict.dict (list (list N)))
    (F : gmap (list N) (list N)) : gmap (list N) (list N) :=
  fold_left
    (fun F '(p, names) =>
       match names with
       | [] => F
       | _ :: _ =>
         <[path_join (target_dir self) p :=
             file_content (source_file self) (functions self) p names]> F
       end)
    mapping F.

Definition report_path (target_dir : list N) : list N :=
  path_join target_dir (py "REFACTORING_SUMMARY.md").

(** The loop that creates the directories. *)
Definition mkdir_body (target : list N) (dir_name : list N) : M unit :=
  let dir_path := path_join target dir_name in
  mkdir dir_path ;;
  print (py "   📁 创建目录: " ++ dir_path).

(** The loop that writes the files. *)
Definition generate_body (self : helper) (item : list N * list (list N)) : M unit :=
  let '(file_path, functions) := item in _generate_file self file_path functions.

(** [self] after [analyze_source_file] has read [content]. *)
Definition analyzed (word_char : N -> bool)
    (source_file target_dir content : list N) : helper :=
  {| source_file := source_file; target_dir := target_dir;
     functions := _extract_functions content;
     constants := _extract_constants word_char [] content |}.

(** The directories the loop over [ds] makes: each with the directories
    above it. *)
Definition made_dirs (target_dir : list N) (ds : list (list N)) : list (list N) :=
  ds ≫= (fun d => path_join target_dir d :: ancestors (path_join target_dir d)).

(** The directories after the first loop of [generate_file_structure]. *)
Definition dirs_after (target_dir : list N) (w : world) : gset (list N) :=
  list_to_set (made_dirs target_dir directories) ∪ dirs w.

(** What a run needs of the file system to get through. *)
Definition run_conditions (source_file target_dir content : list N) (w : world) : Prop :=
  files w !! source_file = Some content
  ∧ (∀ q, q ∈ made_dirs target_dir directories -> files w !! q = None)
  ∧ (∀ p names, (p, names) ∈ _get_file_mapping (_extract_functions content) ->
                names ≠ [] -> path_join target_dir p ∉ dirs_after target_dir w)
  ∧ (report_path target_dir ∉ dirs_after target_dir w).

(** Only [main] calls [sys.exit]. *)
Definition no_exit {A} (m : M A) : Prop :=
  ∀ w c w', m w ≠ (Exit c, w').

(** [m] leaves the content of every path outside [Q] as it was, however
    it ends. *)
Definition writes_only {A} (Q : list N -> Prop) (m : M A) : Prop :=
  ∀ w q, ¬ Q q -> files (m w).2 !! q = files w !! q.

(** The destinations with a list that is not empty. *)
Definition written_paths (target_dir : list N) (functions : Dict.dict func_info)
    (q : list N) : Prop :=
  ∃ p names, (p, names) ∈ _get_file_mapping functions ∧ names ≠ []
             ∧ q = path_join target_dir p.

(** Whatever the source text is, a run writes the report and files of
    destinations with a list that is not empty, nothing else. *)
Definition run_paths (target_dir : list N) (q : list N) : Prop :=
  q = report_path target_dir
  ∨ ∃ content, written_paths target_dir (_extract_functions content) q.

(** [w] after the [print] calls of [lines]. *)
Definition printed (lines : list (list N)) (w : world) : world :=
  {| files := files w; dirs := dirs w; stdout := stdout w ++ lines |}.

Definition usage_lines : list (list N) :=
  [ py "用法: python3 refactor_telegram.py <源文件路径> <目标目录>";
    py "示例: python3 refactor_telegram.py internal/api/handlers/telegram.go internal/api/handlers/telegram/" ].

Definition banner_lines (source_file target_dir : list N) : list (list N) :=
  [ py "🚀 开始Telegram Handler重构...";
    py "📁 源文件: " ++ source_file;
    py "📁 目标目录: " ++ target_dir;
    [] ].

Definition two_functions : list N :=
  py "func handleDownloadCommand() {...}" ++ [nl]
  ++ py "func formatMessage() {...}".

Definition two_functions_world : world :=
  {| files := {[ py "telegram.go" := two_functions ]}; dirs := ∅; stdout := [] |}.

Definition two_functions_argv : list (list N) :=
  [py "refactor_telegram.py"; py "telegram.go"; py "out"].

(** What the scan of a located header returns. *)
Definition header_scan (content : list N) (m : match_obj) : nat * Z :=
  brace_scan (drop (m_end m - 1) content) (m_end m - 1) 0.

(** [depth_ok s d]: scanning [s] from depth [d], the depth never goes
    below zero and ends at zero. *)
Fixpoint depth_ok (s : list N) (d : nat) : bool :=
  match s with
  | [] => Nat.eqb d 0
  | c :: s' =>
    if c =? chr "{" then depth_ok s' (S d)
    else if c =? chr "}" then
      match d with
      | O => false
      | S d' => depth_ok s' d'
      end
    else depth_ok s' d
  end.

(** Balanced text with [d] closing braces left over. *)
Fixpoint closes (d : nat) (s : list N) : Prop :=
  match d with
  | O => balanced s
  | S d' => ∃ b r, s = b ++ chr "}" :: r ∧ balanced b ∧ closes d' r
  end.

Definition demo_nested : list N :=
  py "package telegram" ++ [nl; nl]
  ++ py "func (h *Handler) handleStartCommand(chatID int64) error {"
  ++ [nl] ++ py "  if chatID == 0 { return nil }" ++ [nl] ++ py "}" ++ [nl].

Definition demo_nested_match : match_obj :=
  nth 0 (finditer function_pattern demo_nested) {| m_start := 0; m_end := 0; m_groups := [] |}.

(** A result type with braces, and type parameters. *)
Definition demo_result_braces : list N := py "func f() interface{} { return nil }".

Definition demo_type_parameters : list N := py "func Map[T any](xs []T) { }".

(** A routed function that encloses the text of another definition, in a
    comment. *)
Definition demo_enclosed : list N :=
  py "func handleStartCommand() {" ++ [nl]
  ++ py "// func renderMenu() { }" ++ [nl] ++ py "}".

Definition demo_enclosed_world : world :=
  {| files := {[ py "telegram.go" := demo_enclosed ]}; dirs := ∅; stdout := [] |}.

(** Two definitions of [f], the second with an opening brace in a rune
    literal. *)
Definition demo_twice_rune : list N :=
  py "func f() { first }" ++ [nl] ++ py "func f() { r := '{' }".

Definition demo_render : list N :=
  py "func renderMenu() { }" ++ [nl] ++ py "func handleStartCommand() { }".

Definition demo_twice : list N :=
  py "func f() { first }" ++ [nl] ++ py "func f() { second }".

Definition demo_twice_match (i : nat) : match_obj :=
  nth i (finditer function_pattern demo_twice) {| m_start := 0; m_end := 0; m_groups := [] |}.

Definition demo_twice_entry : func_info :=
  {| receiver := []; body := py "func f() { second }"; category := py "other" |}.



Definition two_functions_after : world :=
  (run ident_char two_functions_argv two_functions_world).2.

(** Every group of [r] with number [n] encloses a pattern whose words
    satisfy [Q n]. *)
Fixpoint groups_sound (Q : nat -> list N -> Prop) (r : regex) : Prop :=
  match r with
  | Grp n r1 => (∀ w, lang r1 w -> Q n w) ∧ groups_sound Q r1
  | Seq r1 r2 | Alt r1 r2 => groups_sound Q r1 ∧ groups_sound Q r2
  | Opt r1 => groups_sound Q r1
  | _ => True
  end.

(** The spans of [g] cut words of [text] that satisfy [Q]. *)
Definition spans_good (text : list N) (Q : nat -> list N -> Prop) (g : groups) : Prop :=
  Forall (fun e => Q e.1 (slice text e.2.1 e.2.2)) g.






(** What the groups of [function_pattern] hold: group 1 a parenthesised
    text without closing parenthesis inside, group 2 an identifier. *)
Definition function_groups (n : nat) (w : list N) : Prop :=
  match n with
  | 1%nat => ∃ r, w = chr "(" :: r ++ [chr ")"] ∧ forallb (not_chr ")") r = true
  | 2%nat => ∃ c rest, w = c :: rest ∧ ident_start c = true ∧ forallb ident_char rest = true
  | _ => True
  end.

(** Every match of [r] gives group [n] a span. *)
Fixpoint always_sets (n : nat) (r : regex) : bool :=
  match r with
  | Grp k r1 => Nat.eqb k n || always_sets n r1
  | Seq r1 r2 => always_sets n r1 || always_sets n r2
  | Alt r1 r2 => always_sets n r1 && always_sets n r2
  | _ => false
  end.

(** The number of functions of the store with category [c]. *)
Definition count_of (c : list N) (functions : Dict.dict func_info) : nat :=
  length (filter (fun item => category item.2 = c) functions).

(** A line of the table of the report. *)
Definition report_line (item : list N * nat) : list N :=
  py "- " ++ item.1 ++ py ": " ++ str_of_nat item.2 ++ py " 个函数" ++ [nl].

(** The step of the counting loop of [generate_summary_report]. *)
Definition count_step (categories : Dict.dict nat) (func_info : func_info)
    : Dict.dict nat :=
  Dict.set (category func_info)
           (default 0%nat (Dict.get (category func_info) categories) + 1)%nat
           categories.

(** The alternatives of the second pattern of the rule for [command]. *)
Definition command_words : list (list N) :=
  map py [ "Start"; "Help"; "Download"; "List"; "Cancel"; "Tasks"; "AddTask";
           "QuickTask"; "DelTask"; "RunTask" ]%string.




(** A name made of ASCII characters, for which [py_repr] is [repr]. *)
Definition ascii_name (s : list N) : Prop := Forall (fun c => c < 128) s.

(** [w'] holds every directory and every file path of [w], and its output
    starts with the output of [w]. *)
Definition extends (w w' : world) : Prop :=
  dirs w ⊆ dirs w'
  ∧ dom (files w) ⊆ dom (files w')
  ∧ stdout w `prefix_of` stdout w'.

(** [m] removes nothing, however it ends. *)
Definition only_adds {A} (m : M A) : Prop := ∀ w, extends w (m w).2.

(** The handler of the [except] clause of [main]. *)
Definition on_error (e : exn) : M unit :=
  print (py "❌ 执行过程中发生错误: " ++ exn_str e) ;; sys_exit 1.

(** The characters a value of [_extract_constants] is made of: [[^/\n]]. *)
Definition value_char (c : N) : bool := negb (c =? chr "/") && negb (c =? nl).

(** What the groups of [const_pattern] hold. *)
Definition const_groups (word_char : N -> bool) (n : nat) (w : list N) : Prop :=
  match n with
  | 1%nat => w ≠ [] ∧ forallb word_char w = true
  | 2%nat => w ≠ [] ∧ forallb value_char w = true
  | _ => True
  end.

(** The lines of the tree of the report: one for a directory, one for a
    file in it, and the lines of one directory together. *)
Definition tree_dir_line (dir_name : list N) : list N :=
  py "├── " ++ dir_name ++ py "/" ++ [nl].

Definition tree_file_line (name : list N) : list N :=
  py "│   ├── " ++ name ++ [nl].

Definition tree_block (w : world) (target_dir dir_name : list N) : list N :=
  tree_dir_line dir_name
  ++ (if exists_in w (path_join target_dir dir_name)
      then concat (map tree_file_line (glob_go w (path_join target_dir dir_name)))
      else []).

(** ** The matcher and the words of a pattern *)

Section MatcherFacts.
Context {A : Type}.

Lemma star_bt_sound p (k : nat -> list N -> option A) s i a :
  star_bt p i s k = Some a ->
  ∃ w s', s = w ++ s' ∧ forallb p w = true ∧ k (i + length w)%nat s' = Some a.
Proof.
  revert i. induction s as [|c s IH]; intros i H; simpl in H.
  - exists [], []. rewrite Nat.add_0_r. auto.
  - destruct (p c) eqn:Hp.
    + destruct (star_bt p (S i) s k) as [a'|] eqn:Hs.
      * injection H as <-. apply IH in Hs as (w & s' & -> & Hw & Hk).
        exists (c :: w), s'. simpl. rewrite Hp, Hw.
        replace (i + S (length w))%nat with (S i + length w)%nat by lia. auto.
      * exists [], (c :: s). rewrite Nat.add_0_r. auto.
    + exists [], (c :: s). rewrite Nat.add_0_r. auto.
Qed.

Lemma star_bt_complete p (k : nat -> list N -> option A) w s' i :
  forallb p w = true ->
  is_Some (k (i + length w)%nat s') ->
  is_Some (star_bt p i (w ++ s') k).
Proof.
  revert i. induction w as [|c w IH]; intros i Hw Hk; simpl in *.
  - rewrite Nat.add_0_r in Hk.
    destruct s' as [|c s']; simpl; [done|].
    destruct (p c); [|done].
    destruct (star_bt p (S i) s' k); [eauto | done].
  - apply andb_true_iff in Hw as [-> Hw].
    destruct (IH (S i) Hw) as [a ->]; [|eauto].
    by replace (S i + length w)%nat with (i + S (length w))%nat by lia.
Qed.

Lemma bt_sound r : ∀ (k : nat -> list N -> groups -> option A) s i g a,
  bt r i s g k = Some a ->
  ∃ w s' g', s = w ++ s' ∧ lang r w ∧ k (i + length w)%nat s' g' = Some a.
Proof.
  induction r as [|c|p|r1 IH1 r2 IH2|r1 IH1 r2 IH2|r1 IH1|p|p|n r1 IH1];
    intros k s i g a H; simpl in H.
  - exists [], s, g. rewrite Nat.add_0_r. simpl. auto.
  - destruct s as [|x s]; [done|]. destruct (N.eqb_spec x c) as [->|]; [|done].
    exists [c], s, g. simpl. rewrite Nat.add_1_r. auto.
  - destruct s as [|x s]; [done|]. destruct (p x) eqn:Hp; [|done].
    exists [x], s, g. simpl. rewrite Nat.add_1_r. eauto.
  - apply IH1 in H as (w1 & s1 & g1 & -> & Hw1 & H).
    apply IH2 in H as (w2 & s2 & g2 & -> & Hw2 & H).
    exists (w1 ++ w2), s2, g2. rewrite <- app_assoc, length_app, Nat.add_assoc.
    simpl. eauto 10.
  - destruct (bt r1 i s g k) as [a'|] eqn:H1.
    + injection H as <-. apply IH1 in H1 as (w & s' & g' & -> & Hw & H).
      exists w, s', g'. simpl. auto.
    + apply IH2 in H as (w & s' & g' & -> & Hw & H).
      exists w, s', g'. simpl. auto.
  - destruct (bt r1 i s g k) as [a'|] eqn:H1.
    + injection H as <-. apply IH1 in H1 as (w & s' & g' & -> & Hw & H).
      exists w, s', g'. simpl. auto.
    + exists [], s, g. rewrite Nat.add_0_r. simpl. auto.
  - apply star_bt_sound in H as (w & s' & -> & Hw & H). exists w, s', g. auto.
  - destruct s as [|x s]; [done|]. destruct (p x) eqn:Hp; [|done].
    apply star_bt_sound in H as (w & s' & -> & Hw & H).
    exists (x :: w), s', g. simpl. rewrite Hp, Hw.
    replace (i + S (length w))%nat with (S i + length w)%nat by lia. auto.
  - apply IH1 in H as (w & s' & g' & -> & Hw & H). simpl. eauto 10.
Qed.

Lemma bt_complete r : ∀ (k : nat -> list N -> groups -> option A) w s' i g,
  lang r w ->
  (∀ g', is_Some (k (i + length w)%nat s' g')) ->
  is_Some (bt r i (w ++ s') g k).
Proof.
  induction r as [|c|p|r1 IH1 r2 IH2|r1 IH1 r2 IH2|r1 IH1|p|p|n r1 IH1];
    intros k w s' i g Hw Hk; simpl in Hw |- *.
  - subst w. specialize (Hk g). by rewrite Nat.add_0_r in Hk.
  - subst w. simpl. rewrite N.eqb_refl. specialize (Hk g).
    by rewrite Nat.add_1_r in Hk.
  - destruct Hw as (c & -> & Hp). simpl. rewrite Hp. specialize (Hk g).
    by rewrite Nat.add_1_r in Hk.
  - destruct Hw as (w1 & w2 & -> & Hw1 & Hw2). rewrite <- app_assoc.
    apply IH1; [done|]. intros g'. apply IH2; [done|]. intros g''.
    specialize (Hk g''). by rewrite length_app, Nat.add_assoc in Hk.
  - destruct (bt r1 i (w ++ s') g k) eqn:H1; [eauto|].
    destruct Hw as [Hw|Hw]; [|by apply IH2].
    destruct (IH1 k w s' i g Hw Hk) as [a Ha]. congruence.
  - destruct (bt r1 i (w ++ s') g k) eqn:H1; [eauto|].
    destruct Hw as [->|Hw].
    + specialize (Hk g). by rewrite Nat.add_0_r in Hk.
    + destruct (IH1 k w s' i g Hw Hk) as [a Ha]. congruence.
  - by apply star_bt_complete.
  - destruct Hw as [Hne Hw]. destruct w as [|c w]; [done|]. simpl in *.
    apply andb_true_iff in Hw as [-> Hw].
    apply star_bt_complete; [done|].
    specialize (Hk g). by replace (S i + length w)%nat with (i + S (length w))%nat by lia.
  - apply IH1; [done|]. intros g'. apply Hk.
Qed.
End MatcherFacts.

(** [re.match] succeeds exactly when a prefix of the string is a word of
    the pattern. *)
Lemma re_match_spec r s :
  re_match r s = true ↔ ∃ w s', s = w ++ s' ∧ lang r w.
Proof.
  unfold re_match, match_at. split.
  - destruct (bt r 0 s [] _) as [m|] eqn:H; [|done]. intros _.
    apply bt_sound in H as (w & s' & g' & -> & Hw & _). eauto.
  - intros (w & s' & -> & Hw).
    edestruct (bt_complete (A:=match_obj) r) as [m ->]; [exact Hw| |done].
    intros g'. eauto.
Qed.

Lemma match_at_sound r i s m :
  match_at r i s = Some m ->
  m_start m = i ∧ ∃ w s', s = w ++ s' ∧ lang r w ∧ m_end m = (i + length w)%nat.
Proof.
  unfold match_at. intros H.
  apply bt_sound in H as (w & s' & g' & -> & Hw & [= <-]). simpl. eauto 10.
Qed.

(** ** Classification *)

Lemma existsb_re_match pats name :
  existsb (fun pattern => re_match pattern name) pats = true
  ↔ Exists (fun p => prefix_matches p name) pats.
Proof.
  rewrite existsb_exists, Exists_exists.
  split; intros (p & Hin & Hp); exists p;
    (split; [by apply list_elem_of_In | by apply re_match_spec]).
Qed.

Lemma existsb_re_match_false pats name :
  existsb (fun pattern => re_match pattern name) pats = false
  ↔ Forall (fun p => ¬ prefix_matches p name) pats.
Proof.
  rewrite <- not_true_iff_false, existsb_re_match.
  rewrite <- Forall_Exists_neg. done.
Qed.

Lemma categorize_in_closed cats name :
  categorize_in cats name ∈ map fst cats ++ [py "other"].
Proof.
  induction cats as [|[c ps] cats IH]; simpl.
  - apply list_elem_of_here.
  - destruct (existsb _ ps); [apply list_elem_of_here | by apply list_elem_of_further].
Qed.

Lemma categorize_in_first cats name before cat pats after :
  cats = before ++ (cat, pats) :: after ->
  Forall (rule_silent name) before ->
  Exists (fun p => prefix_matches p name) pats ->
  categorize_in cats name = cat.
Proof.
  intros -> Hb Hp. induction Hb as [|[c ps] before Hc Hb IH]; simpl.
  - apply existsb_re_match in Hp. by rewrite Hp.
  - apply existsb_re_match_false in Hc. simpl in Hc. by rewrite Hc.
Qed.

Lemma categorize_in_other cats name :
  Forall (rule_silent name) cats -> categorize_in cats name = py "other".
Proof.
  induction 1 as [|[c ps] cats Hc Hb IH]; simpl; [done|].
  apply existsb_re_match_false in Hc. simpl in Hc. by rewrite Hc.
Qed.

Lemma categorize_in_cases cats name :
  (∃ before pats after,
      cats = before ++ (categorize_in cats name, pats) :: after
      ∧ Forall (rule_silent name) before
      ∧ Exists (fun p => prefix_matches p name) pats)
  ∨ (categorize_in cats name = py "other" ∧ Forall (rule_silent name) cats).
Proof.
  induction cats as [|[c ps] cats IH]; simpl.
  - right. auto.
  - destruct (existsb _ ps) eqn:Hps.
    + left. exists [], ps, cats. apply existsb_re_match in Hps. auto.
    + apply existsb_re_match_false in Hps.
      destruct IH as [(before & pats & after & Heq & Hb & Hp)|[Ho Hall]].
      * left. exists ((c, ps) :: before), pats, after. simpl.
        rewrite <- Heq. auto.
      * right. auto.
Qed.

(** C2: classification is total with values in the closed set of ten
    labels; the rules are tried in the order of the table, a rule applies
    when one of its patterns matches a prefix of the name, the first rule
    that applies gives the category, and ['other'] is the result exactly
    when the result is not given by a rule, which includes the case that no
    rule applies. *)
Theorem categorize_total_first_match (name : list N) :
  _categorize_function name ∈ category_set
  ∧ (∀ before cat pats after,
       categories = before ++ (cat, pats) :: after ->
       Forall (rule_silent name) before ->
       Exists (fun p => prefix_matches p name) pats ->
       _categorize_function name = cat)
  ∧ (Forall (rule_silent name) categories -> _categorize_function name = py "other")
  ∧ ((∃ before pats after,
        categories = before ++ (_categorize_function name, pats) :: after
        ∧ Forall (rule_silent name) before
        ∧ Exists (fun p => prefix_matches p name) pats)
     ∨ (_categorize_function name = py "other"
        ∧ Forall (rule_silent name) categories))
  ∧ (∀ p suffix, re_match p name = true -> re_match p (name ++ suffix) = true).
Proof.
  unfold _categorize_function. repeat split.
  - apply (categorize_in_closed categories name).
  - intros before cat pats after. apply categorize_in_first.
  - apply categorize_in_other.
  - apply categorize_in_cases.
  - intros p suffix. rewrite !re_match_spec. intros (w & rest & -> & Hw).
    exists w, (rest ++ suffix). by rewrite app_assoc.
Qed.

(** ** Dictionaries *)

Section DictFacts.
Context {V : Type}.
Implicit Types (d : Dict.dict V) (k : list N) (v : V).

Lemma dict_get_set_eq k v d : Dict.get k (Dict.set k v d) = Some v.
Proof.
  induction d as [|[k' v'] d IH]; simpl.
  - by rewrite decide_True.
  - destruct (decide (k' = k)) as [->|Hne]; simpl.
    + by rewrite decide_True.
    + by rewrite decide_False.
Qed.

Lemma dict_get_set_ne k k' v d :
  k ≠ k' -> Dict.get k' (Dict.set k v d) = Dict.get k' d.
Proof.
  intros Hne. induction d as [|[k0 v0] d IH]; simpl.
  - by rewrite decide_False.
  - destruct (decide (k0 = k)) as [->|Hne0]; simpl.
    + by rewrite !decide_False.
    + by rewrite IH.
Qed.

Lemma dict_keys_set k v d :
  Dict.keys (Dict.set k v d)
  = if decide (k ∈ Dict.keys d) then Dict.keys d else Dict.keys d ++ [k].
Proof.
  unfold Dict.keys. induction d as [|[k0 v0] d IH]; simpl; [done|].
  destruct (decide (k0 = k)) as [->|Hne0]; simpl.
  - rewrite decide_True; [done|]. apply list_elem_of_here.
  - rewrite IH. destruct (decide (k ∈ map fst d)) as [Hin|Hin].
    + rewrite decide_True; [done|]. by apply list_elem_of_further.
    + rewrite decide_False; [done|].
      intros [?|?]%elem_of_cons; congruence.
Qed.

Lemma dict_keys_set_NoDup k v d :
  NoDup (Dict.keys d) -> NoDup (Dict.keys (Dict.set k v d)).
Proof.
  intros Hnd. rewrite dict_keys_set. case_decide; [done|].
  apply NoDup_app. repeat split; [done| |apply NoDup_singleton].
  intros x Hx ->%list_elem_of_singleton. done.
Qed.

Lemma dict_get_Some_elem k v d : Dict.get k d = Some v -> (k, v) ∈ d.
Proof.
  induction d as [|[k0 v0] d IH]; simpl; [done|].
  destruct (decide (k0 = k)) as [->|Hne0].
  - intros [= ->]. apply list_elem_of_here.
  - intros H. apply list_elem_of_further. auto.
Qed.

Lemma dict_get_None k d : Dict.get k d = None ↔ k ∉ Dict.keys d.
Proof.
  unfold Dict.keys. induction d as [|[k0 v0] d IH]; simpl.
  - split; [intros _; apply not_elem_of_nil | done].
  - destruct (decide (k0 = k)) as [->|Hne0].
    + split; [done|]. intros []. apply list_elem_of_here.
    + rewrite IH, not_elem_of_cons. intuition congruence.
Qed.

Lemma dict_elem_get k v d :
  NoDup (Dict.keys d) -> (k, v) ∈ d -> Dict.get k d = Some v.
Proof.
  unfold Dict.keys. induction d as [|[k0 v0] d IH]; simpl.
  - by intros _ ?%elem_of_nil.
  - intros [Hk0 Hnd]%NoDup_cons [[= -> ->]|Hin]%elem_of_cons.
    + by rewrite decide_True.
    + destruct (decide (k0 = k)) as [->|Hne]; [|auto].
      destruct Hk0. apply list_elem_of_fmap. by exists (k, v).
Qed.

Lemma dict_get_del_ne k k' d :
  k ≠ k' -> Dict.get k' (Dict.del k d) = Dict.get k' d.
Proof.
  intros Hne. induction d as [|[k0 v0] d IH]; simpl; [done|].
  destruct (decide (k0 = k)) as [->|H0]; simpl.
  - by rewrite decide_False.
  - by rewrite IH.
Qed.
End DictFacts.

(** ** Routing *)

Lemma mapping_append_keys path name mapping :
  Dict.keys (mapping_append path name mapping) = Dict.keys mapping.
Proof.
  unfold Dict.keys. induction mapping as [|[p ns] mapping IH]; simpl; [done|].
  destruct (decide (p = path)); simpl; [done|]. by rewrite IH.
Qed.

Lemma mapping_append_get path name mapping q :
  Dict.get q (mapping_append path name mapping)
  = (fun names => if decide (path = q) then names ++ [name] else names)
      <$> Dict.get q mapping.
Proof.
  induction mapping as [|[p ns] mapping IH]; simpl; [done|].
  destruct (decide (p = path)) as [->|Hp]; simpl.
  - destruct (decide (path = q)) as [->|Hq]; simpl; [done|].
    by destruct (Dict.get q mapping).
  - destruct (decide (p = q)) as [->|Hq]; simpl.
    + by rewrite decide_False.
    + apply IH.
Qed.

Lemma mapping_fold_keys functions mapping :
  Dict.keys (fold_left mapping_step functions mapping) = Dict.keys mapping.
Proof.
  revert mapping. induction functions as [|[n e] functions IH]; intros mapping; simpl; [done|].
  rewrite IH. destruct (route n (category e)); [apply mapping_append_keys | done].
Qed.

Lemma mapping_fold_get functions mapping q :
  Dict.get q (fold_left mapping_step functions mapping)
  = (fun names => names ++ routed_to q functions) <$> Dict.get q mapping.
Proof.
  revert mapping. induction functions as [|[n e] functions IH]; intros mapping; simpl.
  - destruct (Dict.get q mapping); simpl; [by rewrite app_nil_r | done].
  - rewrite IH. unfold routed_to. simpl.
    destruct (route n (category e)) as [path|] eqn:Hr.
    + rewrite mapping_append_get.
      destruct (Dict.get q mapping) as [names|]; simpl; [|done].
      destruct (decide (path = q)) as [->|Hq].
      * destruct (decide (Some q = Some q)); [|done]. simpl. by rewrite <- app_assoc.
      * destruct (decide (Some path = Some q)) as [[= ?]|]; done.
    + destruct (decide (None = Some q)); done.
Qed.

Lemma empty_mapping_NoDup : NoDup (Dict.keys empty_mapping).
Proof. apply (bool_decide_unpack _). by vm_compute. Qed.

Lemma empty_mapping_get q :
  q ∈ Dict.keys empty_mapping -> Dict.get q empty_mapping = Some [].
Proof.
  intros Hq. destruct (Dict.get q empty_mapping) as [names|] eqn:Hg.
  - apply dict_get_Some_elem in Hg.
    unfold empty_mapping in Hg. apply list_elem_of_fmap in Hg as (x & [= _ ->] & _). done.
  - by apply dict_get_None in Hg.
Qed.

(** The list of a destination holds the names routed to it, in the order of
    [self.functions]. *)
Lemma file_mapping_get functions q :
  q ∈ Dict.keys empty_mapping ->
  Dict.get q (_get_file_mapping functions) = Some (routed_to q functions).
Proof.
  intros Hq. unfold _get_file_mapping.
  by rewrite mapping_fold_get, empty_mapping_get.
Qed.

Lemma file_mapping_elem functions path names :
  (path, names) ∈ _get_file_mapping functions ->
  path ∈ Dict.keys empty_mapping ∧ names = routed_to path functions.
Proof.
  intros Hin.
  assert (Hk : path ∈ Dict.keys empty_mapping).
  { rewrite <- (mapping_fold_keys functions). unfold Dict.keys.
    apply list_elem_of_fmap. by exists (path, names). }
  split; [done|].
  assert (Hnd : NoDup (Dict.keys (_get_file_mapping functions))).
  { unfold _get_file_mapping. rewrite mapping_fold_keys. apply empty_mapping_NoDup. }
  pose proof (file_mapping_get functions path Hk) as Hg.
  apply (dict_elem_get _ _ _ Hnd) in Hin. congruence.
Qed.

Lemma route_unrouted name cat :
  cat ∉ routed_categories -> route name cat = None.
Proof.
  unfold routed_categories, route. intros Hcat.
  rewrite !not_elem_of_cons in Hcat. destruct Hcat as (H1 & H2 & H3 & _).
  destruct (decide (cat = py "command")); [done|].
  destruct (decide (cat = py "callback")); [done|].
  destruct (decide (cat = py "util")); done.
Qed.

Lemma routed_to_elem path functions name :
  name ∈ routed_to path functions ->
  ∃ info, (name, info) ∈ functions ∧ route name (category info) = Some path.
Proof.
  unfold routed_to. intros ([n e] & Hin & Hsome)%list_elem_of_omap.
  destruct (decide (route n (category e) = Some path)); [|done].
  injection Hsome as ->. eauto.
Qed.

Lemma mapping_fold_del name functions mapping :
  (∀ info, (name, info) ∈ functions -> route name (category info) = None) ->
  fold_left mapping_step (Dict.del name functions) mapping
  = fold_left mapping_step functions mapping.
Proof.
  revert mapping. induction functions as [|[n e] functions IH]; intros mapping Hr; simpl; [done|].
  destruct (decide (n = name)) as [->|Hne]; simpl.
  - rewrite (Hr e) by apply list_elem_of_here.
    apply IH. intros info Hin. apply Hr. by apply list_elem_of_further.
  - apply IH. intros info Hin. apply Hr. by apply list_elem_of_further.
Qed.

(** ** The text of a generated file *)

Lemma file_content_blocks source_file functions relative_path function_names :
  file_content source_file functions relative_path function_names
  = file_header source_file (split_head (chr "/") relative_path)
    ++ concat (map (block_of functions) function_names).
Proof.
  unfold file_content.
  generalize (file_header source_file (split_head (chr "/") relative_path)).
  induction function_names as [|n names IH]; intros content; simpl.
  - by rewrite app_nil_r.
  - rewrite IH. unfold block_of at 2.
    destruct (Dict.get n functions); simpl; [by rewrite <- app_assoc | done].
Qed.

(** C3: a function whose category is none of ['command'], ['callback'],
    ['util'] (so ['render'], ['message'], ['file'], ['task'], ['system'],
    ['manual'], ['other']) is in the list of no destination, and no
    generated file depends on it: the mapping and the text of every file
    are what they are without its entry. *)
Theorem unrouted_function_in_no_file
    (functions : Dict.dict func_info) (name : list N) :
  (∀ info, (name, info) ∈ functions -> category info ∉ routed_categories) ->
  _get_file_mapping (Dict.del name functions) = _get_file_mapping functions
  ∧ (∀ path names, (path, names) ∈ _get_file_mapping functions ->
       (name ∉ names)
       ∧ (∀ source_file,
            file_content source_file (Dict.del name functions) path names
            = file_content source_file functions path names)).
Proof.
  intros Hcat.
  assert (Hroute : ∀ info, (name, info) ∈ functions ->
                           route name (category info) = None).
  { intros info Hin. apply route_unrouted. by apply Hcat. }
  split.
  - apply mapping_fold_del, Hroute.
  - intros path names [Hk ->]%file_mapping_elem.
    assert (Hnot : name ∉ routed_to path functions).
    { intros (info & Hin & Hr)%routed_to_elem. rewrite (Hroute info Hin) in Hr. done. }
    split; [done|]. intros source_file. rewrite !file_content_blocks. f_equal. f_equal.
    apply map_ext_in. intros n Hn%list_elem_of_In. unfold block_of.
    rewrite dict_get_del_ne; [done|]. intros ->. done.
Qed.

(** ** Literal prefixes *)

Lemma lang_lits s w : lang (lits s) w ↔ w = s.
Proof.
  revert w. induction s as [|c s IH]; intros w; [done|].
  destruct s as [|c' s]; [done|].
  change (lits (c :: c' :: s)) with (Seq (Lit c) (lits (c' :: s))). simpl lang.
  split.
  - intros (w1 & w2 & -> & -> & Hw2). apply IH in Hw2 as ->. done.
  - intros ->. exists [c], (c' :: s). split; [done|]. split; [done|]. by apply IH.
Qed.

Lemma re_match_literal_prefix s r name :
  re_match (Seq (str s) r) name = true -> ∃ rest, name = py s ++ rest.
Proof.
  intros (w & s' & -> & w1 & w2 & -> & Hw1 & _)%re_match_spec.
  apply lang_lits in Hw1 as ->. exists (w2 ++ s'). by rewrite app_assoc.
Qed.

Lemma strip_prefix_app p s : strip_prefix p (p ++ s) = Some s.
Proof. induction p as [|c p IH]; simpl; [done|]. by rewrite N.eqb_refl. Qed.

Lemma startswith_app p s : startswith p (p ++ s) = true.
Proof. unfold startswith. by rewrite strip_prefix_app. Qed.

Lemma contains_startswith w s : startswith w s = true -> contains w s = true.
Proof. intros H. destruct s; simpl; by rewrite H. Qed.

Lemma contains_prefix w s : contains w (w ++ s) = true.
Proof. apply contains_startswith, startswith_app. Qed.

Lemma lower_app a b : lower (a ++ b) = lower a ++ lower b.
Proof. apply map_app. Qed.

(** ** The validator branch *)

Lemma categorize_util_prefix name :
  _categorize_function name = py "util" ->
  ∃ prefix rest, prefix ∈ util_prefixes ∧ name = prefix ++ rest.
Proof.
  unfold _categorize_function, categories. cbn [categorize_in].
  repeat match goal with
         | |- context [if existsb ?f ?l then _ else _] =>
           let E := fresh "E" in destruct (existsb f l) eqn:E
         end;
    intros H; try (vm_compute in H; discriminate H).
  clear H. cbn [existsb] in E2.
  repeat (apply orb_true_iff in E2 as [E2|E2]); try discriminate E2;
    apply re_match_literal_prefix in E2 as [rest ->];
    eexists _, rest; (split; [|reflexivity]); unfold util_prefixes;
    repeat first [apply list_elem_of_here | apply list_elem_of_further].
Qed.

Lemma any_in_prefix word words rest :
  word ∈ words -> lower word = word -> any_in words (lower (word ++ rest)) = true.
Proof.
  intros Hin Hlow. unfold any_in. apply existsb_exists. exists word.
  split; [by apply list_elem_of_In|]. rewrite lower_app, Hlow. apply contains_prefix.
Qed.

(** The words the first and third branch of the ['util'] routing look for
    include every prefix that makes a name a ['util']. *)
Lemma route_util name :
  _categorize_function name = py "util" ->
  route name (py "util") = Some (py "utils/formatter.go")
  ∨ route name (py "util") = Some (py "utils/message_sender.go")
  ∨ route name (py "util") = Some (py "utils/encoder.go").
Proof.
  intros (prefix & rest & Hp & ->)%categorize_util_prefix.
  unfold route.
  destruct (decide (py "util" = py "command")) as [H|_]; [vm_compute in H; discriminate H|].
  destruct (decide (py "util" = py "callback")) as [H|_]; [vm_compute in H; discriminate H|].
  destruct (decide (py "util" = py "util")) as [_|H]; [|done].
  destruct (any_in [py "format"; py "escape"; py "split"] _) eqn:E1; [by left|].
  destruct (any_in [py "send"; py "edit"; py "answer"] _) eqn:E2; [by right; left|].
  destruct (any_in [py "encode"; py "decode"; py "path"] _) eqn:E3; [by right; right|].
  exfalso. unfold util_prefixes in Hp.
  repeat (apply elem_of_cons in Hp as [->|Hp]); [ | | | | |by apply elem_of_nil in Hp].
  1-3: rewrite any_in_prefix in E1; [discriminate E1| |reflexivity];
       repeat first [apply list_elem_of_here | apply list_elem_of_further].
  1-2: rewrite any_in_prefix in E3; [discriminate E3| |reflexivity];
       repeat first [apply list_elem_of_here | apply list_elem_of_further].
Qed.

Lemma route_not_validator name :
  route name (_categorize_function name) ≠ Some (py "utils/validator.go").
Proof.
  destruct (decide (_categorize_function name = py "util")) as [Hu|Hu].
  - rewrite Hu. destruct (route_util name Hu) as [-> | [-> | ->]];
      intros [= H]; vm_compute in H; discriminate H.
  - unfold route.
    destruct (decide (_categorize_function name = py "command")) as [_|_].
    { repeat match goal with
             | |- context [if ?b then _ else _] => destruct b
             end; intros [= H]; vm_compute in H; discriminate H. }
    destruct (decide (_categorize_function name = py "callback")) as [_|_].
    { repeat match goal with
             | |- context [if ?b then _ else _] => destruct b
             end; intros [= H]; vm_compute in H; discriminate H. }
    destruct (decide (_categorize_function name = py "util")); done.
Qed.

(** ** The store after extraction *)

Lemma dict_set_elem {V} k v (d : Dict.dict V) k' v' :
  (k', v') ∈ Dict.set k v d -> (k', v') = (k, v) ∨ (k', v') ∈ d.
Proof.
  induction d as [|[k0 v0] d IH]; simpl.
  - intros ->%list_elem_of_singleton. by left.
  - destruct (decide (k0 = k)) as [->|Hne].
    + intros [->|Hin]%elem_of_cons; [by left|]. right. by apply list_elem_of_further.
    + intros [->|Hin]%elem_of_cons; [right; apply list_elem_of_here|].
      destruct (IH Hin) as [->|Hd]; [by left|]. right. by apply list_elem_of_further.
Qed.

Lemma extract_entry_category content m name entry :
  extract_entry content m = Some (name, entry) ->
  category entry = _categorize_function name.
Proof.
  unfold extract_entry. destruct (brace_scan _ _ _) as [pos bc].
  destruct (bc =? 0)%Z; [|done]. by intros [= <- <-].
Qed.

Lemma extract_fold_category content ms functions :
  (∀ n e, (n, e) ∈ functions -> category e = _categorize_function n) ->
  ∀ n e, (n, e) ∈ fold_left (extract_step content) ms functions ->
         category e = _categorize_function n.
Proof.
  revert functions. induction ms as [|m ms IH]; intros functions Hinv; simpl; [done|].
  apply IH. unfold extract_step.
  destruct (extract_entry content m) as [[name entry]|] eqn:He; [|done].
  intros n e [[= -> ->]|Hin]%dict_set_elem; [|by apply Hinv].
  by apply extract_entry_category in He.
Qed.

Lemma extract_functions_category content n e :
  (n, e) ∈ _extract_functions content -> category e = _categorize_function n.
Proof.
  apply extract_fold_category. by intros ? ? ?%elem_of_nil.
Qed.

Lemma routed_to_cons path n e fs :
  routed_to path ((n, e) :: fs)
  = if decide (route n (category e) = Some path)
    then n :: routed_to path fs else routed_to path fs.
Proof. unfold routed_to. cbn [omap list_omap]. by destruct (decide _). Qed.

Lemma validator_list_empty content :
  routed_to (py "utils/validator.go") (_extract_functions content) = [].
Proof.
  assert (H : ∀ fs : Dict.dict func_info,
    (∀ n e, (n, e) ∈ fs -> category e = _categorize_function n) ->
    routed_to (py "utils/validator.go") fs = []).
  { induction fs as [|[n e] fs IH]; intros Hinv; [done|].
    rewrite routed_to_cons.
    rewrite IH by (intros; apply Hinv; by apply list_elem_of_further).
    destruct (decide _) as [Hr|_]; [|done].
    rewrite (Hinv n e) in Hr by apply list_elem_of_here.
    by apply route_not_validator in Hr. }
  apply H. intros n e. apply extract_functions_category.
Qed.

(** ** Running the script *)

Section MonadFacts.
Context {A B : Type}.

Lemma bind_Ret_inv (m : M A) (f : A -> M B) w b w' :
  (m ≫= f) w = (Ret b, w') ->
  ∃ a w1, m w = (Ret a, w1) ∧ f a w1 = (Ret b, w').
Proof.
  unfold mbind, M_bind. destruct (m w) as [[a|e|c] w1]; [eauto|done|done].
Qed.

Lemma bind_Ret (m : M A) (f : A -> M B) w a w1 :
  m w = (Ret a, w1) -> (m ≫= f) w = f a w1.
Proof. unfold mbind, M_bind. by intros ->. Qed.
End MonadFacts.

Lemma print_Ret line w : ∃ w', print line w = (Ret tt, w') ∧ same_fs w w'.
Proof. eexists. split; [reflexivity|]. by split. Qed.

Lemma print_inv line w r w' :
  print line w = (r, w') -> r = Ret tt ∧ same_fs w w'.
Proof. intros [= <- <-]. by repeat split. Qed.

Lemma same_fs_trans w1 w2 w3 : same_fs w1 w2 -> same_fs w2 w3 -> same_fs w1 w3.
Proof. intros [? ?] [? ?]. split; congruence. Qed.

Lemma mkdir_inv path w w' :
  mkdir path w = (Ret tt, w') ->
  (∀ q, q ∈ path :: ancestors path -> files w !! q = None)
  ∧ files w' = files w
  ∧ dirs w' = list_to_set (path :: ancestors path) ∪ dirs w.
Proof.
  unfold mkdir.
  destruct (existsb _ (ancestors path)) eqn:Ha; [done|].
  case_bool_decide as Hf; [done|]. intros [= <-]. cbn [files dirs].
  split; [|done].
  intros q [->|Hq]%elem_of_cons; [by apply eq_None_not_Some|].
  apply eq_None_not_Some. intros Hs.
  assert (existsb (fun a => bool_decide (is_Some (files w !! a))) (ancestors path) = true);
    [|congruence].
  apply existsb_exists. exists q. split; [by apply list_elem_of_In|].
  by apply bool_decide_eq_true_2.
Qed.

Lemma mkdir_ok path w :
  (∀ q, q ∈ path :: ancestors path -> files w !! q = None) ->
  ∃ w', mkdir path w = (Ret tt, w') ∧ files w' = files w
        ∧ dirs w' = list_to_set (path :: ancestors path) ∪ dirs w.
Proof.
  intros Hf. unfold mkdir.
  destruct (existsb _ (ancestors path)) eqn:Ha.
  - apply existsb_exists in Ha as (q & Hq%list_elem_of_In & Hs%bool_decide_eq_true_1).
    rewrite (Hf q (list_elem_of_further _ _ _ Hq)) in Hs. by destruct Hs.
  - rewrite bool_decide_false.
    + eexists. split; [reflexivity|]. done.
    + rewrite (Hf path (list_elem_of_here _ _)). by intros [? ?].
Qed.

Lemma write_text_inv path text w w' :
  write_text path text w = (Ret tt, w') ->
  (path ∉ dirs w) ∧ files w' = <[path := text]> (files w) ∧ dirs w' = dirs w.
Proof.
  unfold write_text. case_bool_decide as Hd; [done|]. intros [= <-]. done.
Qed.

Lemma write_text_ok path text w :
  path ∉ dirs w ->
  ∃ w', write_text path text w = (Ret tt, w')
        ∧ files w' = <[path := text]> (files w) ∧ dirs w' = dirs w.
Proof.
  intros Hd. unfold write_text. rewrite bool_decide_false by done.
  eexists. split; [reflexivity|]. done.
Qed.

Lemma made_dirs_cons target d ds :
  made_dirs target (d :: ds)
  = (path_join target d :: ancestors (path_join target d)) ++ made_dirs target ds.
Proof. done. Qed.

Lemma made_dirs_dir target ds d :
  d ∈ ds -> path_join target d ∈ made_dirs target ds.
Proof.
  intros Hin. apply list_elem_of_bind. exists d. split; [apply list_elem_of_here|done].
Qed.

Lemma mkdirs_inv target ds w w' :
  for_each ds (mkdir_body target) w = (Ret tt, w') ->
  (∀ q, q ∈ made_dirs target ds -> files w !! q = None)
  ∧ files w' = files w
  ∧ dirs w' = list_to_set (made_dirs target ds) ∪ dirs w.
Proof.
  revert w. induction ds as [|d ds IH]; intros w H; simpl in H.
  - injection H as <-. split; [by intros ? ?%elem_of_nil|]. split; [done|].
    cbn. set_solver.
  - apply bind_Ret_inv in H as ([] & w1 & Hd & H).
    unfold mkdir_body in Hd. apply bind_Ret_inv in Hd as ([] & w0 & Hm & Hp).
    apply mkdir_inv in Hm as (Hnone & Hf0 & Hd0).
    apply print_inv in Hp as [_ [Hf1 Hd1]].
    apply IH in H as (Hall & Hf & Hdirs).
    rewrite made_dirs_cons. split; [|split].
    + intros q [Hq|Hq]%elem_of_app; [by apply Hnone|].
      rewrite <- Hf0, <- Hf1. by apply Hall.
    + congruence.
    + rewrite Hdirs, Hd1, Hd0, list_to_set_app_L. set_solver.
Qed.

Lemma mkdirs_ok target ds w :
  (∀ q, q ∈ made_dirs target ds -> files w !! q = None) ->
  ∃ w', for_each ds (mkdir_body target) w = (Ret tt, w').
Proof.
  revert w. induction ds as [|d ds IH]; intros w Hall; simpl.
  - by eexists.
  - rewrite made_dirs_cons in Hall.
    destruct (mkdir_ok (path_join target d) w) as (w0 & Hm & Hf0 & Hd0).
    { intros q Hq. apply Hall, elem_of_app. by left. }
    destruct (print_Ret (py "   📁 创建目录: " ++ path_join target d) w0)
      as (w1 & Hp & Hf1 & Hd1).
    destruct (IH w1) as [w' Hw'].
    { intros q Hq. rewrite Hf1, Hf0. apply Hall, elem_of_app. by right. }
    exists w'. erewrite bind_Ret; [exact Hw'|].
    unfold mkdir_body. erewrite bind_Ret; [exact Hp | exact Hm].
Qed.

Lemma generate_file_inv self p names w w' :
  _generate_file self p names w = (Ret tt, w') ->
  (names ≠ [] -> path_join (target_dir self) p ∉ dirs w)
  ∧ files w' = gen_files self [(p, names)] (files w)
  ∧ dirs w' = dirs w.
Proof.
  unfold _generate_file, gen_files. destruct names as [|n names]; simpl.
  - by intros [= <-].
  - intros ([] & w0 & Hp & Hw)%bind_Ret_inv.
    apply print_inv in Hp as [_ [Hf0 Hd0]].
    apply write_text_inv in Hw as (Hnd & Hf & Hd).
    rewrite Hf, Hd, Hf0, Hd0. rewrite Hd0 in Hnd. done.
Qed.

Lemma generate_file_ok self p names w :
  (names ≠ [] -> path_join (target_dir self) p ∉ dirs w) ->
  ∃ w', _generate_file self p names w = (Ret tt, w').
Proof.
  intros Hnd. unfold _generate_file. destruct names as [|n names].
  - by eexists.
  - destruct (print_Ret (py "   📄 生成文件: " ++ path_join (target_dir self) p) w)
      as (w0 & Hp & Hf0 & Hd0).
    edestruct (write_text_ok (path_join (target_dir self) p)) as (w' & Hw & _).
    { rewrite Hd0. by apply Hnd. }
    exists w'. erewrite bind_Ret; [exact Hw | exact Hp].
Qed.

Lemma generate_loop_inv self mapping w w' :
  for_each mapping (generate_body self) w = (Ret tt, w') ->
  (∀ p names, (p, names) ∈ mapping -> names ≠ [] ->
              path_join (target_dir self) p ∉ dirs w)
  ∧ files w' = gen_files self mapping (files w)
  ∧ dirs w' = dirs w.
Proof.
  revert w. induction mapping as [|[p names] mapping IH]; intros w H; simpl in H.
  - injection H as <-. split; [by intros ? ? ?%elem_of_nil | done].
  - apply bind_Ret_inv in H as ([] & w1 & Hg & H).
    apply generate_file_inv in Hg as (Hnd & Hf1 & Hd1).
    apply IH in H as (Hall & Hf & Hd).
    split; [|split].
    + intros p' names' [[= -> ->]|Hin]%elem_of_cons; [done|].
      rewrite <- Hd1. by apply Hall.
    + rewrite Hf, Hf1. done.
    + congruence.
Qed.

Lemma generate_loop_ok self mapping w :
  (∀ p names, (p, names) ∈ mapping -> names ≠ [] ->
              path_join (target_dir self) p ∉ dirs w) ->
  ∃ w', for_each mapping (generate_body self) w = (Ret tt, w').
Proof.
  revert w. induction mapping as [|[p names] mapping IH]; intros w Hall; simpl.
  - by eexists.
  - destruct (generate_file_ok self p names w) as [w1 Hg].
    { apply Hall, list_elem_of_here. }
    pose proof (generate_file_inv _ _ _ _ _ Hg) as (_ & _ & Hd1).
    destruct (IH w1) as [w' Hw'].
    { intros p' names' Hin. rewrite Hd1. by apply Hall, list_elem_of_further. }
    exists w'. erewrite bind_Ret; [exact Hw' | exact Hg].
Qed.

Lemma generate_file_structure_inv self w w' :
  generate_file_structure self w = (Ret tt, w') ->
  let D := dirs_after (target_dir self) w in
  (∀ q, q ∈ made_dirs (target_dir self) directories -> files w !! q = None)
  ∧ (∀ p names, (p, names) ∈ _get_file_mapping (functions self) -> names ≠ [] ->
                path_join (target_dir self) p ∉ D)
  ∧ files w' = gen_files self (_get_file_mapping (functions self)) (files w)
  ∧ dirs w' = D.
Proof.
  unfold generate_file_structure.
  intros ([] & w0 & Hp & ([] & w1 & Hm & Hg)%bind_Ret_inv)%bind_Ret_inv.
  apply print_inv in Hp as [_ [Hf0 Hd0]].
  apply (mkdirs_inv (target_dir self)) in Hm as (Hnone & Hf1 & Hd1).
  apply (generate_loop_inv self) in Hg as (Hnd & Hf & Hd).
  rewrite Hd0 in Hd1. unfold dirs_after. repeat split.
  - intros q Hin. rewrite <- Hf0. by apply Hnone.
  - intros p names Hin Hne. rewrite <- Hd1. exact (Hnd p names Hin Hne).
  - by rewrite Hf, Hf1, Hf0.
  - by rewrite Hd, Hd1.
Qed.

Lemma generate_file_structure_ok self w :
  let D := dirs_after (target_dir self) w in
  (∀ q, q ∈ made_dirs (target_dir self) directories -> files w !! q = None) ->
  (∀ p names, (p, names) ∈ _get_file_mapping (functions self) -> names ≠ [] ->
              path_join (target_dir self) p ∉ D) ->
  ∃ w', generate_file_structure self w = (Ret tt, w').
Proof.
  intros D Hnone Hnd. unfold generate_file_structure.
  destruct (print_Ret (py "🏗️  生成新的文件结构...") w) as (w0 & Hp & Hf0 & Hd0).
  destruct (mkdirs_ok (target_dir self) directories w0) as [w1 Hm].
  { intros q Hin. rewrite Hf0. by apply Hnone. }
  pose proof (mkdirs_inv _ _ _ _ Hm) as (_ & _ & Hd1).
  destruct (generate_loop_ok self (_get_file_mapping (functions self)) w1) as [w' Hg].
  { intros p names Hin Hne. rewrite Hd1, Hd0. exact (Hnd p names Hin Hne). }
  exists w'. erewrite bind_Ret; [|exact Hp]. erewrite bind_Ret; [exact Hg | exact Hm].
Qed.

Lemma summary_inv self w w' :
  generate_summary_report self w = (Ret tt, w') ->
  (report_path (target_dir self) ∉ dirs w)
  ∧ (∃ wr, files w' = <[report_path (target_dir self) := report_content self wr]>
                        (files w))
  ∧ dirs w' = dirs w.
Proof.
  unfold generate_summary_report.
  intros ([] & w0 & Hp & Hw)%bind_Ret_inv.
  apply print_inv in Hp as [_ [Hf0 Hd0]].
  apply write_text_inv in Hw as (Hnd & Hf & Hd).
  rewrite Hd0 in Hnd, Hd. rewrite Hf0 in Hf. eauto.
Qed.

Lemma summary_ok self w :
  report_path (target_dir self) ∉ dirs w ->
  ∃ w', generate_summary_report self w = (Ret tt, w').
Proof.
  intros Hnd. unfold generate_summary_report.
  destruct (print_Ret (py "📊 生成重构报告: "
              ++ path_join (target_dir self) (py "REFACTORING_SUMMARY.md")) w)
    as (w0 & Hp & Hf0 & Hd0).
  edestruct (write_text_ok (report_path (target_dir self))) as (w' & Hw & _).
  { rewrite Hd0. exact Hnd. }
  exists w'. erewrite bind_Ret; [exact Hw | exact Hp].
Qed.

Section RunFacts.
Variable word_char : N -> bool.

Lemma analyze_inv source_file target_dir w self' w' :
  analyze_source_file word_char (init source_file target_dir) w = (Ret self', w') ->
  ∃ content, files w !! source_file = Some content
             ∧ self' = analyzed word_char source_file target_dir content
             ∧ same_fs w w'.
Proof.
  unfold analyze_source_file.
  intros ([] & w0 & Hp & (content & w1 & Hr & Hq)%bind_Ret_inv)%bind_Ret_inv.
  apply print_inv in Hp as [_ [Hf0 Hd0]].
  unfold read_text in Hr. simpl in Hr. rewrite Hf0 in Hr.
  destruct (files w !! source_file) as [c|] eqn:Hc; [|by case_bool_decide].
  injection Hr as -> ->.
  apply bind_Ret_inv in Hq as ([] & w2 & Hp2 & [= <- <-]).
  apply print_inv in Hp2 as [_ [Hf2 Hd2]].
  exists content. repeat split; congruence.
Qed.

Lemma analyze_ok source_file target_dir content w :
  files w !! source_file = Some content ->
  ∃ w', analyze_source_file word_char (init source_file target_dir) w
        = (Ret (analyzed word_char source_file target_dir content), w').
Proof.
  intros Hc. unfold analyze_source_file, mbind, M_bind, print, read_text. simpl.
  rewrite Hc. by eexists.
Qed.

Lemma pipeline_inv source_file target_dir w w' :
  pipeline word_char (init source_file target_dir) w = (Ret tt, w') ->
  ∃ content R,
    run_conditions source_file target_dir content w
    ∧ files w' = <[report_path target_dir := R]>
                   (gen_files (analyzed word_char source_file target_dir content)
                      (_get_file_mapping (_extract_functions content)) (files w))
    ∧ dirs w' = dirs_after target_dir w
    ∧ (∃ wr, R = report_content (analyzed word_char source_file target_dir content) wr).
Proof.
  unfold pipeline.
  intros (self' & w1 & Ha & H)%bind_Ret_inv.
  apply analyze_inv in Ha as (content & Hc & -> & [Hf1 Hd1]).
  apply bind_Ret_inv in H as ([] & w2 & [_ [Hf2 Hd2]]%print_inv & H).
  apply bind_Ret_inv in H as ([] & w3 & Hg & H).
  apply generate_file_structure_inv in Hg as (Hnone & Hnd & Hf3 & Hd3).
  apply bind_Ret_inv in H as ([] & w4 & [_ [Hf4 Hd4]]%print_inv & H).
  apply bind_Ret_inv in H as ([] & w5 & Hs & H).
  apply summary_inv in Hs as (Hrep & [wr Hf5] & Hd5).
  repeat (apply bind_Ret_inv in H as ([] & ? & [_ [? ?]]%print_inv & H)).
  apply print_inv in H as [_ [? ?]].
  simpl in *.
  assert (Hd : dirs w3 = dirs_after target_dir w).
  { rewrite Hd3. unfold dirs_after. by rewrite Hd2, Hd1. }
  exists content, (report_content (analyzed word_char source_file target_dir content) wr).
  split; [|split; [|split; [|by exists wr]]].
  - split; [done|]. split; [|split].
    + intros d Hin. rewrite <- Hf1, <- Hf2. by apply Hnone.
    + intros p names Hin Hne. rewrite <- Hd, Hd3. exact (Hnd p names Hin Hne).
    + by rewrite <- Hd, <- Hd4.
  - transitivity (files w5); [congruence|].
    rewrite Hf5, Hf4, Hf3, Hf2, Hf1. done.
  - transitivity (dirs w5); [congruence|]. by rewrite Hd5, Hd4.
Qed.
End RunFacts.

Lemma no_exit_bind {A B} (m : M A) (f : A -> M B) :
  no_exit m -> (∀ a, no_exit (f a)) -> no_exit (m ≫= f).
Proof.
  intros Hm Hf w c w'. unfold mbind, M_bind.
  destruct (m w) as [[a|e|c'] w1] eqn:E; [apply Hf | done | by apply Hm in E].
Qed.

Lemma no_exit_ret {A} (a : A) : no_exit (mret a).
Proof. by intros w c w'. Qed.

Lemma no_exit_print line : no_exit (print line).
Proof. by intros w c w'. Qed.

Lemma no_exit_read path : no_exit (read_text path).
Proof.
  intros w c w'. unfold read_text.
  destruct (files w !! path); [done|]. by case_bool_decide.
Qed.

Lemma no_exit_write path text : no_exit (write_text path text).
Proof. intros w c w'. unfold write_text. by case_bool_decide. Qed.

Lemma no_exit_mkdir path : no_exit (mkdir path).
Proof.
  intros w c w'. unfold mkdir. destruct (existsb _ _); [done|]. by case_bool_decide.
Qed.

Lemma no_exit_for_each {A} (l : list A) f :
  (∀ x, no_exit (f x)) -> no_exit (for_each l f).
Proof.
  intros Hf. induction l as [|x l IH]; simpl.
  - apply no_exit_ret.
  - apply no_exit_bind; [apply Hf | by intros _].
Qed.

Create HintDb no_exit.
#[local] Hint Resolve no_exit_ret no_exit_print no_exit_read no_exit_write
  no_exit_mkdir : no_exit.

Lemma no_exit_generate_file self p names : no_exit (_generate_file self p names).
Proof.
  unfold _generate_file. destruct names; [apply no_exit_ret|].
  apply no_exit_bind; auto with no_exit.
Qed.

Lemma no_exit_pipeline word_char self : no_exit (pipeline word_char self).
Proof.
  unfold pipeline, analyze_source_file, generate_file_structure,
    generate_summary_report.
  repeat first
    [ apply no_exit_bind; [|intros ?]
    | apply no_exit_for_each; intros ?
    | apply no_exit_generate_file
    | match goal with |- no_exit (let '(_, _) := ?x in _) => destruct x end
    | progress auto with no_exit
    | intros w c w'; apply no_exit_write ].
Qed.

Section RunFacts2.
Variable word_char : N -> bool.

Lemma pipeline_ok source_file target_dir content w :
  run_conditions source_file target_dir content w ->
  ∃ w', pipeline word_char (init source_file target_dir) w = (Ret tt, w').
Proof.
  intros (Hc & Hnone & Hnd & Hrep). unfold pipeline.
  destruct (analyze_ok word_char source_file target_dir content w Hc) as [w1 Ha].
  pose proof (analyze_inv _ _ _ _ _ _ Ha) as (c' & _ & _ & [Hf1 Hd1]).
  destruct (print_Ret [] w1) as (w2 & Hp2 & Hf2 & Hd2).
  destruct (generate_file_structure_ok
              (analyzed word_char source_file target_dir content) w2) as [w3 Hg].
  { intros q Hin. simpl. rewrite Hf2, Hf1. by apply Hnone. }
  { intros p names Hin Hne. unfold dirs_after in *. simpl.
    rewrite Hd2, Hd1. exact (Hnd p names Hin Hne). }
  pose proof (generate_file_structure_inv _ _ _ Hg) as (_ & _ & _ & Hd3).
  unfold dirs_after in *.
  destruct (print_Ret [] w3) as (w4 & Hp4 & Hf4 & Hd4).
  destruct (summary_ok (analyzed word_char source_file target_dir content) w4)
    as [w5 Hs].
  { simpl. rewrite Hd4, Hd3. simpl. rewrite Hd2, Hd1. exact Hrep. }
  erewrite bind_Ret; [|exact Ha]. erewrite bind_Ret; [|exact Hp2].
  erewrite bind_Ret; [|exact Hg]. erewrite bind_Ret; [|exact Hp4].
  erewrite bind_Ret; [|exact Hs]. eexists. reflexivity.
Qed.

(** [main] returns after the whole of [pipeline], or leaves with
    [sys.exit(1)]. *)
Lemma main_outcome argv w r w' :
  main word_char argv w = (r, w') ->
  (r = Ret tt
   ∧ ∃ prog source_file target_dir w0,
       argv = [prog; source_file; target_dir]
       ∧ same_fs w w0
       ∧ pipeline word_char (init source_file target_dir) w0 = (Ret tt, w'))
  ∨ r = Exit 1.
Proof.
  unfold main.
  destruct argv as [|prog [|source_file [|target_dir [|x argv]]]];
    cbn [length Nat.eqb negb];
    try (intros [= <- <-]; by right).
  cbn [lookup list_lookup default from_option id].
  unfold mbind at 1, M_bind at 1, path_exists at 1.
  destruct (exists_in w source_file); cbn [negb].
  2:{ intros [= <- _]. by right. }
  intros H.
  destruct (print_Ret (py "🚀 开始Telegram Handler重构...") w) as (w1 & Hp1 & S1).
  erewrite bind_Ret in H by exact Hp1.
  destruct (print_Ret (py "📁 源文件: " ++ source_file) w1) as (w2 & Hp2 & S2).
  erewrite bind_Ret in H by exact Hp2.
  destruct (print_Ret (py "📁 目标目录: " ++ target_dir) w2) as (w3 & Hp3 & S3).
  erewrite bind_Ret in H by exact Hp3.
  destruct (print_Ret [] w3) as (w4 & Hp4 & S4).
  erewrite bind_Ret in H by exact Hp4.
  unfold try_except in H.
  destruct (pipeline word_char (init source_file target_dir) w4)
    as [[[]|e|c] w5] eqn:Hpipe.
  + injection H as <- <-. left. split; [done|].
    exists prog, source_file, target_dir, w4. split; [done|]. split; [|done].
    eauto using same_fs_trans.
  + right. by injection H as <- _.
  + by apply no_exit_pipeline in Hpipe.
Qed.

(** A run that ends with status 0 had three arguments and went through
    the whole of [pipeline]. *)
Lemma run_inv argv w w' :
  run word_char argv w = (0%Z, w') ->
  ∃ prog source_file target_dir content R,
    argv = [prog; source_file; target_dir]
    ∧ run_conditions source_file target_dir content w
    ∧ files w' = <[report_path target_dir := R]>
                   (gen_files (analyzed word_char source_file target_dir content)
                      (_get_file_mapping (_extract_functions content)) (files w))
    ∧ dirs w' = dirs_after target_dir w
    ∧ (∃ wr, R = report_content (analyzed word_char source_file target_dir content) wr).
Proof.
  unfold run. destruct (main word_char argv w) as [r w1] eqn:Hm.
  intros [= Hr ->].
  apply main_outcome in Hm as [[-> Hm]| ->]; [|done].
  destruct Hm as (prog & source_file & target_dir & w0 & -> & [Hf0 Hd0] & Hp).
  apply pipeline_inv in Hp as (content & R & Hc & Hf & Hd & HR).
  exists prog, source_file, target_dir, content, R. split; [done|].
  unfold run_conditions, dirs_after in *. rewrite Hf0, Hd0 in *. done.
Qed.

Lemma run_ok prog source_file target_dir content w :
  run_conditions source_file target_dir content w ->
  ∃ w', run word_char [prog; source_file; target_dir] w = (0%Z, w').
Proof.
  intros Hc. unfold run, main. cbn [length Nat.eqb negb lookup list_lookup default from_option id].
  unfold mbind at 1, M_bind at 1, path_exists at 1.
  assert (Hex : exists_in w source_file = true).
  { unfold exists_in. destruct Hc as [-> _]. rewrite bool_decide_true by eauto. done. }
  rewrite Hex. cbn [negb].
  destruct (print_Ret (py "🚀 开始Telegram Handler重构...") w) as (w1 & Hp1 & S1).
  erewrite bind_Ret by exact Hp1.
  destruct (print_Ret (py "📁 源文件: " ++ source_file) w1) as (w2 & Hp2 & S2).
  erewrite bind_Ret by exact Hp2.
  destruct (print_Ret (py "📁 目标目录: " ++ target_dir) w2) as (w3 & Hp3 & S3).
  erewrite bind_Ret by exact Hp3.
  destruct (print_Ret [] w3) as (w4 & Hp4 & S4).
  erewrite bind_Ret by exact Hp4.
  destruct (pipeline_ok source_file target_dir content w4) as [w5 Hpipe].
  { assert (S : same_fs w w4) by eauto using same_fs_trans.
    destruct S as [Hf Hd]. unfold run_conditions, dirs_after in *.
    rewrite Hf, Hd. done. }
  unfold try_except. rewrite Hpipe. by eexists.
Qed.
End RunFacts2.

(** ** The paths a computation writes *)

Section WritesOnly.
Context {A B : Type}.
Implicit Types Q : list N -> Prop.

Lemma writes_only_mono Q Q' (m : M A) :
  (∀ q, Q q -> Q' q) -> writes_only Q m -> writes_only Q' m.
Proof. intros HQ Hm w q Hq. apply Hm. auto. Qed.

Lemma writes_only_bind Q (m : M A) (f : A -> M B) :
  writes_only Q m ->
  (∀ w a w', m w = (Ret a, w') -> writes_only Q (f a)) ->
  writes_only Q (m ≫= f).
Proof.
  intros Hm Hf w q Hq. specialize (Hm w q Hq). unfold mbind, M_bind.
  destruct (m w) as [[a|e|c] w1] eqn:E; simpl in *; [|done|done].
  rewrite (Hf w a w1 E w1 q Hq). done.
Qed.

Lemma writes_only_ret Q (a : A) : writes_only Q (mret a).
Proof. by intros w q _. Qed.

Lemma writes_only_try Q (m : M A) (h : exn -> M A) :
  writes_only Q m -> (∀ e, writes_only Q (h e)) ->
  writes_only Q (try_except m h).
Proof.
  intros Hm Hh w q Hq. specialize (Hm w q Hq). unfold try_except.
  destruct (m w) as [[a|e|c] w1] eqn:E; simpl in *; [done| |done].
  by rewrite (Hh e w1 q Hq).
Qed.
End WritesOnly.

Lemma writes_only_print Q line : writes_only Q (print line).
Proof. by intros w q _. Qed.

Lemma writes_only_exit Q c : writes_only Q (sys_exit (A:=unit) c).
Proof. by intros w q _. Qed.

Lemma writes_only_read Q path : writes_only Q (read_text path).
Proof.
  intros w q _. unfold read_text. destruct (files w !! path); [done|].
  by case_bool_decide.
Qed.

Lemma writes_only_mkdir Q path : writes_only Q (mkdir path).
Proof.
  intros w q _. unfold mkdir. destruct (existsb _ _); [done|]. by case_bool_decide.
Qed.

Lemma writes_only_write (Q : list N -> Prop) path text :
  Q path -> writes_only Q (write_text path text).
Proof.
  intros HQ w q Hq. unfold write_text. case_bool_decide; [done|]. simpl.
  apply lookup_insert_ne. by intros ->.
Qed.

Lemma writes_only_for_each {A} Q (l : list A) (f : A -> M unit) :
  (∀ x, x ∈ l -> writes_only Q (f x)) -> writes_only Q (for_each l f).
Proof.
  induction l as [|x l IH]; intros Hf; simpl.
  - apply writes_only_ret.
  - apply writes_only_bind; [apply Hf, list_elem_of_here|].
    intros _ _ _ _. apply IH. intros y Hy. by apply Hf, list_elem_of_further.
Qed.

Lemma writes_only_generate_file self p names :
  writes_only (fun q => names ≠ [] ∧ q = path_join (target_dir self) p)
    (_generate_file self p names).
Proof.
  unfold _generate_file. destruct names as [|n names]; [apply writes_only_ret|].
  apply writes_only_bind; [apply writes_only_print|]. intros _ _ _ _.
  by apply writes_only_write.
Qed.

Lemma writes_only_generate_file_structure self :
  writes_only (written_paths (target_dir self) (functions self))
    (generate_file_structure self).
Proof.
  unfold generate_file_structure.
  apply writes_only_bind; [apply writes_only_print|]. intros _ _ _ _.
  apply writes_only_bind.
  - apply writes_only_for_each. intros d _.
    apply writes_only_bind; [apply writes_only_mkdir|]. intros _ _ _ _.
    apply writes_only_print.
  - intros _ _ _ _. apply writes_only_for_each. intros [p names] Hin.
    eapply writes_only_mono; [|apply writes_only_generate_file].
    intros q [Hne ->]. by exists p, names.
Qed.

Lemma writes_only_summary self :
  writes_only (fun q => q = report_path (target_dir self))
    (generate_summary_report self).
Proof.
  unfold generate_summary_report.
  apply writes_only_bind; [apply writes_only_print|]. intros _ _ _ _.
  intros w q Hq.
  by apply (writes_only_write (fun q => q = report_path (target_dir self))).
Qed.

Lemma writes_only_pipeline word_char source_file target_dir :
  writes_only (run_paths target_dir)
    (pipeline word_char (init source_file target_dir)).
Proof.
  unfold pipeline. apply writes_only_bind.
  { unfold analyze_source_file.
    apply writes_only_bind; [apply writes_only_print|]. intros _ _ _ _.
    apply writes_only_bind; [apply writes_only_read|]. intros _ content _ _.
    apply writes_only_bind; [apply writes_only_print|]. intros _ _ _ _.
    apply writes_only_ret. }
  intros w self' w' (content & _ & -> & _)%analyze_inv.
  apply writes_only_bind; [apply writes_only_print|]. intros _ _ _ _.
  apply writes_only_bind.
  { eapply writes_only_mono; [|apply writes_only_generate_file_structure].
    intros q Hq. right. by exists content. }
  intros _ _ _ _.
  apply writes_only_bind; [apply writes_only_print|]. intros _ _ _ _.
  apply writes_only_bind.
  { eapply writes_only_mono; [|apply writes_only_summary]. intros q ->. by left. }
  intros _ _ _ _.
  repeat (apply writes_only_bind; [apply writes_only_print|]; intros _ _ _ _).
  apply writes_only_print.
Qed.

Lemma writes_only_main word_char prog source_file target_dir :
  writes_only (run_paths target_dir)
    (main word_char [prog; source_file; target_dir]).
Proof.
  unfold main. cbn [length Nat.eqb negb lookup list_lookup default from_option id].
  apply writes_only_bind; [by intros w q _|]. intros _ found _ _.
  destruct found; cbn [negb].
  - repeat (apply writes_only_bind; [apply writes_only_print|]; intros _ _ _ _).
    apply writes_only_try; [apply writes_only_pipeline|]. intros e.
    apply writes_only_bind; [apply writes_only_print|]. intros _ _ _ _.
    apply writes_only_exit.
  - apply writes_only_bind; [apply writes_only_print|]. intros _ _ _ _.
    apply writes_only_exit.
Qed.

Lemma main_usage_files word_char argv w :
  length argv ≠ 3%nat -> files (main word_char argv w).2 = files w.
Proof.
  intros Hlen. unfold main.
  destruct (length argv =? 3)%nat eqn:E; [by apply Nat.eqb_eq in E|]. done.
Qed.

Lemma path_join_inj target a b : path_join target a = path_join target b -> a = b.
Proof. unfold path_join. by intros H%app_inv_head. Qed.

Lemma run_world word_char argv w :
  (run word_char argv w).2 = (main word_char argv w).2.
Proof. unfold run. by destruct (main word_char argv w). Qed.

Lemma validator_not_run_path target :
  ¬ run_paths target (path_join target (py "utils/validator.go")).
Proof.
  intros [H|(content & p & names & Hin & Hne & H)].
  - apply path_join_inj in H. vm_compute in H. discriminate H.
  - apply path_join_inj in H as <-.
    apply file_mapping_elem in Hin as [_ ->].
    by rewrite validator_list_empty in Hne.
Qed.

(** C10: whatever the source text, the list of ['utils/validator.go'] is
    empty and a run leaves that path as it found it.  A name classified
    ['util'] starts with one of [format], [escape], [split], [encode],
    [decode], and the routing sends it to the formatter, the message sender
    or the encoder, so the validator branch is never taken. *)
Theorem validator_never_assigned
    (word_char : N -> bool) (content : list N) (argv : list (list N)) (w : world) :
  (∀ name, _categorize_function name = py "util" ->
     (∃ prefix rest, prefix ∈ util_prefixes ∧ name = prefix ++ rest)
     ∧ (route name (py "util") = Some (py "utils/formatter.go")
        ∨ route name (py "util") = Some (py "utils/message_sender.go")
        ∨ route name (py "util") = Some (py "utils/encoder.go")))
  ∧ Dict.get (py "utils/validator.go")
      (_get_file_mapping (_extract_functions content)) = Some []
  ∧ (∀ path names, (path, names) ∈ _get_file_mapping (_extract_functions content) ->
       path = py "utils/validator.go" -> names = [])
  ∧ files (run word_char argv w).2
      !! path_join (default [] (argv !! 2%nat)) (py "utils/validator.go")
    = files w !! path_join (default [] (argv !! 2%nat)) (py "utils/validator.go").
Proof.
  split; [|split; [|split]].
  - intros name Hu. split; [by apply categorize_util_prefix | by apply route_util].
  - rewrite file_mapping_get, validator_list_empty; [done|].
    apply (bool_decide_unpack _). by vm_compute.
  - intros path names [_ ->]%file_mapping_elem ->. apply validator_list_empty.
  - rewrite run_world.
    destruct (decide (length argv = 3%nat)) as [Hlen|Hlen].
    + destruct argv as [|prog [|source_file [|target_dir [|x argv]]]]; try done.
      cbn [lookup list_lookup default from_option id].
      apply writes_only_main, validator_not_run_path.
    + by rewrite main_usage_files.
Qed.

(** ** The files after the writing loop *)

Lemma gen_files_cons self p names mapping F :
  gen_files self ((p, names) :: mapping) F
  = gen_files self mapping
      match names with
      | [] => F
      | _ :: _ =>
        <[path_join (target_dir self) p :=
            file_content (source_file self) (functions self) p names]> F
      end.
Proof. done. Qed.

Lemma gen_files_other self mapping F q :
  (∀ p names, (p, names) ∈ mapping -> names ≠ [] ->
              q ≠ path_join (target_dir self) p) ->
  gen_files self mapping F !! q = F !! q.
Proof.
  revert F. induction mapping as [|[p names] mapping IH]; intros F Hq; [done|].
  rewrite gen_files_cons.
  rewrite IH by (intros p' names' Hin; apply Hq; by apply list_elem_of_further).
  destruct names as [|n names]; [done|].
  apply lookup_insert_ne. intros Heq. symmetry in Heq.
  assert (Hin : (p, n :: names) ∈ (p, n :: names) :: mapping) by apply list_elem_of_here.
  exact (Hq p (n :: names) Hin ltac:(done) Heq).
Qed.

Lemma gen_files_lookup self mapping F p names :
  NoDup (Dict.keys mapping) ->
  (p, names) ∈ mapping ->
  gen_files self mapping F !! path_join (target_dir self) p
  = match names with
    | [] => F !! path_join (target_dir self) p
    | _ :: _ => Some (file_content (source_file self) (functions self) p names)
    end.
Proof.
  revert F. induction mapping as [|[p0 names0] mapping IH]; intros F Hnd Hin.
  { by apply elem_of_nil in Hin. }
  unfold Dict.keys in Hnd. simpl in Hnd. apply NoDup_cons in Hnd as [Hp0 Hnd].
  rewrite gen_files_cons.
  apply elem_of_cons in Hin as [[= <- <-]|Hin].
  - rewrite gen_files_other.
    + destruct names as [|n names]; [done|]. apply lookup_insert_eq.
    + intros p' names' Hin _ Heq%path_join_inj. subst p'.
      apply Hp0. apply list_elem_of_fmap. by exists (p, names').
  - rewrite (IH _ Hnd Hin). destruct names as [|n names]; [|done].
    destruct names0 as [|n0 names0]; [done|].
    apply lookup_insert_ne. intros Heq%path_join_inj. subst p0.
    apply Hp0. apply list_elem_of_fmap. by exists (p, []).
Qed.

Lemma file_mapping_NoDup functions : NoDup (Dict.keys (_get_file_mapping functions)).
Proof.
  unfold _get_file_mapping. rewrite mapping_fold_keys. apply empty_mapping_NoDup.
Qed.

Lemma routed_to_sublist path functions :
  sublist (routed_to path functions) (Dict.keys functions).
Proof.
  induction functions as [|[n e] functions IH]; [constructor|].
  rewrite routed_to_cons. unfold Dict.keys. simpl.
  destruct (decide _); by constructor.
Qed.

(** C8: the writer makes a file only for a destination whose list is not
    empty: the path of a destination with an empty list is left as it was,
    however the call ends; a file it writes is the package line made from
    the first path segment,
    the two comment lines with the source file, the empty import block,
    then, for each name of the list in the order of the list, the comment
    line of the name and the stored body; the list holds the names routed
    to the destination in the order of [self.functions]. *)
Theorem writer_output (self : helper) :
  (∀ w path,
     (path, []) ∈ _get_file_mapping (functions self) ->
     files (generate_file_structure self w).2 !! path_join (target_dir self) path
     = files w !! path_join (target_dir self) path)
  ∧ (∀ relative_path w, _generate_file self relative_path [] w = (Ret tt, w))
  ∧ (∀ w w' path names,
       generate_file_structure self w = (Ret tt, w') ->
       (path, names) ∈ _get_file_mapping (functions self) ->
       names ≠ [] ->
       files w' !! path_join (target_dir self) path
       = Some (py "package " ++ split_head (chr "/") path ++ [nl; nl]
               ++ py "// 此文件由重构脚本自动生成" ++ [nl]
               ++ py "// 源文件: " ++ source_file self ++ [nl; nl]
               ++ py "import (" ++ [nl; tab]
               ++ py "// TODO: 添加必要的导入" ++ [nl]
               ++ py ")" ++ [nl; nl]
               ++ concat (map (block_of (functions self)) names)))
  ∧ (∀ func_name func_info,
       Dict.get func_name (functions self) = Some func_info ->
       block_of (functions self) func_name
       = py "// " ++ func_name ++ py " - 从原文件迁移" ++ [nl]
         ++ body func_info ++ [nl; nl])
  ∧ (∀ path names,
       (path, names) ∈ _get_file_mapping (functions self) ->
       names = routed_to path (functions self)
       ∧ sublist names (Dict.keys (functions self))
       ∧ (∀ name, name ∈ names -> is_Some (Dict.get name (functions self)))).
Proof.
  split.
  { intros w path Hin. apply writes_only_generate_file_structure.
    intros (p & names & Hin' & Hne & ->%path_join_inj).
    pose proof (file_mapping_NoDup (functions self)) as Hnd.
    apply (dict_elem_get _ _ _ Hnd) in Hin, Hin'. congruence. }
  split; [done|]. split; [|split].
  - intros w w' path names Hg Hin Hne.
    apply generate_file_structure_inv in Hg as (_ & _ & -> & _).
    rewrite (gen_files_lookup self _ _ path names (file_mapping_NoDup _) Hin).
    destruct names as [|n names]; [done|].
    rewrite file_content_blocks. unfold file_header.
    by rewrite <- !app_assoc.
  - intros func_name func_info Hget. unfold block_of, file_block.
    rewrite Hget. by rewrite <- !app_assoc.
  - intros path names [_ ->]%file_mapping_elem.
    split; [done|]. split; [apply routed_to_sublist|].
    intros name (info & Hin & _)%routed_to_elem.
    destruct (Dict.get name (functions self)) eqn:Hget; [eauto|].
    apply dict_get_None in Hget. destruct Hget.
    apply list_elem_of_fmap. by exists (name, info).
Qed.

(** ** Two runs *)

Lemma ancestors_elem path q :
  q ∈ ancestors path ->
  ∃ i, path !! i = Some (chr "/") ∧ q = take i path ∧ (i < length path)%nat.
Proof.
  unfold ancestors. intros (i & Hi & Hq)%list_elem_of_omap.
  apply elem_of_seq in Hi as [_ Hi]. exists i.
  destruct (bool_decide (path !! i = Some (chr "/"))) eqn:E; [|done].
  apply bool_decide_eq_true_1 in E. cbn [andb] in Hq.
  destruct (negb _); [|done]. injection Hq as <-. split; [done|]. split; [done|lia].
Qed.

Lemma directories_no_slash d : d ∈ directories -> chr "/" ∉ d.
Proof.
  intros Hd.
  assert (H : Forall (fun d => chr "/" ∉ d) directories).
  { apply (bool_decide_unpack _). by vm_compute. }
  rewrite Forall_forall in H. by apply H.
Qed.

Lemma ancestors_join_short target d q :
  d ∈ directories -> q ∈ ancestors (path_join target d) ->
  (length q < length (path_prefix target))%nat.
Proof.
  intros Hd (i & Hi & -> & Hlt)%ancestors_elem. unfold path_join in *.
  apply lookup_app_Some in Hi as [Hi|[_ Hi]].
  - apply lookup_lt_Some in Hi. rewrite length_take. lia.
  - apply list_elem_of_lookup_2 in Hi. by apply directories_no_slash in Hi.
Qed.

Lemma made_dirs_elem target ds q :
  q ∈ made_dirs target ds ->
  ∃ d, d ∈ ds ∧ (q = path_join target d ∨ q ∈ ancestors (path_join target d)).
Proof.
  intros (d & Hq & Hd)%list_elem_of_bind. exists d. split; [done|].
  by apply elem_of_cons in Hq.
Qed.

(** The directories the run makes are none of the paths it writes. *)
Lemma made_dir_not_join target q x :
  q ∈ made_dirs target directories -> x ∉ directories -> q ≠ path_join target x.
Proof.
  intros (d & Hd & [->|Hq])%made_dirs_elem Hx.
  - intros ->%path_join_inj. done.
  - intros ->. apply (ancestors_join_short _ _ _ Hd) in Hq.
    unfold path_join in Hq. rewrite length_app in Hq. lia.
Qed.

Lemma dirs_after_idem target w w1 :
  dirs w1 = dirs_after target w -> dirs_after target w1 = dirs_after target w.
Proof. unfold dirs_after. intros ->. set_solver. Qed.

Lemma directories_not_keys d :
  d ∈ directories ->
  (d ∉ Dict.keys empty_mapping) ∧ d ≠ py "REFACTORING_SUMMARY.md".
Proof.
  intros Hd.
  assert (H : Forall (fun d => (d ∉ Dict.keys empty_mapping)
                               ∧ d ≠ py "REFACTORING_SUMMARY.md") directories).
  { apply (bool_decide_unpack _). by vm_compute. }
  rewrite Forall_forall in H. by apply H.
Qed.

Lemma key_not_directory x :
  x ∈ Dict.keys empty_mapping ∨ x = py "REFACTORING_SUMMARY.md" -> x ∉ directories.
Proof.
  intros Hx Hd. destruct (directories_not_keys x Hd) as [Hk Hr].
  by destruct Hx.
Qed.

Lemma report_not_key : py "REFACTORING_SUMMARY.md" ∉ Dict.keys empty_mapping.
Proof. apply (bool_decide_unpack _). by vm_compute. Qed.

Lemma file_mapping_key functions p names :
  (p, names) ∈ _get_file_mapping functions -> p ∈ Dict.keys empty_mapping.
Proof. by intros [? _]%file_mapping_elem. Qed.

(** C9: when a run has ended with status 0 and the source file still holds
    the text it held, a second run with the same arguments ends with status
    0 as well and every destination path has after it the content it had
    after the first: a file written by the first run is written again with
    the same text, a path the first run did not write is not written. *)
Theorem second_run_same_files
    (word_char : N -> bool) (argv : list (list N)) (w0 w1 : world) :
  run word_char argv w0 = (0%Z, w1) ->
  files w1 !! default [] (argv !! 1%nat) = files w0 !! default [] (argv !! 1%nat) ->
  ∃ w2, run word_char argv w1 = (0%Z, w2)
        ∧ ∀ path, path ∈ Dict.keys empty_mapping ->
            files w2 !! path_join (default [] (argv !! 2%nat)) path
            = files w1 !! path_join (default [] (argv !! 2%nat)) path.
Proof.
  intros Hrun1 Hsame.
  apply run_inv in Hrun1
    as (prog & source_file & target_dir & content & R & -> & Hc & Hf1 & Hd1 & _).
  cbn [lookup list_lookup default from_option id] in *.
  destruct Hc as (Hsrc & Hnone & Hnd & Hrep).
  set (self := analyzed word_char source_file target_dir content) in *.
  set (mapping := _get_file_mapping (_extract_functions content)) in *.
  assert (Hother : ∀ q, q ≠ report_path target_dir ->
            (∀ p, p ∈ Dict.keys empty_mapping -> q ≠ path_join target_dir p) ->
            files w1 !! q = files w0 !! q).
  { intros q Hq1 Hq2. rewrite Hf1, lookup_insert_ne by done.
    apply gen_files_other. intros p names Hin _.
    apply (Hq2 p). by apply file_mapping_key in Hin. }
  assert (Hc1 : run_conditions source_file target_dir content w1).
  { split; [congruence|]. rewrite (dirs_after_idem _ _ _ Hd1). split; [|done].
    intros q Hq. rewrite Hother; [by apply Hnone| |].
    - apply (made_dir_not_join _ _ _ Hq), key_not_directory. by right.
    - intros p Hp. apply (made_dir_not_join _ _ _ Hq), key_not_directory. by left. }
  destruct (run_ok word_char prog source_file target_dir content w1 Hc1) as [w2 Hrun2].
  exists w2. split; [done|]. intros path Hpath.
  apply run_inv in Hrun2 as (? & ? & ? & content' & R' & [= <- <- <-] & Hc2 & Hf2 & _).
  destruct Hc2 as (Hsrc2 & _).
  assert (content' = content) as -> by congruence.
  fold self mapping in Hf2.
  assert (Hrp : report_path target_dir ≠ path_join target_dir path).
  { intros Heq%path_join_inj. subst. by apply report_not_key. }
  assert (Hin : ∃ names, (path, names) ∈ mapping).
  { assert (Hk : path ∈ Dict.keys mapping).
    { unfold mapping, _get_file_mapping. by rewrite mapping_fold_keys. }
    apply list_elem_of_fmap in Hk as ([p names] & -> & Hin). by exists names. }
  destruct Hin as [names Hin].
  rewrite Hf2, lookup_insert_ne by done.
  rewrite (gen_files_lookup self mapping _ path names (file_mapping_NoDup _) Hin).
  destruct names as [|n names]; [done|].
  rewrite Hf1, lookup_insert_ne by done.
  by rewrite (gen_files_lookup self mapping _ path (n :: names)
                (file_mapping_NoDup _) Hin).
Qed.

(** ** Exit status *)

Lemma printed_app l1 l2 w : printed l2 (printed l1 w) = printed (l1 ++ l2) w.
Proof. unfold printed. simpl. by rewrite <- app_assoc. Qed.

Lemma print_printed line w : print line w = (Ret tt, printed [line] w).
Proof. done. Qed.

(** C7: the status is 1, after the two usage lines, when [sys.argv] does not
    hold the program name and two arguments; it is 1, after the line that
    names the missing file, when the source path does not exist; it is 0
    when the [try] block runs to its end, and only then. *)
Theorem exit_status (word_char : N -> bool) (argv : list (list N)) (w : world) :
  (length argv ≠ 3%nat ->
     run word_char argv w = (1%Z, printed usage_lines w))
  ∧ (∀ prog source_file target_dir,
       argv = [prog; source_file; target_dir] ->
       exists_in w source_file = false ->
       run word_char argv w
       = (1%Z, printed [py "❌ 源文件不存在: " ++ source_file] w))
  ∧ (∀ prog source_file target_dir w',
       argv = [prog; source_file; target_dir] ->
       exists_in w source_file = true ->
       pipeline word_char (init source_file target_dir)
         (printed (banner_lines source_file target_dir) w) = (Ret tt, w') ->
       run word_char argv w = (0%Z, w'))
  ∧ (∀ w', run word_char argv w = (0%Z, w') ->
       ∃ prog source_file target_dir,
         argv = [prog; source_file; target_dir]
         ∧ exists_in w source_file = true
         ∧ pipeline word_char (init source_file target_dir)
             (printed (banner_lines source_file target_dir) w) = (Ret tt, w')).
Proof.
  assert (Hthree : ∀ prog source_file target_dir,
    main word_char [prog; source_file; target_dir] w
    = if exists_in w source_file
      then try_except (pipeline word_char (init source_file target_dir))
             (fun e => print (py "❌ 执行过程中发生错误: " ++ exn_str e) ;; sys_exit 1)
             (printed (banner_lines source_file target_dir) w)
      else (Exit 1, printed [py "❌ 源文件不存在: " ++ source_file] w)).
  { intros prog source_file target_dir. unfold main.
    cbn [length Nat.eqb negb lookup list_lookup default from_option id].
    unfold mbind at 1, M_bind at 1, path_exists at 1.
    destruct (exists_in w source_file); cbn [negb]; [|done].
    rewrite !(bind_Ret _ _ _ _ _ (print_printed _ _)), !printed_app. done. }
  split; [|split; [|split]].
  - intros Hlen. unfold run, main.
    destruct (length argv =? 3)%nat eqn:E; [by apply Nat.eqb_eq in E|].
    cbn [negb]. rewrite !(bind_Ret _ _ _ _ _ (print_printed _ _)), printed_app. done.
  - intros prog source_file target_dir -> Hex. unfold run.
    by rewrite Hthree, Hex.
  - intros prog source_file target_dir w' -> Hex Hp. unfold run.
    rewrite Hthree, Hex. unfold try_except. by rewrite Hp.
  - intros w' Hrun. unfold run in Hrun.
    destruct (main word_char argv w) as [r w1] eqn:Hm. injection Hrun as Hr ->.
    pose proof Hm as Hm'.
    apply main_outcome in Hm' as [[-> (prog & source_file & target_dir & w0 & -> & _)]| ->];
      [|done].
    exists prog, source_file, target_dir. split; [done|].
    rewrite Hthree in Hm. destruct (exists_in w source_file); [|done].
    split; [done|]. unfold try_except in Hm.
    destruct (pipeline _ _ _) as [[[]|e|c] w5]; [by injection Hm as -> | done | done].
Qed.

(** ** The two-function scenario *)

(** C6: for the text of the two definitions [handleDownloadCommand] and
    [formatMessage], the first goes to [commands/download.go] and the second
    to [utils/formatter.go], every other list is empty, the files written
    hold the header and the body of the function, and the table of the
    report is the two lines for [command: 1] and [util: 1]. *)
Theorem two_functions_end_to_end (word_char : N -> bool) :
  let functions := _extract_functions two_functions in
  let result := run word_char two_functions_argv two_functions_world in
  map (fun '(name, info) => (name, body info, category info)) functions
  = [ (py "handleDownloadCommand", py "func handleDownloadCommand() {...}", py "command");
      (py "formatMessage", py "func formatMessage() {...}", py "util") ]
  ∧ filter (fun item => item.2 ≠ []) (_get_file_mapping functions)
    = [ (py "commands/download.go", [py "handleDownloadCommand"]);
        (py "utils/formatter.go", [py "formatMessage"]) ]
  ∧ category_lines functions
    = py "- command: 1 个函数" ++ [nl] ++ py "- util: 1 个函数" ++ [nl]
  ∧ result.1 = 0%Z
  ∧ files result.2 !! py "out/commands/download.go"
    = Some (file_header (py "telegram.go") (py "commands")
            ++ py "// handleDownloadCommand - 从原文件迁移" ++ [nl]
            ++ py "func handleDownloadCommand() {...}" ++ [nl; nl])
  ∧ files result.2 !! py "out/utils/formatter.go"
    = Some (file_header (py "telegram.go") (py "utils")
            ++ py "// formatMessage - 从原文件迁移" ++ [nl]
            ++ py "func formatMessage() {...}" ++ [nl; nl])
  ∧ (∃ before after,
       files result.2 !! py "out/REFACTORING_SUMMARY.md"
       = Some (before
               ++ py "## 函数分类统计" ++ [nl]
               ++ py "- command: 1 个函数" ++ [nl]
               ++ py "- util: 1 个函数" ++ [nl]
               ++ [nl] ++ py "## 重构后文件结构" ++ [nl]
               ++ after)).
Proof.
  cbv zeta. split; [by vm_compute|]. split; [by vm_compute|].
  split; [by vm_compute|]. split; [by vm_compute|].
  split; [by vm_compute|]. split; [by vm_compute|].
  exists (py "# Telegram Handler 重构摘要" ++ [nl; nl]
          ++ py "## 原始文件分析" ++ [nl]
          ++ py "- 源文件: `telegram.go`" ++ [nl]
          ++ py "- 函数总数: 2" ++ [nl]
          ++ py "- 常量总数: 0" ++ [nl; nl]).
  eexists. vm_compute. reflexivity.
Qed.

(** ** Located headers *)

Lemma finditer_from_elem r s : ∀ i skip m,
  m ∈ finditer_from r i skip s ->
  ∃ k, (k < length s)%nat ∧ match_at r (i + k) (drop k s) = Some m.
Proof.
  induction s as [|c s IH]; intros i skip m Hm; simpl in Hm.
  { by apply elem_of_nil in Hm. }
  assert (Hrec : ∀ skip', m ∈ finditer_from r (S i) skip' s ->
            ∃ k, (k < length (c :: s))%nat
                 ∧ match_at r (i + k) (drop k (c :: s)) = Some m).
  { intros skip' (k & Hk & Hmatch)%IH. exists (S k). simpl. split; [lia|].
    by replace (i + S k)%nat with (S i + k)%nat by lia. }
  destruct skip as [|n]; [|by apply Hrec in Hm].
  destruct (match_at r i (c :: s)) as [m0|] eqn:Hm0; [|by apply Hrec in Hm].
  apply elem_of_cons in Hm as [->|Hm]; [|by apply Hrec in Hm].
  exists 0%nat. simpl. split; [lia|]. by rewrite Nat.add_0_r.
Qed.

(** A match of [finditer] is a word of the pattern in the text, from
    [m.start()] to [m.end()]. *)
Lemma finditer_elem r content m :
  m ∈ finditer r content ->
  ∃ w rest,
    drop (m_start m) content = w ++ rest
    ∧ lang r w
    ∧ m_end m = (m_start m + length w)%nat
    ∧ (m_start m < length content)%nat.
Proof.
  intros (k & Hk & Hm)%finditer_from_elem. simpl in Hm.
  apply match_at_sound in Hm as (Hs & w & rest & Hd & Hw & He).
  rewrite Hs. eauto 10.
Qed.

Lemma snoc_ex_app (c : N) (a y : list N) :
  (∃ mid, y = mid ++ [c]) -> ∃ mid, a ++ y = mid ++ [c].
Proof. intros [mid ->]. exists (a ++ mid). by rewrite app_assoc. Qed.

Lemma lang_function_pattern w :
  lang function_pattern w -> ∃ mid, w = py "func" ++ mid ++ [chr "{"].
Proof.
  unfold function_pattern. cbn [seqs].
  intros (w1 & r1 & -> & H1 & H). apply lang_lits in H1 as ->.
  repeat match type of H with
         | lang (Seq _ _) _ =>
           let w' := fresh "w" in let r' := fresh "r" in
           destruct H as (w' & r' & -> & _ & H)
         end.
  cbn [lang] in H. subst.
  match goal with
  | |- ∃ mid, ?p ++ ?x = _ =>
    assert (Hx : ∃ mid, x = mid ++ [chr "{"])
      by (repeat apply snoc_ex_app; by exists [])
  end.
  destruct Hx as [mid ->]. by exists mid.
Qed.

(** A header located by [_extract_functions]: it starts with [func] at
    [m.start()] and its last character, at [m.end() - 1], is the opening
    brace. *)
Lemma located_word content m w rest :
  drop (m_start m) content = w ++ rest ->
  lang function_pattern w ->
  m_end m = (m_start m + length w)%nat ->
  ∃ mid,
    drop (m_start m) content = py "func" ++ mid ++ chr "{" :: rest
    ∧ m_end m = (m_start m + length (py "func" ++ mid) + 1)%nat
    ∧ drop (m_end m - 1) content = chr "{" :: rest
    ∧ drop (m_end m) content = rest
    ∧ slice content (m_start m) (m_end m) = py "func" ++ mid ++ [chr "{"].
Proof.
  intros Hd (mid & ->)%lang_function_pattern He.
  exists mid.
  assert (Hd' : drop (m_start m) content = (py "func" ++ mid) ++ chr "{" :: rest).
  { rewrite Hd. by rewrite <- !app_assoc. }
  assert (Hlen : m_end m = (m_start m + length (py "func" ++ mid) + 1)%nat).
  { rewrite He, !length_app. simpl. lia. }
  split; [by rewrite Hd', <- app_assoc|]. split; [done|].
  assert (H1 : drop (m_end m - 1) content = chr "{" :: rest).
  { replace (m_end m - 1)%nat with (m_start m + length (py "func" ++ mid))%nat by lia.
    rewrite <- drop_drop, Hd'. by rewrite drop_app_length. }
  split; [done|]. split.
  - replace (m_end m) with ((m_end m - 1) + 1)%nat at 1 by lia.
    rewrite <- drop_drop, H1. done.
  - unfold slice. rewrite Hd, He.
    replace (m_start m + length (py "func" ++ mid ++ [chr "{"]) - m_start m)%nat
      with (length (py "func" ++ mid ++ [chr "{"])) by lia.
    by rewrite take_app_length.
Qed.

Lemma located_header content m :
  m ∈ finditer function_pattern content ->
  ∃ mid rest,
    drop (m_start m) content = py "func" ++ mid ++ chr "{" :: rest
    ∧ m_end m = (m_start m + length (py "func" ++ mid) + 1)%nat
    ∧ drop (m_end m - 1) content = chr "{" :: rest
    ∧ drop (m_end m) content = rest
    ∧ slice content (m_start m) (m_end m) = py "func" ++ mid ++ [chr "{"].
Proof.
  intros (w & rest & Hd & Hw & He & _)%finditer_elem.
  destruct (located_word content m w rest Hd Hw He) as [mid H]. eauto.
Qed.

(** ** The brace scan *)

Lemma brace_scan_open s pos :
  brace_scan (chr "{" :: s) pos 0 = brace_scan s (S pos) 1.
Proof. done. Qed.

Lemma brace_scan_close rest pos :
  brace_scan (chr "}" :: rest) pos 1 = (pos, 0%Z).
Proof. done. Qed.

Lemma brace_scan_other c s pos bc :
  c ≠ chr "{" -> c ≠ chr "}" ->
  brace_scan (c :: s) pos bc = brace_scan s (S pos) bc.
Proof.
  intros H1 H2. cbn [brace_scan].
  destruct (N.eqb_spec c (chr "{")) as [?|_]; [done|].
  destruct (N.eqb_spec c (chr "}")) as [?|_]; done.
Qed.

Lemma brace_scan_nested s pos bc :
  (1 <= bc)%Z ->
  brace_scan (chr "}" :: s) pos (bc + 1) = brace_scan s (S pos) bc.
Proof.
  intros Hbc. cbn [brace_scan].
  change (chr "}" =? chr "{") with false. change (chr "}" =? chr "}") with true.
  cbn iota.
  destruct (Z.eqb_spec (bc + 1 - 1) 0) as [?|_]; [lia|].
  by replace (bc + 1 - 1)%Z with bc by lia.
Qed.

(** Balanced text is passed over with the depth it was entered with. *)
Lemma brace_scan_balanced inner :
  balanced inner ->
  ∀ t pos bc, (1 <= bc)%Z ->
    brace_scan (inner ++ t) pos bc = brace_scan t (pos + length inner) bc.
Proof.
  induction 1 as [|c s Hc1 Hc2 Hs IH|s s' Hs IHs Hs' IHs']; intros t pos bc Hbc.
  - simpl. by rewrite Nat.add_0_r.
  - cbn [app length]. rewrite brace_scan_other, IH by done. f_equal. lia.
  - cbn [app]. rewrite <- app_assoc. cbn [app brace_scan].
    change (chr "{" =? chr "{") with true. cbn iota.
    rewrite IHs by lia. rewrite brace_scan_nested by done.
    rewrite IHs' by done. f_equal. cbn [length]. rewrite length_app. simpl. lia.
Qed.


(** ** Extraction *)

Lemma extract_entry_scan content m :
  extract_entry content m
  = if ((header_scan content m).2 =? 0)%Z then
      Some (default [] (group content m 2),
            {| receiver := strip (default [] (group content m 1));
               body := slice content (m_start m) ((header_scan content m).1 + 1);
               category := _categorize_function (default [] (group content m 2)) |})
    else None.
Proof.
  unfold extract_entry, header_scan. by destruct (brace_scan _ _ _) as [pos bc].
Qed.

Lemma header_scan_rest content m mid rest :
  drop (m_start m) content = py "func" ++ mid ++ chr "{" :: rest ->
  m_end m = (m_start m + length (py "func" ++ mid) + 1)%nat ->
  drop (m_end m - 1) content = chr "{" :: rest ->
  header_scan content m = brace_scan rest (m_end m) 1.
Proof.
  intros _ He Hd. unfold header_scan. rewrite Hd, brace_scan_open.
  f_equal. lia.
Qed.

Lemma extract_entry_name content m name entry :
  extract_entry content m = Some (name, entry) ->
  name = default [] (group content m 2).
Proof.
  rewrite extract_entry_scan. destruct (_ =? _)%Z; [|done]. by intros [= <- _].
Qed.

Lemma extract_fold_keys content ms functions name :
  name ∈ Dict.keys (fold_left (extract_step content) ms functions) ->
  name ∈ Dict.keys functions
  ∨ ∃ m entry, m ∈ ms ∧ extract_entry content m = Some (name, entry).
Proof.
  revert functions. induction ms as [|m ms IH]; intros fs Hin; simpl in Hin; [by left|].
  apply IH in Hin as [Hin|(m' & entry & Hm' & He)].
  - unfold extract_step in Hin.
    destruct (extract_entry content m) as [[n e]|] eqn:Hm; [|by left].
    rewrite dict_keys_set in Hin.
    destruct (decide (n ∈ Dict.keys fs)); [by left|].
    apply elem_of_app in Hin as [Hin|Hin]; [by left|].
    apply list_elem_of_singleton in Hin as ->.
    right. exists m, e. split; [apply list_elem_of_here | done].
  - right. exists m', entry. split; [by apply list_elem_of_further | done].
Qed.

Lemma extract_fold_NoDup content ms functions :
  NoDup (Dict.keys functions) ->
  NoDup (Dict.keys (fold_left (extract_step content) ms functions)).
Proof.
  revert functions. induction ms as [|m ms IH]; intros fs Hnd; simpl; [done|].
  apply IH. unfold extract_step.
  destruct (extract_entry content m) as [[n e]|]; [|done].
  by apply dict_keys_set_NoDup.
Qed.

Lemma extract_fold_get_keep content ms functions name :
  (∀ m entry, m ∈ ms -> extract_entry content m ≠ Some (name, entry)) ->
  Dict.get name (fold_left (extract_step content) ms functions)
  = Dict.get name functions.
Proof.
  revert functions. induction ms as [|m ms IH]; intros fs Hno; simpl; [done|].
  rewrite IH by (intros m' e Hin; apply Hno; by apply list_elem_of_further).
  unfold extract_step.
  destruct (extract_entry content m) as [[n e]|] eqn:Hm; [|done].
  apply dict_get_set_ne. intros ->.
  by apply (Hno m e (list_elem_of_here _ _)).
Qed.

Lemma extract_fold_key_kept content ms : ∀ functions name,
  name ∈ Dict.keys functions ->
  name ∈ Dict.keys (fold_left (extract_step content) ms functions).
Proof.
  induction ms as [|m ms IH]; intros fs name Hin; cbn [fold_left]; [done|].
  apply IH. unfold extract_step.
  destruct (extract_entry content m) as [[n e]|]; [|done].
  rewrite dict_keys_set. destruct (decide (n ∈ Dict.keys fs)); [done|].
  apply elem_of_app. by left.
Qed.

Lemma dict_key_set {V} k v (d : Dict.dict V) : k ∈ Dict.keys (Dict.set k v d).
Proof.
  rewrite dict_keys_set. destruct (decide (k ∈ Dict.keys d)); [done|].
  apply elem_of_app. right. apply list_elem_of_here.
Qed.

(** C1: for a header located by the pattern scan, when the text after its
    opening brace is balanced text followed by a closing brace, the entry
    stored under the name has as body the text from [func] to that closing
    brace: the header, which ends with the opening brace, the balanced
    text, the closing brace.  The name is a key of the store of
    [_extract_functions], and the entry is the one the store holds for it
    unless a later header stores the same name. *)
Theorem balanced_body_extracted
    (content : list N) (m : match_obj) (inner rest : list N) :
  m ∈ finditer function_pattern content ->
  drop (m_end m) content = inner ++ chr "}" :: rest ->
  balanced inner ->
  ∃ mid name entry,
    slice content (m_start m) (m_end m) = py "func" ++ mid ++ [chr "{"]
    ∧ extract_entry content m = Some (name, entry)
    ∧ body entry = slice content (m_start m) (m_end m + length inner + 1)
    ∧ body entry = (py "func" ++ mid) ++ chr "{" :: inner ++ [chr "}"]
    ∧ balanced (chr "{" :: inner ++ [chr "}"])
    ∧ (∀ functions, Dict.get name (extract_step content functions m) = Some entry)
    ∧ name ∈ Dict.keys (_extract_functions content)
    ∧ (∀ before after,
         finditer function_pattern content = before ++ m :: after ->
         (∀ m' entry', m' ∈ after -> extract_entry content m' ≠ Some (name, entry')) ->
         Dict.get name (_extract_functions content) = Some entry).
Proof.
  intros Hm. pose proof Hm as Hin.
  apply located_header in Hm as (mid & rest0 & Hd & He & Hd1 & Hd2 & Hhead).
  intros Hrest Hbal.
  subst rest0. rewrite Hrest in Hd, Hd1.
  assert (Hscan : header_scan content m = ((m_end m + length inner)%nat, 0%Z)).
  { rewrite (header_scan_rest _ _ _ _ Hd He Hd1).
    rewrite brace_scan_balanced by done. apply brace_scan_close. }
  pose proof (extract_entry_scan content m) as Hentry.
  rewrite Hscan in Hentry. cbn [fst snd Z.eqb] in Hentry.
  eexists mid, _, _. split; [exact Hhead|]. split; [exact Hentry|].
  cbn [body]. split; [done|]. split; [|split; [|split; [|split]]].
  - unfold slice. rewrite Hd.
    replace (py "func" ++ mid ++ chr "{" :: inner ++ chr "}" :: rest)
      with (((py "func" ++ mid) ++ chr "{" :: inner ++ [chr "}"]) ++ rest).
    2:{ rewrite <- !app_assoc. cbn [app]. by rewrite <- app_assoc. }
    rewrite take_app_length'; [done|].
    rewrite !length_app. cbn [length]. rewrite !length_app in He.
    rewrite length_app. cbn [length]. lia.
  - apply (balanced_block inner []); [done | constructor].
  - intros fs. unfold extract_step. rewrite Hentry. apply dict_get_set_eq.
  - apply list_elem_of_split in Hin as (l1 & l2 & Hms).
    unfold _extract_functions, extract_into. rewrite Hms, fold_left_app.
    cbn [fold_left]. apply extract_fold_key_kept.
    unfold extract_step at 1. rewrite Hentry. apply dict_key_set.
  - intros before after Hms Hafter.
    unfold _extract_functions, extract_into. rewrite Hms, fold_left_app.
    cbn [fold_left]. rewrite extract_fold_get_keep by done.
    unfold extract_step at 1. rewrite Hentry. apply dict_get_set_eq.
Qed.


(** C4: the keys of the store are distinct, and the entry of a name is the
    one of its last definition in the text, a definition being a located
    header whose scan closes. *)
Theorem last_definition_wins
    (content : list N) (before : list match_obj) (m : match_obj)
    (after : list match_obj) (name : list N) (entry : func_info) :
  finditer function_pattern content = before ++ m :: after ->
  extract_entry content m = Some (name, entry) ->
  (∀ m' entry', m' ∈ after -> extract_entry content m' ≠ Some (name, entry')) ->
  Dict.get name (_extract_functions content) = Some entry
  ∧ NoDup (Dict.keys (_extract_functions content))
  ∧ (∃ l1 l2, _extract_functions content = l1 ++ (name, entry) :: l2
              ∧ (name ∉ Dict.keys l1) ∧ (name ∉ Dict.keys l2))
  ∧ body entry = slice content (m_start m) ((header_scan content m).1 + 1).
Proof.
  intros Hms Hentry Hafter.
  assert (Hget : Dict.get name (_extract_functions content) = Some entry).
  { unfold _extract_functions, extract_into. rewrite Hms, fold_left_app. simpl.
    rewrite extract_fold_get_keep by done.
    unfold extract_step at 1. rewrite Hentry. apply dict_get_set_eq. }
  assert (Hnd : NoDup (Dict.keys (_extract_functions content))).
  { apply extract_fold_NoDup. constructor. }
  split; [done|]. split; [done|]. split.
  - apply dict_get_Some_elem in Hget.
    apply list_elem_of_split in Hget as (l1 & l2 & Heq). exists l1, l2.
    split; [done|]. rewrite Heq in Hnd. unfold Dict.keys in *.
    rewrite map_app in Hnd. simpl in Hnd.
    apply NoDup_app in Hnd as (_ & Hdisj & [Hn2 _]%NoDup_cons).
    split; [|done]. intros Hin. apply (Hdisj name Hin), list_elem_of_here.
  - rewrite extract_entry_scan in Hentry.
    destruct (_ =? _)%Z; [|done]. by injection Hentry as _ <-.
Qed.

(** ** Deciding balance *)

Lemma closes_open d b r :
  balanced b -> closes d r -> closes d (chr "{" :: b ++ chr "}" :: r).
Proof.
  intros Hb Hr. destruct d as [|d]; simpl in *.
  - by constructor.
  - destruct Hr as (b' & r' & -> & Hb' & Hr').
    exists (chr "{" :: b ++ chr "}" :: b'), r'.
    split; [|split; [by constructor | done]].
    cbn [app]. by rewrite <- app_assoc.
Qed.

Lemma closes_other d c s :
  c ≠ chr "{" -> c ≠ chr "}" -> closes d s -> closes d (c :: s).
Proof.
  intros H1 H2 Hs. destruct d as [|d]; simpl in *.
  - by constructor.
  - destruct Hs as (b & r & -> & Hb & Hr).
    exists (c :: b), r. split; [done|]. split; [by constructor | done].
Qed.

Lemma depth_ok_closes s : ∀ d, depth_ok s d = true -> closes d s.
Proof.
  induction s as [|c s IH]; intros d H; cbn [depth_ok] in H.
  - apply Nat.eqb_eq in H as ->. constructor.
  - destruct (N.eqb_spec c (chr "{")) as [->|H1].
    { apply IH in H as (b & r & -> & Hb & Hr). by apply closes_open. }
    destruct (N.eqb_spec c (chr "}")) as [->|H2].
    + destruct d as [|d]; [done|]. apply IH in H.
      exists [], s. split; [done|]. split; [constructor | done].
    + apply closes_other; auto.
Qed.

Lemma depth_ok_balanced s : depth_ok s 0 = true -> balanced s.
Proof. apply (depth_ok_closes s 0). Qed.

(** ** Instances *)

(** Against C1 as the claim words it: a definition with balanced braces
    and neither string nor comment whose result type has braces is stored
    with a body that stops at the brace closing the result type, and a
    definition with type parameters is not stored at all. *)
Lemma balanced_definition_cut_short :
  balanced demo_result_braces
  ∧ Dict.get (py "f") (_extract_functions demo_result_braces)
    = Some {| receiver := []; body := py "func f() interface{}";
              category := py "other" |}
  ∧ py "func f() interface{}" ≠ demo_result_braces
  ∧ balanced demo_type_parameters
  ∧ _extract_functions demo_type_parameters = [].
Proof.
  split; [apply depth_ok_balanced; by vm_compute|].
  split; [by vm_compute|]. split; [by vm_compute|].
  split; [apply depth_ok_balanced; by vm_compute|]. by vm_compute.
Qed.

(** Against C3 as the claim words it: [renderMenu] is stored with the
    category [render] and is in no list, yet the text of its body is in
    the file the run writes for [handleStartCommand], whose body encloses
    it. *)
Lemma unrouted_body_in_generated_file :
  ∃ entry text,
    Dict.get (py "renderMenu") (_extract_functions demo_enclosed) = Some entry
    ∧ category entry = py "render"
    ∧ body entry = py "func renderMenu() { }"
    ∧ files (run ident_char [py "refactor_telegram.py"; py "telegram.go"; py "out"]
               demo_enclosed_world).2 !! py "out/commands/help.go" = Some text
    ∧ contains (body entry) text = true.
Proof.
  eexists _, _. split; [by vm_compute|]. split; [by vm_compute|].
  split; [by vm_compute|]. split; [by vm_compute|]. by vm_compute.
Qed.

(** Against C4 as the claim words it: of two definitions of [f] the store
    keeps the body of the first when the scan of the second, which counts
    the brace of a rune literal, runs to the end of the text. *)
Lemma first_definition_kept :
  _extract_functions demo_twice_rune
  = [ (py "f", {| receiver := []; body := py "func f() { first }";
                  category := py "other" |}) ]
  ∧ length (finditer function_pattern demo_twice_rune) = 2%nat.
Proof. split; by vm_compute. Qed.

Lemma balanced_body_extracted_witness :
  ∃ mid name entry,
    slice demo_nested (m_start demo_nested_match) (m_end demo_nested_match)
    = py "func" ++ mid ++ [chr "{"]
    ∧ extract_entry demo_nested demo_nested_match = Some (name, entry)
    ∧ body entry
      = slice demo_nested (m_start demo_nested_match)
          (m_end demo_nested_match
           + length ([nl] ++ py "  if chatID == 0 { return nil }" ++ [nl]) + 1)
    ∧ body entry
      = (py "func" ++ mid) ++ chr "{"
        :: ([nl] ++ py "  if chatID == 0 { return nil }" ++ [nl]) ++ [chr "}"]
    ∧ balanced (chr "{" :: ([nl] ++ py "  if chatID == 0 { return nil }" ++ [nl])
                ++ [chr "}"])
    ∧ (∀ functions,
         Dict.get name (extract_step demo_nested functions demo_nested_match)
         = Some entry)
    ∧ name ∈ Dict.keys (_extract_functions demo_nested)
    ∧ (∀ before after,
         finditer function_pattern demo_nested = before ++ demo_nested_match :: after ->
         (∀ m' entry', m' ∈ after ->
                       extract_entry demo_nested m' ≠ Some (name, entry')) ->
         Dict.get name (_extract_functions demo_nested) = Some entry).
Proof.
  apply (balanced_body_extracted demo_nested demo_nested_match
           ([nl] ++ py "  if chatID == 0 { return nil }" ++ [nl]) [nl]).
  - apply list_elem_of_In. vm_compute. left. reflexivity.
  - vm_compute. reflexivity.
  - apply depth_ok_balanced. vm_compute. reflexivity.
Defined.

Lemma unrouted_function_in_no_file_witness :
  _get_file_mapping (Dict.del (py "renderMenu") (_extract_functions demo_render))
  = _get_file_mapping (_extract_functions demo_render)
  ∧ (∀ path names,
       (path, names) ∈ _get_file_mapping (_extract_functions demo_render) ->
       (py "renderMenu" ∉ names)
       ∧ (∀ source_file,
            file_content source_file
              (Dict.del (py "renderMenu") (_extract_functions demo_render)) path names
            = file_content source_file (_extract_functions demo_render) path names)).
Proof.
  apply (unrouted_function_in_no_file (_extract_functions demo_render) (py "renderMenu")).
  intros info Hin. apply list_elem_of_In in Hin. vm_compute in Hin.
  destruct Hin as [Hin|[Hin|[]]]; [|discriminate Hin].
  injection Hin as <-. apply (bool_decide_unpack _). vm_compute. exact I.
Defined.

Lemma last_definition_wins_witness :
  Dict.get (py "f") (_extract_functions demo_twice) = Some demo_twice_entry
  ∧ NoDup (Dict.keys (_extract_functions demo_twice))
  ∧ (∃ l1 l2, _extract_functions demo_twice = l1 ++ (py "f", demo_twice_entry) :: l2
              ∧ (py "f" ∉ Dict.keys l1) ∧ (py "f" ∉ Dict.keys l2))
  ∧ body demo_twice_entry
    = slice demo_twice (m_start (demo_twice_match 1))
        ((header_scan demo_twice (demo_twice_match 1)).1 + 1).
Proof.
  apply (last_definition_wins demo_twice [demo_twice_match 0] (demo_twice_match 1) []).
  - vm_compute. reflexivity.
  - vm_compute. reflexivity.
  - intros m' entry' Hin. apply list_elem_of_In in Hin. destruct Hin.
Defined.


Lemma second_run_same_files_witness :
  ∃ w2, run ident_char two_functions_argv two_functions_after = (0%Z, w2)
        ∧ ∀ path, path ∈ Dict.keys empty_mapping ->
            files w2 !! path_join (default [] (two_functions_argv !! 2%nat)) path
            = files two_functions_after
                !! path_join (default [] (two_functions_argv !! 2%nat)) path.
Proof.
  apply (second_run_same_files ident_char two_functions_argv two_functions_world
           two_functions_after).
  - vm_compute. reflexivity.
  - vm_compute. reflexivity.
Defined.

(** ** What the groups hold *)

Section GroupFacts.
Context {A : Type} (text : list N) (Q : nat -> list N -> Prop).

Lemma drop_app_eq i w (s' : list N) :
  drop i text = w ++ s' ->
  s' = drop (i + length w) text ∧ slice text i (i + length w) = w.
Proof.
  intros H. split.
  - by rewrite <- drop_drop, H, drop_app_length.
  - unfold slice. rewrite H. replace (i + length w - i)%nat with (length w) by lia.
    apply take_app_length.
Qed.

Lemma bt_sound_groups r :
  groups_sound Q r ->
  ∀ (k : nat -> list N -> groups -> option A) s i g a,
    s = drop i text -> spans_good text Q g ->
    bt r i s g k = Some a ->
    ∃ w s' g', s = w ++ s' ∧ lang r w ∧ spans_good text Q g'
               ∧ k (i + length w)%nat s' g' = Some a.
Proof.
  induction r as [|c|p|r1 IH1 r2 IH2|r1 IH1 r2 IH2|r1 IH1|p|p|n r1 IH1];
    intros Hr k s i g a Hs Hg H; simpl in H, Hr.
  - exists [], s, g. rewrite Nat.add_0_r. simpl. auto.
  - destruct s as [|x s]; [done|]. destruct (N.eqb_spec x c) as [->|]; [|done].
    exists [c], s, g. simpl. rewrite Nat.add_1_r. auto.
  - destruct s as [|x s]; [done|]. destruct (p x) eqn:Hp; [|done].
    exists [x], s, g. simpl. rewrite Nat.add_1_r. eauto 10.
  - destruct Hr as [Hr1 Hr2].
    apply (IH1 Hr1 _ _ _ _ _ Hs Hg) in H as (w1 & s1 & g1 & -> & Hw1 & Hg1 & H).
    symmetry in Hs. apply drop_app_eq in Hs as [Hs1 _].
    apply (IH2 Hr2 _ _ _ _ _ Hs1 Hg1) in H as (w2 & s2 & g2 & -> & Hw2 & Hg2 & H).
    exists (w1 ++ w2), s2, g2. rewrite <- app_assoc, length_app, Nat.add_assoc.
    simpl. eauto 10.
  - destruct Hr as [Hr1 Hr2]. destruct (bt r1 i s g k) as [a'|] eqn:H1.
    + injection H as <-.
      apply (IH1 Hr1 _ _ _ _ _ Hs Hg) in H1 as (w & s' & g' & -> & Hw & Hg' & H).
      exists w, s', g'. simpl. auto.
    + apply (IH2 Hr2 _ _ _ _ _ Hs Hg) in H as (w & s' & g' & -> & Hw & Hg' & H).
      exists w, s', g'. simpl. auto.
  - destruct (bt r1 i s g k) as [a'|] eqn:H1.
    + injection H as <-.
      apply (IH1 Hr _ _ _ _ _ Hs Hg) in H1 as (w & s' & g' & -> & Hw & Hg' & H).
      exists w, s', g'. simpl. auto.
    + exists [], s, g. rewrite Nat.add_0_r. simpl. auto.
  - apply star_bt_sound in H as (w & s' & -> & Hw & H). exists w, s', g. auto.
  - destruct s as [|x s]; [done|]. destruct (p x) eqn:Hp; [|done].
    apply star_bt_sound in H as (w & s' & -> & Hw & H).
    exists (x :: w), s', g. simpl. rewrite Hp, Hw.
    replace (i + S (length w))%nat with (S i + length w)%nat by lia. auto.
  - destruct Hr as [Hn Hr1].
    apply (IH1 Hr1 _ _ _ _ _ Hs Hg) in H as (w & s' & g' & -> & Hw & Hg' & H).
    exists w, s', ((n, (i, (i + length w)%nat)) :: g'). simpl.
    split; [done|]. split; [done|]. split; [|done].
    constructor; [|done]. simpl.
    symmetry in Hs. apply drop_app_eq in Hs as [_ ->]. by apply Hn.
Qed.
End GroupFacts.

Lemma finditer_groups Q r content m :
  groups_sound Q r ->
  m ∈ finditer r content ->
  spans_good content Q (m_groups m).
Proof.
  intros Hr (k & _ & Hm)%finditer_from_elem. simpl in Hm. unfold match_at in Hm.
  apply (bt_sound_groups content Q r Hr) in Hm as (w & s' & g' & _ & _ & Hg & [= <-]);
    [done | done | constructor].
Qed.

Lemma group_good Q content m n w :
  spans_good content Q (m_groups m) ->
  group content m n = Some w -> Q n w.
Proof.
  unfold group, spans_good. generalize (m_groups m) as g.
  induction g as [|[k [a b]] g IH]; intros Hg; simpl; [done|].
  apply Forall_cons in Hg as [Hk Hg]. simpl in Hk.
  destruct (Nat.eqb_spec k n) as [->|_]; [by intros [= <-] | by apply IH].
Qed.

(** The keys of [self.functions] are made of the characters of
    [[a-zA-Z0-9_]], on which [str.lower()] is [lower]. *)
Lemma extract_names_identifier content name :
  name ∈ Dict.keys (_extract_functions content) ->
  forallb ident_char name = true.
Proof.
  intros [Hin|(m & entry & Hm & He)]%extract_fold_keys; [by apply elem_of_nil in Hin|].
  apply extract_entry_name in He as ->.
  destruct (group content m 2) as [w|] eqn:Hw; [|done]. simpl.
  apply (group_good (fun n w => n = 2%nat -> forallb ident_char w = true)
           content m 2 w); [|done|done].
  apply (finditer_groups _ function_pattern); [|done].
  unfold function_pattern. cbn [seqs groups_sound]. repeat split; try done.
  intros w' (w1 & w2 & -> & (c & -> & Hc) & Hw2) _. simpl in *.
  rewrite Hw2, andb_true_r. unfold ident_start, ident_char in *.
  destruct (is_lower c), (is_upper c); simpl in *; try done.
  by rewrite Hc, orb_true_r.
Qed.

(** ** Texts with known headers *)

Lemma bt_lits {A} p : ∀ (k : nat -> list N -> groups -> option A) i s g,
  bt (lits p) i s g k
  = match strip_prefix p s with
    | Some s' => k (i + length p)%nat s' g
    | None => None
    end.
Proof.
  induction p as [|c p IH]; intros k i s g.
  - simpl. by rewrite Nat.add_0_r.
  - destruct p as [|c' p].
    + simpl. destruct s as [|x s]; [done|]. rewrite N.eqb_sym.
      destruct (c =? x); [|done]. by rewrite Nat.add_1_r.
    + change (lits (c :: c' :: p)) with (Seq (Lit c) (lits (c' :: p))).
      cbn [bt]. destruct s as [|x s]; [done|].
      change (strip_prefix (c :: c' :: p) (x :: s))
        with (if c =? x then strip_prefix (c' :: p) s else None).
      rewrite N.eqb_sym. destruct (c =? x); [|done]. rewrite IH.
      destruct (strip_prefix _ _); [|done]. f_equal. simpl. lia.
Qed.

Lemma match_at_no_func i s :
  strip_prefix (py "func") s = None -> match_at function_pattern i s = None.
Proof.
  intros H. unfold match_at, function_pattern. cbn [seqs bt]. unfold str.
  by rewrite bt_lits, H.
Qed.


Lemma finditer_from_nomatch r a s : ∀ i,
  (∀ k, (k < length a)%nat -> match_at r (i + k) (drop k (a ++ s)) = None) ->
  finditer_from r i 0 (a ++ s) = finditer_from r (i + length a) 0 s.
Proof.
  induction a as [|c a IH]; intros i H; simpl.
  - by rewrite Nat.add_0_r.
  - pose proof (H 0%nat ltac:(simpl; lia)) as H0. rewrite Nat.add_0_r in H0.
    simpl in H0. rewrite H0, IH.
    + f_equal. lia.
    + intros k Hk. specialize (H (S k) ltac:(simpl; lia)).
      by replace (i + S k)%nat with (S i + k)%nat in H by lia.
Qed.




Lemma match_download i tail :
  match_at function_pattern i (py "func handleDownloadCommand() {" ++ tail)
  = Some {| m_start := i; m_end := 30 + i;
            m_groups := [(3, (28 + i, 29 + i)); (2, (5 + i, 26 + i))]%nat |}.
Proof. vm_compute. reflexivity. Qed.

Lemma match_format i tail :
  match_at function_pattern i (py "func formatMessage() {" ++ tail)
  = Some {| m_start := i; m_end := 22 + i;
            m_groups := [(3, (20 + i, 21 + i)); (2, (5 + i, 18 + i))]%nat |}.
Proof. vm_compute. reflexivity. Qed.











(** ** Every entry of the store *)

Lemma extract_fold_elem content ms functions n e :
  (n, e) ∈ fold_left (extract_step content) ms functions ->
  (n, e) ∈ functions
  ∨ ∃ m, m ∈ ms ∧ extract_entry content m = Some (n, e).
Proof.
  revert functions. induction ms as [|m ms IH]; intros functions H; simpl in H; [by left|].
  apply IH in H as [H|(m' & Hm' & He)].
  - unfold extract_step in H.
    destruct (extract_entry content m) as [[name entry]|] eqn:He; [|by left].
    apply dict_set_elem in H as [[= -> ->]|H]; [|by left].
    right. exists m. split; [apply list_elem_of_here|done].
  - right. exists m'. split; [by apply list_elem_of_further|done].
Qed.

Lemma stored_entry_origin content n e :
  (n, e) ∈ _extract_functions content ->
  ∃ m, m ∈ finditer function_pattern content ∧ extract_entry content m = Some (n, e).
Proof.
  intros [H|H]%extract_fold_elem; [by apply elem_of_nil in H|done].
Qed.

Lemma lstrip_keep c s : is_space c = false -> lstrip (c :: s) = c :: s.
Proof. intros H. simpl. by rewrite H. Qed.

Lemma strip_parens r :
  strip (chr "(" :: r ++ [chr ")"]) = chr "(" :: r ++ [chr ")"].
Proof.
  unfold strip, rstrip. rewrite lstrip_keep by done.
  change (chr "(" :: r ++ [chr ")"]) with ([chr "("] ++ r ++ [chr ")"]).
  rewrite !rev_app_distr. cbn [rev app]. rewrite lstrip_keep by done.
  change (chr ")" :: rev r ++ [chr "("]) with ([chr ")"] ++ rev r ++ [chr "("]).
  rewrite !rev_app_distr, rev_involutive. reflexivity.
Qed.

(** What the groups of [function_pattern] hold. *)
Lemma function_pattern_groups :
  groups_sound function_groups function_pattern.
Proof.
  unfold function_pattern. cbn [seqs groups_sound]. repeat split; try done.
  - intros w Hw. unfold function_groups. cbn [seqs lang] in Hw.
    destruct Hw as (w1 & w23 & -> & -> & w2 & w3 & -> & Hw2 & ->).
    exists w2. split; [reflexivity | exact Hw2].
  - intros w (w1 & w2 & -> & (c & -> & Hc) & Hw2). unfold function_groups.
    exists c, w2. done.
Qed.

Lemma bt_sets {A} n r : ∀ (k : nat -> list N -> groups -> option A) s i g a,
  bt r i s g k = Some a ->
  ∃ i' s' g', k i' s' g' = Some a
    ∧ (always_sets n r = true ∨ is_Some (group_span n g) -> is_Some (group_span n g')).
Proof.
  induction r as [|c|p|r1 IH1 r2 IH2|r1 IH1 r2 IH2|r1 IH1|p|p|n0 r1 IH1];
    intros k s i g a H; cbn [bt always_sets] in *.
  - exists i, s, g. split; [done|]. by intros [?|?].
  - destruct s as [|x s]; [done|]. destruct (x =? c); [|done].
    exists (S i), s, g. split; [done|]. by intros [?|?].
  - destruct s as [|x s]; [done|]. destruct (p x); [|done].
    exists (S i), s, g. split; [done|]. by intros [?|?].
  - apply IH1 in H as (i1 & s1 & g1 & H & H1).
    apply IH2 in H as (i2 & s2 & g2 & H & H2).
    exists i2, s2, g2. split; [done|].
    intros [[?|?]%orb_true_iff|?]; auto.
  - destruct (bt r1 i s g k) as [a'|] eqn:E.
    + injection H as <-. apply IH1 in E as (i1 & s1 & g1 & H & H1).
      exists i1, s1, g1. split; [done|].
      intros [[? ?]%andb_true_iff|?]; auto.
    + apply IH2 in H as (i1 & s1 & g1 & H & H1).
      exists i1, s1, g1. split; [done|].
      intros [[? ?]%andb_true_iff|?]; auto.
  - destruct (bt r1 i s g k) as [a'|] eqn:E.
    + injection H as <-. apply IH1 in E as (i1 & s1 & g1 & H & H1).
      exists i1, s1, g1. split; [done|]. intros [?|?]; [done|auto].
    + exists i, s, g. split; [done|]. by intros [?|?].
  - apply star_bt_sound in H as (w & s' & -> & _ & H).
    exists (i + length w)%nat, s', g. split; [done|]. by intros [?|?].
  - destruct s as [|x s]; [done|]. destruct (p x); [|done].
    apply star_bt_sound in H as (w & s' & -> & _ & H).
    exists (S i + length w)%nat, s', g. split; [done|]. by intros [?|?].
  - apply IH1 in H as (i1 & s1 & g1 & H & H1).
    exists i1, s1, ((n0, (i, i1)) :: g1). split; [done|].
    cbn [group_span]. destruct (Nat.eqb n0 n); [by eauto|].
    rewrite orb_false_l. done.
Qed.

Lemma finditer_sets r n content m :
  always_sets n r = true ->
  m ∈ finditer r content -> is_Some (group content m n).
Proof.
  intros Hr (k & _ & Hm)%finditer_from_elem. unfold match_at in Hm.
  apply (bt_sets n) in Hm as (i' & s' & g' & [= <-] & Hg). unfold group. cbn [m_groups].
  destruct (Hg (or_introl Hr)) as [[a b] ->]. by eexists.
Qed.

Lemma located_groups content m :
  m ∈ finditer function_pattern content ->
  (group content m 1 = None
   ∨ ∃ r, group content m 1 = Some (chr "(" :: r ++ [chr ")"])
          ∧ forallb (not_chr ")") r = true)
  ∧ (∃ c rest, group content m 2 = Some (c :: rest)
               ∧ ident_start c = true ∧ forallb ident_char rest = true).
Proof.
  intros Hm.
  pose proof (finditer_groups _ _ _ _ function_pattern_groups Hm) as Hg.
  split.
  - destruct (group content m 1) as [w|] eqn:Hw; [right|by left].
    destruct (group_good _ _ _ _ _ Hg Hw) as (r & -> & Hr). by exists r.
  - destruct (group content m 2) as [w|] eqn:Hw.
    + destruct (group_good _ _ _ _ _ Hg Hw) as (c & rest & -> & Hc & Hr).
      by exists c, rest.
    + by destruct (finditer_sets function_pattern 2 content m eq_refl Hm) as [? ?%(eq_trans (eq_sym Hw))].
Qed.

Lemma extract_entry_fields content m n e :
  extract_entry content m = Some (n, e) ->
  n = default [] (group content m 2)
  ∧ receiver e = strip (default [] (group content m 1))
  ∧ category e = _categorize_function n
  ∧ (header_scan content m).2 = 0%Z
  ∧ body e = slice content (m_start m) ((header_scan content m).1 + 1).
Proof.
  rewrite extract_entry_scan. destruct (_ =? 0)%Z eqn:E; [|done].
  intros [= <- <-]. cbn [receiver body category]. by apply Z.eqb_eq in E.
Qed.

(** X2: the keys of the store are Go identifiers: a letter or an underscore,
    then letters, digits and underscores. *)
Theorem stored_names_are_identifiers (content : list N) :
  Forall (fun name => ∃ c rest, name = c :: rest ∧ ident_start c = true
                                ∧ forallb ident_char rest = true)
         (Dict.keys (_extract_functions content)).
Proof.
  apply Forall_forall. intros name Hin. unfold Dict.keys in Hin.
  apply list_elem_of_fmap in Hin as ([n e] & -> & Hin). cbn [fst].
  apply stored_entry_origin in Hin as (m & Hm & He).
  apply extract_entry_fields in He as (-> & _).
  destruct (located_groups content m Hm) as (_ & c & rest & -> & Hc & Hr).
  by exists c, rest.
Qed.

(** X3: the receiver kept with a function is empty, for a header without
    receiver, or the receiver with its parentheses. *)
Theorem stored_receiver_shape (content : list N) :
  Forall (fun item =>
            receiver item.2 = []
            ∨ ∃ r, receiver item.2 = chr "(" :: r ++ [chr ")"]
                   ∧ forallb (not_chr ")") r = true)
         (_extract_functions content).
Proof.
  apply Forall_forall. intros [n e] Hin. cbn [snd].
  apply stored_entry_origin in Hin as (m & Hm & He).
  apply extract_entry_fields in He as (_ & -> & _).
  destruct (located_groups content m Hm) as ([->|(r & -> & Hr)] & _).
  - by left.
  - right. exists r. cbn [default from_option id]. by rewrite strip_parens.
Qed.

(** X4: the category kept with a function is the category of its name, one
    of the ten labels. *)
Theorem stored_category_of_name (content : list N) :
  Forall (fun item => category item.2 = _categorize_function item.1
                      ∧ category item.2 ∈ category_set)
         (_extract_functions content).
Proof.
  apply Forall_forall. intros [n e] Hin. cbn [fst snd].
  apply extract_functions_category in Hin as ->. split; [done|].
  apply (categorize_in_closed categories n).
Qed.


Lemma brace_scan_zero s : ∀ pos d p,
  brace_scan s pos (Z.of_nat (S d)) = (p, 0%Z) ->
  ∃ inner rest, s = inner ++ chr "}" :: rest ∧ closes d inner
                ∧ p = (pos + length inner)%nat.
Proof.
  induction s as [|c s IH]; intros pos d p H.
  - cbn [brace_scan] in H. injection H as _ H. lia.
  - cbn [brace_scan] in H. destruct (c =? chr "{") eqn:Eo.
    + apply N.eqb_eq in Eo as ->.
      replace (Z.of_nat (S d) + 1)%Z with (Z.of_nat (S (S d))) in H by lia.
      apply IH in H as (inner & rest & -> & (b & r & -> & Hb & Hr) & ->).
      exists (chr "{" :: b ++ chr "}" :: r), rest. split; [|split].
      * reflexivity.
      * by apply closes_open.
      * simpl. lia.
    + destruct (c =? chr "}") eqn:Ec.
      * apply N.eqb_eq in Ec as ->. destruct d as [|d].
        -- change (Z.of_nat 1 - 1 =? 0)%Z with true in H. injection H as <-.
           exists [], s. split; [done|]. split; [constructor|]. simpl. lia.
        -- replace (Z.of_nat (S (S d)) - 1 =? 0)%Z with false in H
             by (symmetry; apply Z.eqb_neq; lia).
           replace (Z.of_nat (S (S d)) - 1)%Z with (Z.of_nat (S d)) in H by lia.
           apply IH in H as (inner & rest & -> & Hc & ->).
           exists (chr "}" :: inner), rest. split; [done|]. split; [|simpl; lia].
           exists [], inner. split; [done|]. split; [constructor|done].
      * apply IH in H as (inner & rest & -> & Hc & ->).
        exists (c :: inner), rest. split; [done|]. split; [|simpl; lia].
        apply closes_other; [by apply N.eqb_neq..|done].
Qed.

(** X5: the body kept with a function is a piece of the source text: a
    header the pattern denotes, from [func] to its opening brace, then
    text with balanced braces, then the closing brace. *)
Theorem stored_body_shape (content : list N) :
  Forall (fun item =>
            ∃ pre mid inner post,
              content = pre ++ body item.2 ++ post
              ∧ body item.2 = py "func" ++ mid ++ chr "{" :: inner ++ [chr "}"]
              ∧ lang function_pattern (py "func" ++ mid ++ [chr "{"])
              ∧ balanced inner)
         (_extract_functions content).
Proof.
  apply Forall_forall. intros [n e] Hin. cbn [snd].
  apply stored_entry_origin in Hin as (m & Hm & He).
  apply extract_entry_fields in He as (_ & _ & _ & Hz & Hb).
  destruct (finditer_elem _ _ _ Hm) as (w & rest & Hd & Hw & Hend & _).
  destruct (located_word _ _ _ _ Hd Hw Hend) as (mid & Hd0 & He0 & Hd1 & Hd2 & Hs).
  assert (w = py "func" ++ mid ++ [chr "{"]) as ->.
  { rewrite <- Hs, Hend. by destruct (drop_app_eq content _ _ _ Hd) as [_ ->]. }
  rewrite (header_scan_rest _ _ _ _ Hd0 He0 Hd1) in Hz, Hb.
  destruct (brace_scan rest (m_end m) 1) as [p bc] eqn:Hscan. cbn [fst snd] in *. subst bc.
  apply (brace_scan_zero rest (m_end m) 0) in Hscan as (inner & post & -> & Hbal & ->).
  assert (Hbody : body e = py "func" ++ mid ++ chr "{" :: inner ++ [chr "}"]).
  { rewrite Hb. unfold slice. rewrite Hd0.
    replace (py "func" ++ mid ++ chr "{" :: inner ++ chr "}" :: post)
      with ((py "func" ++ mid ++ chr "{" :: inner ++ [chr "}"]) ++ post).
    2:{ rewrite <- !app_assoc. cbn [app]. by rewrite <- !app_assoc. }
    apply take_app_length'. rewrite He0, !length_app. cbn [length].
    rewrite !length_app. cbn [length]. lia. }
  exists (take (m_start m) content), mid, inner, post. split; [|done].
  rewrite Hbody. rewrite <- (take_drop (m_start m) content) at 1. f_equal.
  rewrite Hd0. rewrite <- !app_assoc. cbn [app]. by rewrite <- !app_assoc.
Qed.

(** ** The brace the scan starts from *)

Lemma lang_function_pattern_result w :
  lang function_pattern w ->
  ∃ pre result,
    w = py "func" ++ pre ++ [chr ")"] ++ result ++ [chr "{"]
    ∧ forallb (not_chr "{") result = true.
Proof.
  unfold function_pattern. cbn [seqs].
  intros (w1 & r1 & -> & H1 & H). apply lang_lits in H1 as ->.
  destruct H as (w2 & r2 & -> & _ & H).
  destruct H as (w3 & r3 & -> & _ & H).
  destruct H as (w4 & r4 & -> & _ & H).
  destruct H as (w5 & r5 & -> & _ & H).
  destruct H as (w6 & r6 & -> & _ & H).
  destruct H as (w7 & r7 & -> & _ & H).
  destruct H as (w8 & r8 & -> & _ & H).
  destruct H as (w9 & r9 & -> & H9 & H).
  destruct H as (w10 & w11 & -> & H10 & H11).
  cbn [lang] in H9, H10, H11. subst w9 w11.
  exists (w2 ++ w3 ++ w4 ++ w5 ++ w6 ++ w7 ++ w8), w10. split.
  - by rewrite <- !app_assoc.
  - by destruct H10 as [->|H10].
Qed.

(** X6: in a located header no brace stands between the parenthesis that
    closes the parameter list and the brace the scan starts from: a brace
    in a result type is taken for the start of the body. *)
Theorem header_brace_follows_parameters (content : list N) (m : match_obj) :
  m ∈ finditer function_pattern content ->
  ∃ pre result,
    slice content (m_start m) (m_end m)
    = py "func" ++ pre ++ [chr ")"] ++ result ++ [chr "{"]
    ∧ forallb (not_chr "{") result = true
    ∧ header_scan content m = brace_scan (drop (m_end m) content) (m_end m) 1.
Proof.
  intros Hm.
  destruct (finditer_elem _ _ _ Hm) as (w & rest & Hd & Hw & Hend & _).
  destruct (located_word _ _ _ _ Hd Hw Hend) as (mid & Hd0 & He0 & Hd1 & Hd2 & Hs).
  destruct (lang_function_pattern_result w Hw) as (pre & result & -> & Hr).
  exists pre, result. split; [|split; [done|]].
  - rewrite Hend. by destruct (drop_app_eq content _ _ _ Hd) as [_ ->].
  - rewrite (header_scan_rest _ _ _ _ Hd0 He0 Hd1). by rewrite Hd2.
Qed.

Lemma header_brace_follows_parameters_witness :
  ∃ pre result,
    slice demo_nested (m_start demo_nested_match) (m_end demo_nested_match)
    = py "func" ++ pre ++ [chr ")"] ++ result ++ [chr "{"]
    ∧ forallb (not_chr "{") result = true
    ∧ header_scan demo_nested demo_nested_match
      = brace_scan (drop (m_end demo_nested_match) demo_nested)
          (m_end demo_nested_match) 1.
Proof.
  apply (header_brace_follows_parameters demo_nested demo_nested_match).
  apply list_elem_of_In. vm_compute. left. reflexivity.
Defined.

(** ** The rule for [command] comes first *)

Lemma prefix_matches_app p name suffix :
  re_match p name = true -> prefix_matches p (name ++ suffix).
Proof.
  intros (w & s' & -> & Hw)%re_match_spec. exists w, (s' ++ suffix).
  by rewrite <- app_assoc.
Qed.

Lemma categorize_command_1 name :
  prefix_matches (seqs [str "handle"; Star dot; str "Command"]) name ->
  _categorize_function name = py "command".
Proof.
  intros H. eapply (categorize_in_first categories name []); [reflexivity|constructor|].
  by apply Exists_cons_hd.
Qed.

Lemma categorize_command_2 word rest :
  word ∈ command_words ->
  _categorize_function (py "handle" ++ word ++ rest) = py "command".
Proof.
  intros Hw. eapply (categorize_in_first categories _ []); [reflexivity|constructor|].
  apply Exists_cons_tl, Exists_cons_hd. rewrite app_assoc.
  apply prefix_matches_app. revert Hw. unfold command_words. cbn [map].
  rewrite !elem_of_cons, elem_of_nil.
  intros H. repeat (destruct H as [->|H]; [by vm_compute|]). done.
Qed.

(** X7: the rule for [command] is tried first: a name that starts with
    [handle] and has [Command] later on, or that starts with [handle] and
    one of the ten words, is a command whatever other rule it fits; so the
    pattern [handleDownloadFile.*] of the rule for [file] never decides. *)
Theorem command_rule_first (a b : list N) :
  (Forall (fun c => c ≠ nl) a ->
     _categorize_function (py "handle" ++ a ++ py "Command" ++ b) = py "command")
  ∧ (∀ word, word ∈ command_words ->
       _categorize_function (py "handle" ++ word ++ b) = py "command")
  ∧ (∀ name, re_match (Seq (str "handleDownloadFile") (Star dot)) name = true ->
       _categorize_function name = py "command").
Proof.
  split; [|split].
  - intros Ha. apply categorize_command_1.
    exists (py "handle" ++ a ++ py "Command"), b. split; [by rewrite <- !app_assoc|].
    cbn [seqs lang]. exists (py "handle"), (a ++ py "Command").
    split; [done|]. split; [by apply lang_lits|].
    exists a, (py "Command"). split; [done|]. split; [|by apply lang_lits].
    apply forallb_forall. intros c Hc%list_elem_of_In.
    rewrite Forall_forall in Ha. apply Ha in Hc. unfold dot.
    by destruct (N.eqb_spec c nl).
  - intros word Hw. by apply categorize_command_2.
  - intros name (rest & ->)%re_match_literal_prefix.
    replace (py "handleDownloadFile") with (py "handle" ++ py "Download" ++ py "File")
      by (by vm_compute).
    rewrite <- !app_assoc. apply categorize_command_2.
    apply (bool_decide_unpack _). by vm_compute.
Qed.

(** ** Destinations *)

Lemma route_key name cat p :
  route name cat = Some p -> p ∈ Dict.keys empty_mapping.
Proof.
  unfold route.
  repeat match goal with
         | |- context [if ?b then _ else _] => destruct b
         end; intros [= <-]; apply (bool_decide_unpack _); by vm_compute.
Qed.

Lemma route_package name cat p :
  route name cat = Some p -> split_head (chr "/") p = cat ++ py "s".
Proof.
  unfold route.
  destruct (decide (cat = py "command")) as [->|_];
    [|destruct (decide (cat = py "callback")) as [->|_];
      [|destruct (decide (cat = py "util")) as [->|_]; [|done]]];
    repeat match goal with
           | |- context [if ?b then _ else _] => destruct b
           end; intros [= <-]; by vm_compute.
Qed.

Lemma routed_to_intro path functions name info :
  (name, info) ∈ functions -> route name (category info) = Some path ->
  name ∈ routed_to path functions.
Proof.
  intros Hin Hr. unfold routed_to. apply list_elem_of_omap.
  exists (name, info). split; [done|]. cbn. by rewrite decide_True.
Qed.

Lemma route_placed name :
  _categorize_function name ∈ routed_categories ->
  is_Some (route name (_categorize_function name)).
Proof.
  unfold routed_categories. rewrite !elem_of_cons, elem_of_nil.
  intros [H|[H|[H|H]]]; [| | |done].
  - rewrite H. unfold route. rewrite decide_True by done.
    repeat match goal with
           | |- context [if ?b then _ else _] => destruct b
           end; by eexists.
  - rewrite H. unfold route. rewrite decide_False by (by vm_compute).
    rewrite decide_True by done.
    repeat match goal with
           | |- context [if ?b then _ else _] => destruct b
           end; by eexists.
  - rewrite H. destruct (route_util name H) as [-> | [-> | ->]]; by eexists.
Qed.

Lemma extract_functions_NoDup content :
  NoDup (Dict.keys (_extract_functions content)).
Proof. apply extract_fold_NoDup. constructor. Qed.

(** X8: no [KeyError] in [_get_file_mapping]: the destination the chain of
    tests picks is one of the fifteen keys, which are the keys of the
    mapping whatever the store holds. *)
Theorem destination_is_key
    (functions : Dict.dict func_info) (name cat p : list N) :
  route name cat = Some p ->
  p ∈ Dict.keys (_get_file_mapping functions)
  ∧ Dict.keys (_get_file_mapping functions) = Dict.keys empty_mapping
  ∧ (∀ mapping names, Dict.get p mapping = Some names ->
       Dict.get p (mapping_append p name mapping) = Some (names ++ [name])).
Proof.
  intros Hr.
  assert (Hk : Dict.keys (_get_file_mapping functions) = Dict.keys empty_mapping)
    by apply mapping_fold_keys.
  split; [|split; [done|]].
  - rewrite Hk. by apply route_key in Hr.
  - intros mapping names Hg. rewrite mapping_append_get, Hg. cbn.
    by rewrite decide_True.
Qed.

Lemma destination_is_key_witness :
  py "commands/help.go"
    ∈ Dict.keys (_get_file_mapping (_extract_functions demo_render)).
Proof.
  apply (destination_is_key (_extract_functions demo_render)
           (py "handleStartCommand") (py "command") (py "commands/help.go")).
  vm_compute. reflexivity.
Defined.

(** X9: the package of a generated file is the category of its functions
    with an [s]: the functions of a list all have the category the first
    segment of the destination names. *)
Theorem package_is_category
    (functions : Dict.dict func_info) (path : list N) (names : list (list N))
    (name : list N) :
  (path, names) ∈ _get_file_mapping functions ->
  name ∈ names ->
  ∃ info, (name, info) ∈ functions
          ∧ split_head (chr "/") path = category info ++ py "s".
Proof.
  intros [_ ->]%file_mapping_elem (info & Hin & Hr)%routed_to_elem.
  exists info. split; [done|]. by apply route_package in Hr.
Qed.

Lemma package_is_category_witness :
  ∃ info, (py "handleStartCommand", info) ∈ _extract_functions demo_render
          ∧ split_head (chr "/") (py "commands/help.go") = category info ++ py "s".
Proof.
  apply (package_is_category (_extract_functions demo_render)
           (py "commands/help.go") [py "handleStartCommand"]).
  - apply list_elem_of_In. vm_compute. do 5 right. left. reflexivity.
  - apply list_elem_of_here.
Defined.

(** X10: a function of the store is in at most one list of the mapping, and
    at most once in it. *)
Theorem function_in_one_file (content : list N) :
  (∀ path names, (path, names) ∈ _get_file_mapping (_extract_functions content) ->
     NoDup names)
  ∧ (∀ path1 names1 path2 names2 name,
       (path1, names1) ∈ _get_file_mapping (_extract_functions content) ->
       (path2, names2) ∈ _get_file_mapping (_extract_functions content) ->
       name ∈ names1 -> name ∈ names2 -> path1 = path2).
Proof.
  pose proof (extract_functions_NoDup content) as Hnd. split.
  - intros path names [_ ->]%file_mapping_elem.
    by eapply sublist_NoDup; [done|apply routed_to_sublist].
  - intros path1 names1 path2 names2 name [_ ->]%file_mapping_elem
      [_ ->]%file_mapping_elem (i1 & Hi1 & Hr1)%routed_to_elem
      (i2 & Hi2 & Hr2)%routed_to_elem.
    apply (dict_elem_get _ _ _ Hnd) in Hi1, Hi2. congruence.
Qed.

(** X11: a function of the store is in a list of the mapping exactly when its
    name is classified command, callback or util. *)
Theorem placed_iff_routed_category (content name : list N) :
  name ∈ Dict.keys (_extract_functions content) ->
  (∃ path names, (path, names) ∈ _get_file_mapping (_extract_functions content)
                 ∧ name ∈ names)
  ↔ _categorize_function name ∈ routed_categories.
Proof.
  intros Hkey. split.
  - intros (path & names & [_ ->]%file_mapping_elem & (info & Hin & Hr)%routed_to_elem).
    apply extract_functions_category in Hin as Hc. rewrite <- Hc.
    destruct (decide (category info ∈ routed_categories)) as [|Hn]; [done|].
    by rewrite (route_unrouted _ _ Hn) in Hr.
  - intros Hc. unfold Dict.keys in Hkey.
    apply list_elem_of_fmap in Hkey as ([n info] & -> & Hin). cbn [fst] in *.
    apply extract_functions_category in Hin as Hcat.
    destruct (route_placed n Hc) as [path Hr]. rewrite <- Hcat in Hr.
    exists path, (routed_to path (_extract_functions content)). split.
    + apply dict_get_Some_elem, file_mapping_get. by apply route_key in Hr.
    + by apply (routed_to_intro _ _ _ info).
Qed.

Lemma placed_iff_routed_category_witness :
  (∃ path names, (path, names) ∈ _get_file_mapping (_extract_functions demo_render)
                 ∧ py "renderMenu" ∈ names)
  ↔ _categorize_function (py "renderMenu") ∈ routed_categories.
Proof.
  apply (placed_iff_routed_category demo_render (py "renderMenu")).
  apply list_elem_of_In. vm_compute. left. reflexivity.
Defined.

(** ** The table of the report *)

Lemma count_fold_get c : ∀ (fs : Dict.dict func_info) (acc : Dict.dict nat),
  Dict.get c (fold_left count_step (Dict.values fs) acc)
  = match Dict.get c acc, count_of c fs with
    | None, O => None
    | o, n => Some (default 0 o + n)%nat
    end.
Proof.
  induction fs as [|[name info] fs IH]; intros acc.
  - cbn. destruct (Dict.get c acc); cbn; [f_equal; lia|done].
  - unfold Dict.values in *. cbn [map fold_left snd]. rewrite IH.
    unfold count_of, Dict.dict. rewrite filter_cons. cbn [snd]. unfold count_step.
    destruct (decide (category info = c)) as [->|Hne].
    + rewrite dict_get_set_eq. cbn [length].
      destruct (Dict.get c acc); cbn; f_equal; lia.
    + rewrite dict_get_set_ne by done. done.
Qed.

Lemma count_fold_NoDup : ∀ (infos : list func_info) (acc : Dict.dict nat),
  NoDup (Dict.keys acc) -> NoDup (Dict.keys (fold_left count_step infos acc)).
Proof.
  induction infos as [|info infos IH]; intros acc H; [done|].
  cbn [fold_left]. apply IH. by apply dict_keys_set_NoDup.
Qed.

Lemma sum_values_set k v (d : Dict.dict nat) :
  (sum_list (Dict.values (Dict.set k v d)) + default 0 (Dict.get k d))%nat
  = (sum_list (Dict.values d) + v)%nat.
Proof.
  unfold Dict.values. induction d as [|[k' v'] d IH]; cbn.
  - lia.
  - destruct (decide (k' = k)); cbn in *; lia.
Qed.

Lemma count_fold_sum : ∀ (infos : list func_info) (acc : Dict.dict nat),
  sum_list (Dict.values (fold_left count_step infos acc))
  = (sum_list (Dict.values acc) + length infos)%nat.
Proof.
  induction infos as [|info infos IH]; intros acc; cbn [fold_left length]; [lia|].
  rewrite IH. unfold count_step.
  pose proof (sum_values_set (category info)
                (default 0 (Dict.get (category info) acc) + 1)%nat acc). lia.
Qed.

(** X12: the counts of the report: a category has an entry exactly when the
    store holds a function of it, the entry is the number of these
    functions, and the entries add up to the number of functions. *)
Theorem category_counts (functions : Dict.dict func_info) :
  (∀ c, Dict.get c (count_categories functions)
        = if decide (count_of c functions = 0%nat) then None
          else Some (count_of c functions))
  ∧ NoDup (Dict.keys (count_categories functions))
  ∧ sum_list (Dict.values (count_categories functions)) = length functions.
Proof.
  change (count_categories functions)
    with (fold_left count_step (Dict.values functions) []).
  split; [|split].
  - intros c. rewrite count_fold_get. cbn [Dict.get].
    destruct (count_of c functions); done.
  - apply count_fold_NoDup. constructor.
  - rewrite count_fold_sum. unfold Dict.values. by rewrite length_map.
Qed.

Lemma str_leb_total a : ∀ b, str_leb a b = true ∨ str_leb b a = true.
Proof.
  induction a as [|x a IH]; intros [|y b]; cbn; auto.
  destruct (N.ltb_spec x y), (N.ltb_spec y x); auto; lia.
Qed.

Section SortedFacts.
Context {A : Type} (key : A -> list N).

Lemma insert_sorted_perm x l : insert_sorted key x l ≡ₚ x :: l.
Proof.
  induction l as [|y l IH]; cbn; [done|].
  destruct (str_leb (key x) (key y)); [done|]. by rewrite IH, Permutation_swap.
Qed.

Lemma sorted_on_perm l : sorted_on key l ≡ₚ l.
Proof.
  induction l as [|x l IH]; cbn; [done|]. by rewrite insert_sorted_perm, IH.
Qed.

Lemma insert_sorted_sorted x l :
  Sorted (fun a b => str_leb (key a) (key b) = true) l ->
  Sorted (fun a b => str_leb (key a) (key b) = true) (insert_sorted key x l).
Proof.
  induction 1 as [|y l Hl IH Hy]; cbn.
  - by repeat constructor.
  - destruct (str_leb (key x) (key y)) eqn:E.
    + constructor; [by constructor|by constructor].
    + constructor; [done|].
      destruct (str_leb_total (key x) (key y)) as [?|Hyx]; [congruence|].
      destruct Hy as [|z l Hz]; cbn; [by constructor|].
      destruct (str_leb (key x) (key z)); by constructor.
Qed.

Lemma sorted_on_sorted l :
  Sorted (fun a b => str_leb (key a) (key b) = true) (sorted_on key l).
Proof.
  induction l as [|x l IH]; cbn; [constructor|]. by apply insert_sorted_sorted.
Qed.
End SortedFacts.

Lemma fold_left_pointwise {A B} (f g : A -> B -> A) (l : list B) : ∀ acc,
  (∀ a b, f a b = g a b) -> fold_left f l acc = fold_left g l acc.
Proof.
  induction l as [|x l IH]; intros acc H; cbn [fold_left]; [done|].
  by rewrite H, IH.
Qed.

Lemma fold_left_lines {A} (line : A -> list N) (l : list A) : ∀ acc,
  fold_left (fun content item => content ++ line item) l acc
  = acc ++ concat (map line l).
Proof.
  induction l as [|x l IH]; intros acc; cbn [fold_left map concat].
  - by rewrite app_nil_r.
  - by rewrite IH, <- app_assoc.
Qed.

(** X13: the table of the report has one line for each entry of the counts,
    in ascending order of the category names. *)
Theorem report_table_sorted (functions : Dict.dict func_info) :
  category_lines functions
  = concat (map report_line (sorted_on fst (count_categories functions)))
  ∧ Sorted (fun a b => str_leb a.1 b.1 = true)
           (sorted_on fst (count_categories functions))
  ∧ sorted_on fst (count_categories functions) ≡ₚ count_categories functions.
Proof.
  split; [|split].
  - unfold category_lines.
    change (concat (map report_line (sorted_on fst (count_categories functions))))
      with ([] ++ concat (map report_line (sorted_on fst (count_categories functions)))).
    rewrite <- fold_left_lines.
    apply fold_left_pointwise. by intros content [c n].
  - apply sorted_on_sorted.
  - apply sorted_on_perm.
Qed.

(** ** Constants *)

Lemma lstrip_elem c s : c ∈ lstrip s -> c ∈ s.
Proof.
  induction s as [|x s IH]; cbn [lstrip]; [done|].
  destruct (is_space x); [|done]. intros H. by apply list_elem_of_further, IH.
Qed.

Lemma lstrip_head c s : head (lstrip s) = Some c -> is_space c = false.
Proof.
  induction s as [|x s IH]; cbn [lstrip]; [done|].
  destruct (is_space x) eqn:E; [done|]. by intros [= <-].
Qed.

Lemma lstrip_last c s : last (lstrip s) = Some c -> last s = Some c.
Proof.
  induction s as [|x s IH]; cbn [lstrip]; [done|].
  destruct (is_space x); [|done]. intros H. specialize (IH H).
  destruct s; [done|]. done.
Qed.

Lemma last_rev (s : list N) : last (rev s) = head s.
Proof. destruct s as [|x s]; [done|]. cbn [rev head]. apply last_snoc. Qed.

Lemma head_rev (s : list N) : head (rev s) = last s.
Proof. by rewrite <- (rev_involutive s) at 2; rewrite last_rev. Qed.

Lemma rev_elem (c : N) s : c ∈ rev s -> c ∈ s.
Proof. intros H%list_elem_of_In. by apply list_elem_of_In, in_rev. Qed.

Lemma strip_elem c s : c ∈ strip s -> c ∈ s.
Proof.
  unfold strip, rstrip. intros H%rev_elem%lstrip_elem%rev_elem. by apply lstrip_elem.
Qed.

Lemma strip_head c s : head (strip s) = Some c -> is_space c = false.
Proof.
  unfold strip, rstrip. rewrite head_rev. intros H%lstrip_last.
  rewrite last_rev in H. by apply lstrip_head in H.
Qed.

Lemma strip_last c s : last (strip s) = Some c -> is_space c = false.
Proof. unfold strip, rstrip. rewrite last_rev. apply lstrip_head. Qed.

Lemma const_pattern_groups word_char :
  groups_sound (const_groups word_char) (const_pattern word_char).
Proof.
  unfold const_pattern. cbn [seqs groups_sound].
  repeat split; try done; by destruct H.
Qed.

Lemma const_fold_elem content ms : ∀ (constants : Dict.dict (list N)) k v,
  (k, v) ∈ fold_left
             (fun constants m =>
                Dict.set (default [] (group content m 1))
                         (strip (default [] (group content m 2))) constants)
             ms constants ->
  (k, v) ∈ constants
  ∨ ∃ m, m ∈ ms ∧ k = default [] (group content m 1)
         ∧ v = strip (default [] (group content m 2)).
Proof.
  induction ms as [|m ms IH]; intros constants k v H; cbn [fold_left] in H; [by left|].
  apply IH in H as [H|(m' & Hm' & Hk)].
  - apply dict_set_elem in H as [[= -> ->]|H]; [|by left].
    right. exists m. split; [apply list_elem_of_here|done].
  - right. exists m'. split; [by apply list_elem_of_further|done].
Qed.

Lemma const_fold_NoDup content ms : ∀ constants : Dict.dict (list N),
  NoDup (Dict.keys constants) ->
  NoDup (Dict.keys (fold_left
             (fun constants m =>
                Dict.set (default [] (group content m 1))
                         (strip (default [] (group content m 2))) constants)
             ms constants)).
Proof.
  induction ms as [|m ms IH]; intros constants H; cbn [fold_left]; [done|].
  apply IH. by apply dict_keys_set_NoDup.
Qed.

(** X14: the constants found: the names are distinct words; a value has no
    slash and no newline in it, as the pattern stops before them, and no
    white space at either end. *)
Theorem constants_shape (word_char : N -> bool) (content : list N) :
  Forall (fun item =>
            (item.1 ≠ [] ∧ forallb word_char item.1 = true)
            ∧ (∀ c, c ∈ item.2 -> c ≠ chr "/" ∧ c ≠ nl)
            ∧ (∀ c, head item.2 = Some c -> is_space c = false)
            ∧ (∀ c, last item.2 = Some c -> is_space c = false))
         (_extract_constants word_char [] content)
  ∧ NoDup (Dict.keys (_extract_constants word_char [] content)).
Proof.
  split.
  - apply Forall_forall. intros [k v] Hin. cbn [fst snd].
    unfold _extract_constants in Hin. cbv zeta in Hin.
    apply const_fold_elem in Hin as [Hin|(m & Hm & -> & ->)];
      [by apply elem_of_nil in Hin|].
    pose proof (finditer_groups _ _ _ _ (const_pattern_groups word_char) Hm) as Hg.
    destruct (finditer_sets (const_pattern word_char) 1 content m eq_refl Hm) as [n Hn].
    destruct (finditer_sets (const_pattern word_char) 2 content m eq_refl Hm) as [x Hx].
    rewrite Hn, Hx. cbn [default from_option id].
    pose proof (group_good _ _ _ _ _ Hg Hn) as H1.
    pose proof (group_good _ _ _ _ _ Hg Hx) as [_ H2].
    split; [exact H1|]. split; [|split].
    + intros c Hc%strip_elem. rewrite forallb_forall in H2.
      apply list_elem_of_In in Hc. apply H2 in Hc. unfold value_char in Hc.
      apply andb_true_iff in Hc as [Hs Hl].
      split; intros ->; [by rewrite N.eqb_refl in Hs | by rewrite N.eqb_refl in Hl].
    + intros c. apply strip_head.
    + intros c. apply strip_last.
  - unfold _extract_constants. cbv zeta. apply const_fold_NoDup. constructor.
Qed.

(** ** What a run leaves *)

Lemma contains_false_drop p s : ∀ k,
  contains p s = false -> strip_prefix p (drop k s) = None.
Proof.
  induction s as [|c s IH]; intros k H.
  - rewrite drop_nil. cbn [contains] in H. apply orb_false_iff in H as [H _].
    unfold startswith in H. by destruct (strip_prefix p []).
  - cbn [contains] in H. apply orb_false_iff in H as [Hs H].
    destruct k as [|k]; [|by apply IH].
    cbn [drop]. unfold startswith in Hs. by destruct (strip_prefix p (c :: s)).
Qed.

Lemma no_func_finditer content :
  contains (py "func") content = false -> finditer function_pattern content = [].
Proof.
  intros H. unfold finditer. rewrite <- (app_nil_r content).
  rewrite finditer_from_nomatch; [done|].
  intros k _. apply match_at_no_func. rewrite app_nil_r. by apply contains_false_drop.
Qed.

Lemma gen_files_empty_lists self mapping F :
  (∀ p names, (p, names) ∈ mapping -> names = []) ->
  gen_files self mapping F = F.
Proof.
  revert F. induction mapping as [|[p names] mapping IH]; intros F H; [done|].
  cbn [gen_files fold_left].
  rewrite (H p names) by apply list_elem_of_here.
  apply IH. intros q ns Hq. apply (H q). by apply list_elem_of_further.
Qed.

(** X15: a source text without the word [func] gives an empty store: every
    list of the mapping is empty, the table of the report has no line, and
    a run with status 0 has written the report and has left every
    destination as it was. *)
Theorem no_func_no_function (word_char : N -> bool) (content : list N) :
  contains (py "func") content = false ->
  _extract_functions content = []
  ∧ (∀ path names,
       (path, names) ∈ _get_file_mapping (_extract_functions content) -> names = [])
  ∧ category_lines (_extract_functions content) = []
  ∧ (∀ prog source_file target_dir w w',
       files w !! source_file = Some content ->
       run word_char [prog; source_file; target_dir] w = (0%Z, w') ->
       is_Some (files w' !! report_path target_dir)
       ∧ ∀ path, path ∈ Dict.keys empty_mapping ->
           files w' !! path_join target_dir path
           = files w !! path_join target_dir path).
Proof.
  intros Hc.
  assert (Hs : _extract_functions content = []).
  { unfold _extract_functions, extract_into. by rewrite no_func_finditer. }
  assert (Hm : ∀ path names,
            (path, names) ∈ _get_file_mapping (_extract_functions content) -> names = []).
  { intros path names [_ ->]%file_mapping_elem. by rewrite Hs. }
  split; [done|]. split; [done|]. split; [by rewrite Hs|].
  intros prog source_file target_dir w w' Hf Hrun.
  apply run_inv in Hrun
    as (? & ? & ? & content' & R & [= <- <- <-] & (Hf' & _) & Hfiles & _).
  assert (content' = content) as -> by congruence.
  rewrite (gen_files_empty_lists _ _ _ Hm) in Hfiles. rewrite Hfiles. split.
  - rewrite lookup_insert_eq. by eexists.
  - intros path Hp. apply lookup_insert_ne.
    intros Heq%path_join_inj. subst path. by apply report_not_key.
Qed.

Lemma no_func_no_function_witness :
  _extract_functions (py "package telegram" ++ [nl] ++ py "const retries = 3") = [].
Proof.
  apply (no_func_no_function ident_char
           (py "package telegram" ++ [nl] ++ py "const retries = 3")).
  vm_compute. reflexivity.
Defined.

(** X16: after a run with status 0 the eight directories and the report are
    there, every destination with a list that is not empty holds the text
    made from its list, and the other destinations are as they were. *)
Theorem successful_run_leaves
    (word_char : N -> bool) (argv : list (list N)) (w w' : world) :
  run word_char argv w = (0%Z, w') ->
  ∃ prog source_file target_dir content,
    argv = [prog; source_file; target_dir]
    ∧ files w !! source_file = Some content
    ∧ (∀ d, d ∈ directories -> path_join target_dir d ∈ dirs w')
    ∧ is_Some (files w' !! report_path target_dir)
    ∧ (∀ path names,
         (path, names) ∈ _get_file_mapping (_extract_functions content) ->
         files w' !! path_join target_dir path
         = match names with
           | [] => files w !! path_join target_dir path
           | _ :: _ =>
             Some (file_content source_file (_extract_functions content) path names)
           end).
Proof.
  intros (prog & source_file & target_dir & content & R & -> & Hc & Hf & Hd & _)%run_inv.
  exists prog, source_file, target_dir, content. split; [done|].
  split; [by destruct Hc|]. split; [|split].
  - intros d Hin. rewrite Hd. unfold dirs_after.
    by apply elem_of_union_l, elem_of_list_to_set, made_dirs_dir.
  - rewrite Hf, lookup_insert_eq. by eexists.
  - intros path names Hin. rewrite Hf, lookup_insert_ne.
    + pose proof (gen_files_lookup
                    (analyzed word_char source_file target_dir content)
                    _ (files w) path names (file_mapping_NoDup _) Hin) as Hl.
      cbn [Script.target_dir Script.source_file Script.functions analyzed] in Hl.
      exact Hl.
    + intros Heq%path_join_inj. subst path. apply file_mapping_key in Hin.
      by apply report_not_key.
Qed.

Lemma successful_run_leaves_witness :
  ∃ prog source_file target_dir content,
    two_functions_argv = [prog; source_file; target_dir]
    ∧ files two_functions_world !! source_file = Some content
    ∧ (∀ d, d ∈ directories -> path_join target_dir d ∈ dirs two_functions_after)
    ∧ is_Some (files two_functions_after !! report_path target_dir)
    ∧ (∀ path names,
         (path, names) ∈ _get_file_mapping (_extract_functions content) ->
         files two_functions_after !! path_join target_dir path
         = match names with
           | [] => files two_functions_world !! path_join target_dir path
           | _ :: _ =>
             Some (file_content source_file (_extract_functions content) path names)
           end).
Proof.
  apply (successful_run_leaves ident_char two_functions_argv two_functions_world
           two_functions_after).
  vm_compute. reflexivity.
Defined.

(** ** Failing runs *)

Lemma bind_Raise {A B} (m : M A) (f : A -> M B) w e w1 :
  m w = (Raise e, w1) -> (m ≫= f) w = (Raise e, w1).
Proof. intros H. unfold mbind, M_bind. by rewrite H. Qed.

Lemma main_three word_char prog source_file target_dir w :
  main word_char [prog; source_file; target_dir] w
  = if exists_in w source_file
    then try_except (pipeline word_char (init source_file target_dir)) on_error
           (printed (banner_lines source_file target_dir) w)
    else (Exit 1, printed [py "❌ 源文件不存在: " ++ source_file] w).
Proof.
  unfold main.
  cbn [length Nat.eqb negb lookup list_lookup default from_option id].
  unfold mbind at 1, M_bind at 1, path_exists at 1.
  destruct (exists_in w source_file); cbn [negb]; [|done].
  rewrite !(bind_Ret _ _ _ _ _ (print_printed _ _)), !printed_app. done.
Qed.

Lemma on_error_run e w :
  on_error e w = (Exit 1, printed [py "❌ 执行过程中发生错误: " ++ exn_str e] w).
Proof. unfold on_error. by rewrite (bind_Ret _ _ _ _ _ (print_printed _ _)). Qed.

Lemma status_zero_or_one_aux word_char argv w :
  (run word_char argv w).1 = 0%Z ∨ (run word_char argv w).1 = 1%Z.
Proof.
  unfold run. destruct (main word_char argv w) as [r w1] eqn:Hm.
  apply main_outcome in Hm as [[-> _]| ->]; cbn; auto.
Qed.

(** X17: the exit status is 0 or 1, and no exception leaves [main]. *)
Theorem status_zero_or_one (word_char : N -> bool) (argv : list (list N)) (w : world) :
  ((run word_char argv w).1 = 0%Z ∨ (run word_char argv w).1 = 1%Z)
  ∧ (∀ e w', main word_char argv w ≠ (Raise e, w')).
Proof.
  unfold run. destruct (main word_char argv w) as [r w1] eqn:Hm.
  apply main_outcome in Hm as [[-> _]| ->]; cbn; split; auto; done.
Qed.

(** X18: a source path that is a directory passes the test of existence; the
    read fails, the error is printed, with the name of the directory as
    [repr] writes it, and the status is 1, with the file system as it
    was.  The name is taken to be made of ASCII characters. *)
Theorem source_directory_fails
    (word_char : N -> bool) (prog source_file target_dir : list N) (w : world) :
  ascii_name source_file ->
  source_file ∈ dirs w ->
  files w !! source_file = None ->
  run word_char [prog; source_file; target_dir] w
  = (1%Z,
     printed (banner_lines source_file target_dir
              ++ [ py "📖 分析源文件: " ++ source_file;
                   py "❌ 执行过程中发生错误: "
                   ++ exn_str (OSError 21 (py "Is a directory") source_file) ]) w).
Proof.
  intros _ Hd Hf. unfold run. rewrite main_three.
  assert (exists_in w source_file = true) as ->.
  { unfold exists_in. rewrite (bool_decide_eq_true_2 (source_file ∈ dirs w)) by done.
    apply orb_true_r. }
  unfold try_except.
  assert (Hp : pipeline word_char (init source_file target_dir)
                 (printed (banner_lines source_file target_dir) w)
               = (Raise (OSError 21 (py "Is a directory") source_file),
                  printed [py "📖 分析源文件: " ++ source_file]
                    (printed (banner_lines source_file target_dir) w))).
  { unfold pipeline. apply bind_Raise. unfold analyze_source_file.
    cbn [Script.source_file init].
    rewrite (bind_Ret _ _ _ _ _ (print_printed _ _)). apply bind_Raise.
    unfold read_text. cbn [files dirs printed]. rewrite Hf.
    by rewrite bool_decide_eq_true_2. }
  rewrite Hp, on_error_run, !printed_app. reflexivity.
Qed.

Lemma source_directory_fails_witness :
  run ident_char [py "refactor_telegram.py"; py "it's"; py "out"]
    {| files := ∅; dirs := {[ py "it's" ]}; stdout := [] |}
  = (1%Z,
     printed (banner_lines (py "it's") (py "out")
              ++ [ py "📖 分析源文件: " ++ py "it's";
                   py "❌ 执行过程中发生错误: "
                   ++ exn_str (OSError 21 (py "Is a directory") (py "it's")) ])
       {| files := ∅; dirs := {[ py "it's" ]}; stdout := [] |}).
Proof.
  apply (source_directory_fails ident_char).
  - apply (bool_decide_unpack _). by vm_compute.
  - vm_compute. reflexivity.
  - vm_compute. reflexivity.
Defined.

Lemma mkdir_files path w : files (mkdir path w).2 = files w.
Proof.
  unfold mkdir. destruct (existsb _ _); [done|]. by case_bool_decide.
Qed.

Lemma mkdirs_blocked target q : ∀ ds w,
  q ∈ made_dirs target ds -> is_Some (files w !! q) ->
  ∃ e w', for_each ds (mkdir_body target) w = (Raise e, w') ∧ files w' = files w.
Proof.
  induction ds as [|x ds IH]; intros w Hin Hq; [by apply elem_of_nil in Hin|].
  cbn [for_each]. rewrite made_dirs_cons in Hin.
  pose proof (mkdir_files (path_join target x) w) as Hfiles.
  destruct (mkdir (path_join target x) w) as [[[]|e|c] w1] eqn:Hm; cbn [snd] in Hfiles.
  - pose proof (mkdir_inv _ _ _ Hm) as (Hnone & _ & _).
    apply elem_of_app in Hin as [Hin|Hin].
    { rewrite (Hnone q Hin) in Hq. by destruct Hq. }
    destruct (IH (printed [py "   📁 创建目录: " ++ path_join target x] w1) Hin)
      as (e & w' & Hloop & Hf').
    { cbn [files printed]. by rewrite Hfiles. }
    exists e, w'. split; [|by rewrite Hf'].
    erewrite bind_Ret; [exact Hloop|]. unfold mkdir_body.
    erewrite bind_Ret by exact Hm. apply print_printed.
  - exists e, w1. split; [|done].
    apply bind_Raise. unfold mkdir_body. by apply bind_Raise.
  - by apply no_exit_mkdir in Hm.
Qed.

Lemma writes_nothing_eq {A} (m : M A) w :
  writes_only (fun _ => False) m -> files (m w).2 = files w.
Proof. intros H. apply map_eq. intros q. apply H. tauto. Qed.

Lemma writes_nothing_analyze word_char self :
  writes_only (fun _ => False) (analyze_source_file word_char self).
Proof.
  unfold analyze_source_file.
  apply writes_only_bind; [apply writes_only_print|]. intros _ _ _ _.
  apply writes_only_bind; [apply writes_only_read|]. intros _ content _ _.
  apply writes_only_bind; [apply writes_only_print|]. intros _ _ _ _.
  apply writes_only_ret.
Qed.

Lemma pipeline_blocked word_char source_file target_dir q w e w' :
  q ∈ made_dirs target_dir directories -> is_Some (files w !! q) ->
  pipeline word_char (init source_file target_dir) w = (Raise e, w') ->
  files w' = files w.
Proof.
  intros Hin Hd. unfold pipeline.
  pose proof (writes_nothing_eq _ w
                (writes_nothing_analyze word_char (init source_file target_dir))) as Ha.
  destruct (analyze_source_file word_char (init source_file target_dir) w)
    as [[self'|e0|c] w1] eqn:Han; cbn [snd] in Ha.
  - erewrite bind_Ret by exact Han.
    rewrite (bind_Ret _ _ _ _ _ (print_printed _ _)).
    apply analyze_inv in Han as (content & _ & -> & _).
    unfold generate_file_structure. cbn [Script.target_dir analyzed].
    destruct (mkdirs_blocked target_dir q directories
                (printed [py "🏗️  生成新的文件结构..."] (printed [[]] w1)) Hin)
      as (e1 & w2 & Hloop & Hf2).
    { cbn [files printed]. by rewrite Ha. }
    erewrite bind_Raise.
    2:{ erewrite bind_Ret by apply print_printed.
        apply bind_Raise. exact Hloop. }
    intros [= _ <-]. by rewrite Hf2.
  - erewrite bind_Raise by exact Han. by intros [= _ <-].
  - unfold mbind, M_bind. by rewrite Han.
Qed.

(** X19: when the place of one of the eight directories, or of a
    directory above them such as the target directory itself, is taken by
    a regular file, the run ends with status 1 and has written no file: the
    directories are made before the first file is written. *)
Theorem occupied_directory_fails
    (word_char : N -> bool) (prog source_file target_dir q : list N) (w : world) :
  q ∈ made_dirs target_dir directories ->
  is_Some (files w !! q) ->
  (run word_char [prog; source_file; target_dir] w).1 = 1%Z
  ∧ files (run word_char [prog; source_file; target_dir] w).2 = files w.
Proof.
  intros Hin Hq.
  assert (Hone : (run word_char [prog; source_file; target_dir] w).1 = 1%Z).
  { destruct (run word_char [prog; source_file; target_dir] w) as [c w'] eqn:Hrun.
    pose proof (status_zero_or_one_aux word_char [prog; source_file; target_dir] w) as Hc.
    rewrite Hrun in Hc. cbn [fst] in *. destruct Hc as [->|Hc]; [|done].
    apply run_inv in Hrun as (? & ? & ? & content & R & [= <- <- <-] & (_ & Hfree & _) & _).
    rewrite (Hfree q Hin) in Hq. by destruct Hq. }
  split; [done|]. revert Hone. unfold run. rewrite main_three.
  destruct (exists_in w source_file); [|done].
  unfold try_except.
  destruct (pipeline word_char (init source_file target_dir)
              (printed (banner_lines source_file target_dir) w))
    as [[[]|e|c] w1] eqn:Hp; cbn [fst snd exit_code]; [done| |].
  - intros _. rewrite on_error_run. cbn [snd files printed].
    by rewrite (pipeline_blocked _ _ _ q
                  (printed (banner_lines source_file target_dir) w) _ _ Hin Hq Hp).
  - by apply no_exit_pipeline in Hp.
Qed.

Lemma occupied_directory_fails_witness :
  (run ident_char [py "refactor_telegram.py"; py "telegram.go"; py "out/"]
     {| files := {[ py "telegram.go" := two_functions; py "out" := py "notes" ]};
        dirs := ∅; stdout := [] |}).1 = 1%Z
  ∧ files (run ident_char [py "refactor_telegram.py"; py "telegram.go"; py "out/"]
             {| files := {[ py "telegram.go" := two_functions;
                            py "out" := py "notes" ]};
                dirs := ∅; stdout := [] |}).2
    = {[ py "telegram.go" := two_functions; py "out" := py "notes" ]}.
Proof.
  apply (occupied_directory_fails ident_char _ _ (py "out/") (py "out")).
  - apply list_elem_of_In. vm_compute. right. left. reflexivity.
  - vm_compute. eexists. reflexivity.
Defined.

(** ** Nothing is removed *)

Lemma extends_refl w : extends w w.
Proof. done. Qed.

Lemma extends_trans w1 w2 w3 : extends w1 w2 -> extends w2 w3 -> extends w1 w3.
Proof.
  intros (? & ? & ?) (? & ? & ?). split; [set_solver|]. split; [set_solver|].
  by etrans.
Qed.

Lemma only_adds_ret {A} (a : A) : only_adds (mret a : M A).
Proof. intros w. apply extends_refl. Qed.

Lemma only_adds_bind {A B} (m : M A) (f : A -> M B) :
  only_adds m -> (∀ a, only_adds (f a)) -> only_adds (m ≫= f).
Proof.
  intros Hm Hf w. unfold mbind, M_bind. specialize (Hm w).
  destruct (m w) as [[a|e|c] w1]; cbn [snd] in *; [|done..].
  eapply extends_trans; [done|apply Hf].
Qed.

Lemma only_adds_try {A} (m : M A) (h : exn -> M A) :
  only_adds m -> (∀ e, only_adds (h e)) -> only_adds (try_except m h).
Proof.
  intros Hm Hh w. unfold try_except. specialize (Hm w).
  destruct (m w) as [[a|e|c] w1]; cbn [snd] in *; [done| |done].
  eapply extends_trans; [done|apply Hh].
Qed.

Lemma only_adds_print line : only_adds (print line).
Proof.
  intros w. unfold print, extends. cbn [snd files dirs stdout].
  split; [done|]. split; [done|]. by apply prefix_app_r.
Qed.

Lemma only_adds_exit {A} c : only_adds (sys_exit c : M A).
Proof. intros w. apply extends_refl. Qed.

Lemma only_adds_exists path : only_adds (path_exists path).
Proof. intros w. apply extends_refl. Qed.

Lemma only_adds_read path : only_adds (read_text path).
Proof.
  intros w. unfold read_text. destruct (files w !! path); [apply extends_refl|].
  destruct (bool_decide _); apply extends_refl.
Qed.

Lemma only_adds_write path text : only_adds (write_text path text).
Proof.
  intros w. unfold write_text. destruct (bool_decide _); [apply extends_refl|].
  unfold extends. cbn [snd files dirs stdout]. split; [done|]. split; [|done].
  rewrite dom_insert. set_solver.
Qed.

Lemma only_adds_mkdir path : only_adds (mkdir path).
Proof.
  intros w. unfold mkdir. destruct (existsb _ _); [apply extends_refl|].
  destruct (bool_decide _); [apply extends_refl|].
  unfold extends. cbn [snd files dirs stdout]. split; [set_solver|]. done.
Qed.

Lemma only_adds_for_each {A} (l : list A) (f : A -> M unit) :
  (∀ x, only_adds (f x)) -> only_adds (for_each l f).
Proof.
  intros Hf. induction l as [|x l IH]; cbn [for_each]; [apply only_adds_ret|].
  apply only_adds_bind; [apply Hf|by intros _].
Qed.

Create HintDb only_adds.
#[local] Hint Resolve only_adds_ret only_adds_print only_adds_exit only_adds_exists
  only_adds_read only_adds_write only_adds_mkdir : only_adds.

Ltac only_adds_step :=
  first [ apply only_adds_bind; [|intros ?]
        | apply only_adds_for_each; intros ?
        | solve [auto with only_adds] ].

Lemma only_adds_pipeline word_char self : only_adds (pipeline word_char self).
Proof.
  unfold pipeline, analyze_source_file, generate_file_structure,
    generate_summary_report.
  repeat only_adds_step.
  - destruct x as [p names]. unfold _generate_file.
    destruct names; repeat only_adds_step.
  - intros w. apply only_adds_write.
Qed.

Lemma only_adds_main word_char argv : only_adds (main word_char argv).
Proof.
  unfold main. destruct (negb _).
  - repeat only_adds_step.
  - apply only_adds_bind; [apply only_adds_exists|]. intros found.
    destruct (negb found); repeat only_adds_step.
    apply only_adds_try; [apply only_adds_pipeline|].
    intros e. repeat only_adds_step.
Qed.

(** X20: a run removes nothing: the directories and the file paths it found
    are there when it ends, with status 0 or 1, and the output it found is
    the start of the output it leaves. *)
Theorem run_removes_nothing
    (word_char : N -> bool) (argv : list (list N)) (w : world) :
  dirs w ⊆ dirs (run word_char argv w).2
  ∧ (∀ path, is_Some (files w !! path) ->
       is_Some (files (run word_char argv w).2 !! path))
  ∧ stdout w `prefix_of` stdout (run word_char argv w).2.
Proof.
  rewrite run_world. destruct (only_adds_main word_char argv w) as (Hd & Hf & Ho).
  split; [done|]. split; [|done].
  intros path Hp%elem_of_dom. apply elem_of_dom. by apply Hf.
Qed.

(** ** The tree of the report *)

Lemma glob_go_elem w dir_path name :
  exists_in w (dir_path ++ chr "/" :: name) = true ->
  contains [chr "/"] name = false ->
  endswith (py ".go") name = true ->
  name ∈ glob_go w dir_path.
Proof.
  intros Hex Hs He. unfold glob_go. cbv zeta.
  rewrite (sorted_on_perm id). apply list_elem_of_filter. split; [done|].
  apply list_elem_of_omap. exists (dir_path ++ chr "/" :: name). split.
  - unfold exists_in in Hex. apply orb_true_iff in Hex as [H|H].
    + apply bool_decide_eq_true_1 in H as [text H]. apply elem_of_app. left.
      apply list_elem_of_fmap. exists (dir_path ++ chr "/" :: name, text).
      split; [done|]. by apply elem_of_map_to_list.
    + apply bool_decide_eq_true_1 in H. apply elem_of_app. right.
      by apply elem_of_elements.
  - replace (dir_path ++ chr "/" :: name)
      with ((dir_path ++ [chr "/"]) ++ name) by (by rewrite <- app_assoc).
    apply strip_prefix_app.
Qed.

Lemma tree_lines_blocks w target_dir :
  tree_lines w target_dir = concat (map (tree_block w target_dir) directories).
Proof.
  unfold tree_lines.
  change (concat (map (tree_block w target_dir) directories))
    with ([] ++ concat (map (tree_block w target_dir) directories)).
  rewrite <- fold_left_lines. apply fold_left_pointwise.
  intros content dir_name. cbv zeta. unfold tree_block, tree_dir_line.
  destruct (exists_in w (path_join target_dir dir_name)).
  - rewrite (fold_left_lines tree_file_line). by rewrite <- !app_assoc.
  - by rewrite app_nil_r.
Qed.

Lemma tree_lines_file w target_dir dir_name name :
  dir_name ∈ directories ->
  exists_in w (path_join target_dir dir_name) = true ->
  name ∈ glob_go w (path_join target_dir dir_name) ->
  ∃ before earlier after,
    tree_lines w target_dir
    = before ++ tree_dir_line dir_name ++ concat (map tree_file_line earlier)
      ++ tree_file_line name ++ after.
Proof.
  intros (d1 & d2 & Hd)%list_elem_of_split Hex (n1 & n2 & Hn)%list_elem_of_split.
  rewrite tree_lines_blocks, Hd, map_app, concat_app. cbn [map concat].
  unfold tree_block at 2. rewrite Hex, Hn, map_app, concat_app. cbn [map concat].
  exists (concat (map (tree_block w target_dir) d1)), n1,
    (concat (map tree_file_line n2) ++ concat (map (tree_block w target_dir) d2)).
  by rewrite <- !app_assoc.
Qed.

Lemma key_directory p :
  p ∈ Dict.keys empty_mapping ->
  ∃ dir_name name,
    p = dir_name ++ chr "/" :: name ∧ dir_name ∈ directories
    ∧ contains [chr "/"] name = false ∧ endswith (py ".go") name = true.
Proof.
  intros Hp.
  exists (split_head (chr "/") p), (drop (S (length (split_head (chr "/") p))) p).
  revert Hp. unfold Dict.keys, empty_mapping. cbn [map fst].
  rewrite !elem_of_cons, elem_of_nil.
  intros H.
  repeat (destruct H as [->|H];
          [split; [by vm_compute|];
           split; [apply (bool_decide_unpack _); by vm_compute|];
           split; by vm_compute|]).
  done.
Qed.

Lemma summary_inv_world self w w' :
  generate_summary_report self w = (Ret tt, w') ->
  ∃ wr, same_fs w wr
        ∧ files w' = <[report_path (target_dir self) := report_content self wr]>
                       (files w).
Proof.
  unfold generate_summary_report.
  intros ([] & w0 & Hp & Hw)%bind_Ret_inv.
  apply print_inv in Hp as [_ [Hf0 Hd0]].
  apply write_text_inv in Hw as (_ & Hf & _).
  exists w0. split; [done|]. by rewrite Hf, Hf0.
Qed.

Lemma pipeline_report word_char source_file target_dir w w' :
  pipeline word_char (init source_file target_dir) w = (Ret tt, w') ->
  ∃ content wr,
    files w !! source_file = Some content
    ∧ files wr = gen_files (analyzed word_char source_file target_dir content)
                   (_get_file_mapping (_extract_functions content)) (files w)
    ∧ dirs wr = dirs_after target_dir w
    ∧ files w' = <[report_path target_dir :=
                     report_content (analyzed word_char source_file target_dir content) wr]>
                   (files wr).
Proof.
  unfold pipeline.
  intros (self' & w1 & Ha & H)%bind_Ret_inv.
  apply analyze_inv in Ha as (content & Hc & -> & [Hf1 Hd1]).
  apply bind_Ret_inv in H as ([] & w2 & [_ [Hf2 Hd2]]%print_inv & H).
  apply bind_Ret_inv in H as ([] & w3 & Hg & H).
  apply generate_file_structure_inv in Hg as (_ & _ & Hf3 & Hd3).
  apply bind_Ret_inv in H as ([] & w4 & [_ [Hf4 Hd4]]%print_inv & H).
  apply bind_Ret_inv in H as ([] & w5 & Hs & H).
  apply summary_inv_world in Hs as (wr & [Hfr Hdr] & Hf5).
  repeat (apply bind_Ret_inv in H as ([] & ? & [_ [? ?]]%print_inv & H)).
  apply print_inv in H as [_ [? ?]].
  simpl in *.
  exists content, wr. split; [done|]. split; [|split].
  - rewrite Hfr, Hf4, Hf3, Hf2, Hf1. done.
  - rewrite Hdr, Hd4, Hd3. unfold dirs_after. by rewrite Hd2, Hd1.
  - transitivity (files w5); [congruence|]. by rewrite Hf5, Hfr.
Qed.

Lemma report_content_tree self w :
  ∃ before after,
    report_content self w = before ++ tree_lines w (target_dir self) ++ after.
Proof.
  exists (py "# Telegram Handler 重构摘要" ++ [nl; nl]
          ++ py "## 原始文件分析" ++ [nl]
          ++ py "- 源文件: `" ++ source_file self ++ py "`" ++ [nl]
          ++ py "- 函数总数: " ++ str_of_nat (length (functions self)) ++ [nl]
          ++ py "- 常量总数: " ++ str_of_nat (length (constants self)) ++ [nl; nl]
          ++ py "## 函数分类统计" ++ [nl]
          ++ category_lines (functions self)
          ++ [nl] ++ py "## 重构后文件结构" ++ [nl; nl]
          ++ py "```" ++ [nl] ++ py "telegram/" ++ [nl]).
  exists (py "```" ++ [nl; nl] ++ report_tail).
  unfold report_content. cbv zeta. rewrite <- !app_assoc. reflexivity.
Qed.

Lemma path_join_sub target dir_name name :
  path_join target dir_name ++ chr "/" :: name
  = path_join target (dir_name ++ chr "/" :: name).
Proof. unfold path_join. by rewrite <- app_assoc. Qed.

(** X21: the report of a run with status 0 lists the files the run has
    generated: the name of every destination with a list that is not empty
    has its line in the tree, under the line of its directory. *)
Theorem report_lists_generated_files
    (word_char : N -> bool) (argv : list (list N)) (w w' : world) :
  run word_char argv w = (0%Z, w') ->
  ∃ prog source_file target_dir content report,
    argv = [prog; source_file; target_dir]
    ∧ files w !! source_file = Some content
    ∧ files w' !! report_path target_dir = Some report
    ∧ ∀ path names,
        (path, names) ∈ _get_file_mapping (_extract_functions content) ->
        names ≠ [] ->
        ∃ dir_name name before earlier after,
          path = dir_name ++ chr "/" :: name
          ∧ dir_name ∈ directories
          ∧ report = before ++ tree_dir_line dir_name
                     ++ concat (map tree_file_line earlier)
                     ++ tree_file_line name ++ after.
Proof.
  unfold run. destruct (main word_char argv w) as [r w1] eqn:Hm.
  intros [= Hr ->].
  apply main_outcome in Hm
    as [[-> (prog & source_file & target_dir & w0 & -> & [Hf0 Hd0] & Hp)]| ->]; [|done].
  apply pipeline_report in Hp as (content & wr & Hc & Hfr & Hdr & Hf').
  rewrite Hf0 in Hc, Hfr.
  exists prog, source_file, target_dir, content,
    (report_content (analyzed word_char source_file target_dir content) wr).
  split; [done|]. split; [done|]. split; [by rewrite Hf', lookup_insert_eq|].
  intros path names Hin Hne.
  destruct (key_directory path (file_mapping_key _ _ _ Hin))
    as (dir_name & name & -> & Hdir & Hslash & Hgo).
  exists dir_name, name.
  assert (Hex : exists_in wr (path_join target_dir dir_name) = true).
  { unfold exists_in. rewrite (bool_decide_eq_true_2 (_ ∈ dirs wr)); [apply orb_true_r|].
    rewrite Hdr. unfold dirs_after.
    by apply elem_of_union_l, elem_of_list_to_set, made_dirs_dir. }
  assert (Hfile : exists_in wr (path_join target_dir dir_name ++ chr "/" :: name) = true).
  { unfold exists_in. rewrite bool_decide_eq_true_2; [done|].
    rewrite path_join_sub, Hfr.
    pose proof (gen_files_lookup
                  (analyzed word_char source_file target_dir content)
                  _ (files w) _ names (file_mapping_NoDup _) Hin) as Hl.
    cbn [Script.target_dir Script.source_file Script.functions analyzed] in Hl.
    rewrite Hl. destruct names; [done|by eexists]. }
  destruct (tree_lines_file wr target_dir dir_name name Hdir Hex
              (glob_go_elem _ _ _ Hfile Hslash Hgo))
    as (before & earlier & after & Ht).
  destruct (report_content_tree
              (analyzed word_char source_file target_dir content) wr)
    as (b0 & a0 & Hrep).
  cbn [Script.target_dir analyzed] in Hrep.
  exists (b0 ++ before), earlier, (after ++ a0).
  split; [done|]. split; [done|].
  rewrite Hrep, Ht. by rewrite <- !app_assoc.
Qed.

Lemma report_lists_generated_files_witness :
  ∃ prog source_file target_dir content report,
    two_functions_argv = [prog; source_file; target_dir]
    ∧ files two_functions_world !! source_file = Some content
    ∧ files two_functions_after !! report_path target_dir = Some report
    ∧ ∀ path names,
        (path, names) ∈ _get_file_mapping (_extract_functions content) ->
        names ≠ [] ->
        ∃ dir_name name before earlier after,
          path = dir_name ++ chr "/" :: name
          ∧ dir_name ∈ directories
          ∧ report = before ++ tree_dir_line dir_name
                     ++ concat (map tree_file_line earlier)
                     ++ tree_file_line name ++ after.
Proof.
  apply (report_lists_generated_files ident_char two_functions_argv
           two_functions_world two_functions_after).
  vm_compute. reflexivity.
Defined.

(** ** The paths a run can change *)


